(** * Transaction manager and bulk DML engine of n8n-nodes-oracle-thin

    A shallow embedding of
    - [TransactionManager] (src/unnamed/part_002),
    - [BulkOperations] of src/nodes/Oracle/OracleDatabase.node.ts
      (module [Node] below),
    - [BulkOperations] of src/unnamed/part_003 (module [Lib] below),
    together with the properties the specification states about them.

    Conventions of the embedding.
    - An [async] method is a state transformer over the object's fields
      and the outside world; [await] is sequencing.  A rejected promise
      and a [throw] are the same outcome, [Throw].
    - The oracledb connection is an object shared with the caller: it is
      modelled by the log of the calls it received and by an oracle
      giving the driver's answer to the n-th call.
    - [Date.now()] and [new Date()] read an oracle clock.
    - [console.log], [console.warn], [setTimeout] and the delay of
      [sleep] have no effect on what is modelled here.
    - JavaScript numbers are integers ([Z]); strings are byte strings
      (the savepoint pattern only accepts ASCII, where byte length and
      JavaScript length agree). *)

From Stdlib Require Import ZArith List String Ascii Bool Lia DecimalString.
Import ListNotations.

Open Scope string_scope.
Open Scope Z_scope.

(** ** JavaScript values that reach the code *)

(** What a [catch] clause can receive: an [Error] object (of class
    [Error] or of the subclass [TypeError]) or any other thrown value.
    Of a value that is no [Error] the sources only ever take
    [String(value)] and read the property [message]: [null] and
    [undefined] are kept apart, since reading a property of them
    raises; any other value is kept as the text [String(value)] gives
    and its [message] property, if it has one. *)
Inductive ErrorClass : Type := PlainError | TypeError.

Inductive Foreign : Type :=
| Null
| Undefined
| Other (text : string) (message : option string).

Inductive Thrown : Type :=
| ErrorObj (cls : ErrorClass) (message : string)
| NonError (value : Foreign).

(** [String(value)] *)
Definition text_of (value : Foreign) : string :=
  match value with
  | Null => "null"
  | Undefined => "undefined"
  | Other text _ => text
  end.

(** [new Error(msg)] *)
Definition Error (msg : string) : Thrown := ErrorObj PlainError msg.

(** [error instanceof Error] *)
Definition instanceof_Error (error : Thrown) : bool :=
  match error with
  | ErrorObj _ _ => true
  | NonError _ => false
  end.

(** [error.message] (only read after an [instanceof] test) and
    [String(error)] *)
Definition message_of (error : Thrown) : string :=
  match error with
  | ErrorObj _ m => m
  | NonError v => text_of v
  end.

Definition String_of (error : Thrown) : string :=
  match error with
  | ErrorObj PlainError m => "Error: " ++ m
  | ErrorObj TypeError m => "TypeError: " ++ m
  | NonError v => text_of v
  end.

(** [null] or [undefined] *)
Definition nullish (error : Thrown) : bool :=
  match error with
  | NonError Null | NonError Undefined => true
  | _ => false
  end.

(** The idiom [error instanceof Error ? error.message : String(error)]
    that every catch block of the sources uses. *)
Definition errorMessage (error : Thrown) : string :=
  if instanceof_Error error then message_of error else String_of error.

(** [s.includes(code)] *)
Definition includes (s code : string) : bool :=
  match index 0 code s with
  | Some _ => true
  | None => false
  end.

(** A value that is a string or a boolean, and its truthiness. *)
Inductive StrOrBool : Type :=
| OfStr (s : string)
| OfBool (b : bool).

Definition truthy (v : StrOrBool) : bool :=
  match v with
  | OfStr s => negb (s =? "")%string
  | OfBool b => b
  end.

(** [arr.some(f)] *)
Definition some {A : Type} (f : A -> StrOrBool) (arr : list A) : bool :=
  existsb (fun x => truthy (f x)) arr.

(** Cell values of a data row, and rows as objects with ordered keys.
    A row is a plain object (an object literal, a parsed JSON item): it
    has its own properties, listed here, and inherits the members of
    [Object.prototype]; [VInherited name] is the member of that name. *)
Inductive Val : Type :=
| VUndefined
| VNull
| VNum (z : Z)
| VStr (s : string)
| VInherited (name : string).

Definition Row : Type := list (string * Val).

(** [cols.includes(col)] on an array of strings *)
Definition arr_includes (cols : list string) (col : string) : bool :=
  existsb (fun k => (k =? col)%string) cols.

(** The property names of [Object.prototype]. *)
Definition Object_prototype : list string :=
  [ "constructor"; "__defineGetter__"; "__defineSetter__"; "hasOwnProperty"
  ; "__lookupGetter__"; "__lookupSetter__"; "isPrototypeOf"
  ; "propertyIsEnumerable"; "toString"; "valueOf"; "__proto__"
  ; "toLocaleString" ].

(** [Object.keys(row)] *)
Definition keys (row : Row) : list string := map fst row.

(** The own property [col] of [row], if there is one. *)
Fixpoint own (row : Row) (col : string) : option Val :=
  match row with
  | [] => None
  | (k, v) :: rest => if (k =? col)%string then Some v else own rest col
  end.

(** [row[col]]: the own property, else the inherited one, else
    [undefined]. *)
Definition get (row : Row) (col : string) : Val :=
  match own row col with
  | Some v => v
  | None =>
      if arr_includes Object_prototype col then VInherited col
      else VUndefined
  end.

(** [col in row]: own and inherited properties alike. *)
Definition has_key (col : string) (row : Row) : bool :=
  existsb (fun k => (k =? col)%string) (keys row)
  || arr_includes Object_prototype col.

(** [arr.slice(start, end)] with JavaScript's treatment of negative and
    out-of-range indices. *)
Definition clamp_index (len k : Z) : Z :=
  if k <? 0 then Z.max (len + k) 0 else Z.min k len.

Definition slice {A : Type} (arr : list A) (start stop : Z) : list A :=
  let len := Z.of_nat (List.length arr) in
  let s := clamp_index len start in
  let e := clamp_index len stop in
  firstn (Z.to_nat (e - s)) (skipn (Z.to_nat s) arr).

(** [arr.findIndex(p)], -1 when no element satisfies [p] *)
Fixpoint findIndex {A : Type} (p : A -> bool) (arr : list A) : Z :=
  match arr with
  | [] => -1
  | x :: rest =>
      if p x then 0
      else let k := findIndex p rest in if k <? 0 then -1 else k + 1
  end.

(** [arr.splice(i, 1)] for an index in range (the only use in the
    sources is guarded by [i !== -1]). *)
Definition splice1 {A : Type} (arr : list A) (i : Z) : list A :=
  firstn (Z.to_nat i) arr ++ skipn (S (Z.to_nat i)) arr.

(** Decimal text of a number, as a template literal prints it. *)
Definition show (z : Z) : string := NilZero.string_of_int (Z.to_int z).

(** ** The connection and the clock *)

(** Bind data handed to the driver: positional or by name. *)
Inductive Binds : Type :=
| ByPosition (vals : list Val)
| ByName (row : Row).

Inductive Call : Type :=
| Execute (sql : string) (binds : option Binds) (autoCommit : option bool)
| ExecuteMany (sql : string) (binds : list Binds) (batchErrors : bool)
| Commit
| Rollback.

(** One entry of [result.batchErrors]: the row's offset in the batch
    and the message found at [.error?.message]. *)
Record BatchError : Type := mkBatchError {
  offset : option Z;
  error_message : option string
}.

Record DriverResult : Type := mkDriverResult {
  rowsAffected : option Z;
  batchErrors : option (list BatchError)
}.

Inductive Reply : Type :=
| Done (r : DriverResult)
| Raise (e : Thrown).

(** The world outside the objects: [driver n] is what the connection
    answers to the call number [n] it receives, [calls] the calls
    received so far (oldest first); [clock n] is what the n-th reading
    of the clock returns. *)
Record World : Type := mkWorld {
  driver : nat -> Reply;
  calls : list Call;
  clock : nat -> Z;
  ticks : nat
}.

(** ** Outcomes and the state monad *)

Inductive Res (A : Type) : Type :=
| Ok (a : A)
| Throw (e : Thrown).
Arguments Ok {A} a.
Arguments Throw {A} e.

Definition M (S A : Type) : Type := S -> Res A * S.

Definition ret {S A : Type} (a : A) : M S A := fun s => (Ok a, s).

Definition throw {S A : Type} (e : Thrown) : M S A := fun s => (Throw e, s).

Definition bind {S A B : Type} (m : M S A) (k : A -> M S B) : M S B :=
  fun s =>
    match m s with
    | (Ok a, s') => k a s'
    | (Throw e, s') => (Throw e, s')
    end.

(** [try { m } catch (error) { handler error }] *)
Definition try_catch {S A : Type} (m : M S A) (handler : Thrown -> M S A)
  : M S A :=
  fun s =>
    match m s with
    | (Ok a, s') => (Ok a, s')
    | (Throw e, s') => handler e s'
    end.

Definition modify {S : Type} (f : S -> S) : M S unit := fun s => (Ok tt, f s).

Definition gets {S A : Type} (f : S -> A) : M S A := fun s => (Ok (f s), s).

Declare Scope monad_scope.
Delimit Scope monad_scope with monad.
Notation "x <- m ;; k" := (bind m (fun x => k))
  (at level 100, m at next level, right associativity) : monad_scope.
Notation "m ;;; k" := (bind m (fun _ => k))
  (at level 100, right associativity) : monad_scope.

(** Sending one call through the connection. *)
Definition send (c : Call) (w : World) : Reply * World :=
  (driver w (List.length (calls w)),
   mkWorld (driver w) (calls w ++ [c]) (clock w) (ticks w)).

(** Reading the clock. *)
Definition now (w : World) : Z * World :=
  (clock w (ticks w), mkWorld (driver w) (calls w) (clock w) (S (ticks w))).

(** ** Error classification (part_002, [isRetryableError]) *)

Definition retryableErrors : list string :=
  [ "ORA-00060"    (* Deadlock *)
  ; "ORA-08177"    (* Serialization failure *)
  ; "ORA-00054"    (* Resource busy *)
  ; "ORA-30006" ]. (* Resource busy; acquire with NOWAIT specified *)

(** The callback of [some] is the conditional expression
    [error instanceof Error ? error.message
                            : String(error)?.includes(code)]:
    the conditional operator binds weaker than the call, so
    [.includes(code)] belongs to its last branch only. *)
Definition isRetryableError (error : Thrown) : bool :=
  if negb (instanceof_Error error) then false
  else
    some (fun code =>
            if instanceof_Error error
            then OfStr (message_of error)
            else OfBool (includes (String_of error) code))
         retryableErrors.

(** The classifier as the specification words it: retryable exactly
    when the message carries one of the four conflict codes. *)
Inductive ErrorCategory : Type := RETRYABLE | FATAL.

Definition classify (error : Thrown) : ErrorCategory :=
  if isRetryableError error then RETRYABLE else FATAL.

Definition classify_spec (error : Thrown) : ErrorCategory :=
  if instanceof_Error error
     && existsb (includes (message_of error)) retryableErrors
  then RETRYABLE else FATAL.

(** ** TransactionManager (part_002) *)

Inductive Isolation : Type := READ_COMMITTED | SERIALIZABLE | READ_ONLY.

(** A field that is [None] is [undefined] in the options object. *)
Record TransactionOptions : Type := mkOptions {
  isolation : option Isolation;
  timeout : option Z;              (* seconds *)
  autoRollbackOnError : option bool;
  maxRetries : option Z;
  retryDelay : option Z            (* milliseconds *)
}.

Record SavepointInfo : Type := mkSavepoint {
  name : string;
  timestamp : Z;
  description : option string
}.

(** The fields of the class.  [world] stands for what [this.connection]
    refers to (and the clock); [invoked] is a ghost counter of the runs
    of callbacks handed to [executeWithRetry]. *)
Record TransactionManager : Type := mkTM {
  world : World;
  savepoints : list SavepointInfo;
  transactionStartTime : option Z;
  options : TransactionOptions;
  isTransactionActive : bool;
  retryCount : Z;
  invoked : nat
}.

Definition set_world (tm : TransactionManager) (w : World) :=
  mkTM w (savepoints tm) (transactionStartTime tm) (options tm)
       (isTransactionActive tm) (retryCount tm) (invoked tm).

Definition set_savepoints (tm : TransactionManager) (l : list SavepointInfo) :=
  mkTM (world tm) l (transactionStartTime tm) (options tm)
       (isTransactionActive tm) (retryCount tm) (invoked tm).

Definition set_transactionStartTime (tm : TransactionManager) (t : option Z) :=
  mkTM (world tm) (savepoints tm) t (options tm)
       (isTransactionActive tm) (retryCount tm) (invoked tm).

Definition set_isTransactionActive (tm : TransactionManager) (b : bool) :=
  mkTM (world tm) (savepoints tm) (transactionStartTime tm) (options tm)
       b (retryCount tm) (invoked tm).

Definition set_retryCount (tm : TransactionManager) (n : Z) :=
  mkTM (world tm) (savepoints tm) (transactionStartTime tm) (options tm)
       (isTransactionActive tm) n (invoked tm).

Definition set_invoked (tm : TransactionManager) (n : nat) :=
  mkTM (world tm) (savepoints tm) (transactionStartTime tm) (options tm)
       (isTransactionActive tm) (retryCount tm) n.

(** The constructor: defaults, overridden by the keys the caller gave. *)
Definition or_default {A : Type} (given : option A) (default : A) : option A :=
  match given with
  | Some v => Some v
  | None => Some default
  end.

Definition new_TransactionManager (connection : World)
  (given : TransactionOptions) : TransactionManager :=
  mkTM connection [] None
       (mkOptions (or_default (isolation given) READ_COMMITTED)
                  (or_default (timeout given) 300)
                  (or_default (autoRollbackOnError given) true)
                  (or_default (maxRetries given) 3)
                  (or_default (retryDelay given) 1000))
       false 0 0.

Definition no_options : TransactionOptions :=
  mkOptions None None None None None.

(** Methods run in the state monad over the manager. *)
Definition TM (A : Type) : Type := M TransactionManager A.

Definition call (c : Call) : TM DriverResult :=
  fun tm =>
    let (reply, w) := send c (world tm) in
    match reply with
    | Done r => (Ok r, set_world tm w)
    | Raise e => (Throw e, set_world tm w)
    end.

Definition Date_now : TM Z :=
  fun tm => let (t, w) := now (world tm) in (Ok t, set_world tm w).

Open Scope monad_scope.

(** [isValidSavepointName]: the regular expression
    [/^[a-zA-Z][a-zA-Z0-9_]*$/] and the length test. *)
Definition is_letter (c : ascii) : bool :=
  let n := nat_of_ascii c in
  ((65 <=? n) && (n <=? 90) || (97 <=? n) && (n <=? 122))%nat.

Definition is_digit (c : ascii) : bool :=
  let n := nat_of_ascii c in ((48 <=? n) && (n <=? 57))%nat.

Definition is_word (c : ascii) : bool :=
  is_letter c || is_digit c || (nat_of_ascii c =? 95)%nat.

Fixpoint all_chars (p : ascii -> bool) (s : string) : bool :=
  match s with
  | EmptyString => true
  | String c rest => p c && all_chars p rest
  end.

Definition regex_test (s : string) : bool :=
  match s with
  | EmptyString => false
  | String c rest => is_letter c && all_chars is_word rest
  end.

Definition isValidSavepointName (n : string) : bool :=
  regex_test n && (String.length n <=? 30)%nat.

Definition named (n : string) (sp : SavepointInfo) : bool :=
  (name sp =? n)%string.

Definition cleanupTransaction : TM unit :=
  modify (fun tm =>
    set_retryCount
      (set_savepoints
         (set_transactionStartTime (set_isTransactionActive tm false) None)
         [])
      0).

Definition isolationMap (level : Isolation) : string :=
  match level with
  | READ_COMMITTED => "READ COMMITTED"
  | SERIALIZABLE => "SERIALIZABLE"
  | READ_ONLY => "READ ONLY"
  end.

Definition setIsolationLevel (level : Isolation) : TM unit :=
  call (Execute ("SET TRANSACTION ISOLATION LEVEL " ++ isolationMap level)
                None None) ;;;
  ret tt.

(** Only arms a timer whose callback logs a warning. *)
Definition setTransactionTimeout (timeoutSeconds : Z) : TM unit := ret tt.

Definition beginTransaction : TM unit :=
  active <- gets isTransactionActive ;;
  if active
  then throw (Error "Transação já está ativa. Use commit() ou rollback() primeiro.")
  else
    try_catch
      (opts <- gets options ;;
       match isolation opts with
       | Some READ_COMMITTED | None => ret tt
       | Some level => setIsolationLevel level
       end ;;;
       match timeout opts with
       | Some t => if t =? 0 then ret tt else setTransactionTimeout t
       | None => ret tt
       end ;;;
       t <- Date_now ;;
       modify (fun tm =>
         set_retryCount
           (set_isTransactionActive (set_transactionStartTime tm (Some t)) true)
           0))
      (fun error =>
         throw (Error ("Falha ao iniciar transação: " ++ errorMessage error))).

Definition createSavepoint (n : string) (descr : option string) : TM unit :=
  active <- gets isTransactionActive ;;
  if negb active
  then throw (Error "Nenhuma transação ativa para criar savepoint")
  else if negb (isValidSavepointName n)
  then throw (Error "Nome do savepoint inválido. Use apenas letras, números e underscore.")
  else
    sps <- gets savepoints ;;
    if existsb (named n) sps
    then throw (Error ("Savepoint '" ++ n ++ "' já existe"))
    else
      try_catch
        (call (Execute ("SAVEPOINT " ++ n) None None) ;;;
         t <- Date_now ;;
         modify (fun tm =>
           set_savepoints tm (savepoints tm ++ [mkSavepoint n t descr])))
        (fun error =>
           throw (Error ("Falha ao criar savepoint '" ++ n ++ "': "
                         ++ errorMessage error))).

Definition rollbackToSavepoint (n : string) : TM unit :=
  active <- gets isTransactionActive ;;
  if negb active
  then throw (Error "Nenhuma transação ativa para rollback")
  else
    sps <- gets savepoints ;;
    if negb (existsb (named n) sps)
    then throw (Error ("Savepoint '" ++ n ++ "' não encontrado"))
    else
      try_catch
        (call (Execute ("ROLLBACK TO SAVEPOINT " ++ n) None None) ;;;
         modify (fun tm =>
           let savepointIndex := findIndex (named n) (savepoints tm) in
           set_savepoints tm (slice (savepoints tm) 0 (savepointIndex + 1))))
        (fun error =>
           throw (Error ("Falha no rollback para savepoint '" ++ n ++ "': "
                         ++ errorMessage error))).

Definition releaseSavepoint (n : string) : TM unit :=
  active <- gets isTransactionActive ;;
  if negb active
  then throw (Error "Nenhuma transação ativa")
  else
    sps <- gets savepoints ;;
    let savepointIndex := findIndex (named n) sps in
    if savepointIndex =? -1
    then throw (Error ("Savepoint '" ++ n ++ "' não encontrado"))
    else
      try_catch
        (modify (fun tm =>
           set_savepoints tm (splice1 (savepoints tm) savepointIndex)))
        (fun error =>
           throw (Error ("Falha ao remover savepoint '" ++ n ++ "': "
                         ++ errorMessage error))).

Definition rollback : TM unit :=
  active <- gets isTransactionActive ;;
  if negb active
  then throw (Error "Nenhuma transação ativa para rollback")
  else
    try_catch
      (call Rollback ;;; cleanupTransaction)
      (fun error =>
         cleanupTransaction ;;;
         throw (Error ("Falha no rollback: " ++ errorMessage error))).

Definition commit : TM unit :=
  active <- gets isTransactionActive ;;
  if negb active
  then throw (Error "Nenhuma transação ativa para commit")
  else
    try_catch
      (call Commit ;;; cleanupTransaction)
      (fun error =>
         opts <- gets options ;;
         match autoRollbackOnError opts with
         | Some true => rollback
         | _ => ret tt
         end ;;;
         throw (Error ("Falha no commit: " ++ errorMessage error))).

(** *** executeWithRetry *)

(** A callback [() => Promise<T>]: it may use the connection and the
    manager, so it is a computation over the manager's state. *)
Definition Operation (T : Type) : Type := TM T.

(** Running the callback once (and counting the run). *)
Definition invoke {T : Type} (operation : Operation T) : TM T :=
  fun tm =>
    let (r, tm') := operation tm in
    (r, set_invoked tm' (S (invoked tm'))).

(** [this.options.maxRetries || 3] *)
Definition maxRetries_or_3 (tm : TransactionManager) : Z :=
  match maxRetries (options tm) with
  | Some n => if n =? 0 then 3 else n
  | None => 3
  end.

(** The [for] loop from [attempt] on, and the statements after it.
    The loop test is evaluated before each iteration, as in the source;
    [fuel] bounds the iterations of the model and [None] says that the
    bound was reached. *)
Fixpoint retry_loop {T : Type} (fuel : nat) (operation : Operation T)
  (attempt : Z) (lastError : option Thrown) (tm : TransactionManager)
  : option (Res T * TransactionManager) :=
  if attempt <=? maxRetries_or_3 tm then
    match fuel with
    | O => None
    | S fuel' =>
        match invoke operation tm with
        | (Ok v, tm1) => Some (Ok v, tm1)
        | (Throw error, tm1) =>
            if negb (isRetryableError error) then Some (Throw error, tm1)
            else if attempt <? maxRetries_or_3 tm1 then
              (* await this.sleep(...); this.retryCount++ *)
              retry_loop fuel' operation (attempt + 1) (Some error)
                         (set_retryCount tm1 (retryCount tm1 + 1))
            else
              retry_loop fuel' operation (attempt + 1) (Some error) tm1
        end
    end
  else
    match lastError with
    | Some e =>
        if instanceof_Error e then Some (Throw e, tm)
        else Some (Throw (Error (String_of e)), tm)
    | None => Some (Throw (Error "undefined"), tm)
    end.

(** The model gives the loop as many iterations as the retry limit read
    on entry allows; it answers [None] only if the callback raised that
    limit while the loop was running. *)
Definition executeWithRetry {T : Type} (operation : Operation T)
  (operationName : string) (tm : TransactionManager)
  : option (Res T * TransactionManager) :=
  retry_loop (Z.to_nat (maxRetries_or_3 tm)) operation 1 None tm.

(** *** executeBatch *)

Record BatchOperation : Type := mkBatchOperation {
  sql : string;
  binds : option Binds;
  op_name : option string
}.

Record BatchOptions : Type := mkBatchOptions {
  savepointPerOperation : option bool;
  stopOnError : option bool
}.

Record OperationResult : Type := mkOperationResult {
  index : Z;
  res_name : string;
  success : bool;
  result : option DriverResult;
  res_rowsAffected : option Z;
  res_error : option string
}.

Definition or_else {A : Type} (given : option A) (default : A) : A :=
  match given with
  | Some v => v
  | None => default
  end.

(** [arr[arr.length - 1]] *)
Definition last_savepoint (sps : list SavepointInfo) : option SavepointInfo :=
  nth_error sps (List.length sps - 1).

(** One iteration of the [for] loop over [operations]: the [try]
    statement for the operation at index [i].  It yields the results
    array after its [push], or throws out of the loop. *)
Definition batch_step (perOperation stop : bool) (i : Z)
  (operation : BatchOperation) (results : list OperationResult)
  : TM (list OperationResult) :=
  let operationName :=
    match op_name operation with
    | Some n => if (n =? "")%string then "operation_" ++ show (i + 1) else n
    | None => "operation_" ++ show (i + 1)
    end in
  try_catch
    ((if perOperation
      then (t <- Date_now ;;
            createSavepoint ("batch_" ++ show i ++ "_" ++ show t) None)
      else ret tt) ;;;
     r <- call (Execute (sql operation)
                        (Some (or_else (binds operation) (ByName [])))
                        (Some false)) ;;
     ret (results ++ [mkOperationResult i operationName true (Some r)
                                        (rowsAffected r) None])%list)
    (fun error =>
       let errorResult :=
         mkOperationResult i operationName false None None
                           (Some (errorMessage error)) in
       if stop then
         (sps <- gets savepoints ;;
          match last_savepoint sps with
          | Some lastSavepoint =>
              if perOperation then rollbackToSavepoint (name lastSavepoint)
              else ret tt
          | None => ret tt
          end) ;;;
         throw (Error ("Operação '" ++ operationName ++ "' falhou: "
                       ++ errorMessage error))
       else ret (results ++ [errorResult])%list).

Fixpoint batch_loop (perOperation stop : bool) (i : Z)
  (operations : list BatchOperation) (results : list OperationResult)
  : TM (list OperationResult) :=
  match operations with
  | [] => ret results
  | operation :: rest =>
      results' <- batch_step perOperation stop i operation results ;;
      batch_loop perOperation stop (i + 1) rest results'
  end.

Definition executeBatch (operations : list BatchOperation)
  (batchOptions : BatchOptions) : TM (list OperationResult) :=
  active <- gets isTransactionActive ;;
  (if negb active then beginTransaction else ret tt) ;;;
  batch_loop (or_else (savepointPerOperation batchOptions) false)
             (or_else (stopOnError batchOptions) true)
             0 operations [].

(** *** The state invariant of the specification *)

(** The pattern [^[A-Za-z][A-Za-z0-9_]{0,29}$], read off the
    specification: a letter followed by at most 29 word characters. *)
Definition savepoint_pattern (s : string) : bool :=
  match s with
  | EmptyString => false
  | String c rest =>
      is_letter c && all_chars is_word rest && (String.length rest <=? 29)%nat
  end.

Definition names (tm : TransactionManager) : list string :=
  map name (savepoints tm).

Record Invariant (tm : TransactionManager) : Prop := mkInvariant {
  inv_unique : NoDup (names tm);
  inv_pattern : Forall (fun n => savepoint_pattern n = true) (names tm);
  inv_idle_savepoints : isTransactionActive tm = false -> savepoints tm = [];
  inv_idle_start : isTransactionActive tm = false ->
                   transactionStartTime tm = None
}.

(** ** Bulk operations: what the two implementations share *)

(** The [data] key of an error entry: absent, one row of the batch
    ([batch[k]], possibly [undefined]) or the whole batch. *)
Inductive ErrorData : Type :=
| NoData
| RowData (row : option Row)
| BatchData (batch : list Row).

Record BulkError : Type := mkBulkError {
  batchIndex : Z;
  rowIndex : Z;
  error : option string;
  data : ErrorData
}.

Record BulkOperationResult : Type := mkResult {
  operation : string;
  totalRows : Z;
  successfulRows : Z;
  failedRows : Z;
  batchCount : Z;
  duration : Z;
  errors : list BulkError
}.

Record BulkInsertOptions : Type := mkBulkOptions {
  opt_batchSize : option Z;
  opt_continueOnError : option bool;
  opt_autoCommit : option bool;
  opt_whereColumns : option (list string)
}.

Definition len {A : Type} (arr : list A) : Z := Z.of_nat (List.length arr).

(** [arr[k]] *)
Definition at_index {A : Type} (arr : list A) (k : Z) : option A :=
  if k <? 0 then None else nth_error arr (Z.to_nat k).

(** [cols.join(sep)] *)
Definition join (sep : string) (cols : list string) : string :=
  String.concat sep cols.

(** [s || fallback] on an optional string *)
Definition str_or (s : option string) (fallback : string) : string :=
  match s with
  | Some m => if (m =? "")%string then fallback else m
  | None => fallback
  end.

(** The loop header
    [for (let i = 0; i < data.length; i += batchSize)], run from [i].
    [None]: the model ran out of [fuel] (with a batch size that is not
    positive the source loop need not end). *)
Fixpoint for_batches {S : Type} (fuel : nat) (length batchSize : Z)
  (body : Z -> M S unit) (i : Z) (s : S) : option (Res unit * S) :=
  if i <? length then
    match fuel with
    | O => None
    | S fuel' =>
        match body i s with
        | (Ok _, s') => for_batches fuel' length batchSize body (i + batchSize) s'
        | (Throw e, s') => Some (Throw e, s')
        end
    end
  else Some (Ok tt, s).

(** [for (const x of arr) body x] *)
Fixpoint for_of {S A : Type} (arr : list A) (body : A -> M S unit) : M S unit :=
  match arr with
  | [] => ret tt
  | x :: rest => body x ;;; for_of rest body
  end.

(** ** BulkOperations of OracleDatabase.node.ts *)
Module Node.

Record BulkOperations : Type := mkBulkOperations {
  defaultBatchSize : Z
}.

(** [new BulkOperations(connection, defaultBatchSize)] *)
Definition new_BulkOperations (given : option Z) : BulkOperations :=
  match given with
  | Some n => if n =? 0 then mkBulkOperations 1000 else mkBulkOperations n
  | None => mkBulkOperations 1000
  end.

(** The local variables of a bulk method that its loop updates, and the
    world the connection lives in. *)
Record Frame : Type := mkFrame {
  env : World;
  totalSuccess : Z;
  totalErrors : Z;
  errs : list BulkError;
  batches : Z
}.

Definition Loop (A : Type) : Type := M Frame A.

Definition conn (c : Call) : Loop DriverResult :=
  fun fr =>
    let (reply, w) := send c (env fr) in
    let fr' := mkFrame w (totalSuccess fr) (totalErrors fr) (errs fr) (batches fr) in
    match reply with
    | Done r => (Ok r, fr')
    | Raise e => (Throw e, fr')
    end.

Definition push_error (e : BulkError) : Loop unit :=
  modify (fun fr =>
    mkFrame (env fr) (totalSuccess fr) (totalErrors fr) (errs fr ++ [e])
            (batches fr)).

Definition add_errors (n : Z) : Loop unit :=
  modify (fun fr =>
    mkFrame (env fr) (totalSuccess fr) (totalErrors fr + n) (errs fr)
            (batches fr)).

Definition add_success (n : Z) : Loop unit :=
  modify (fun fr =>
    mkFrame (env fr) (totalSuccess fr + n) (totalErrors fr) (errs fr)
            (batches fr)).

Definition incr_batchCount : Loop unit :=
  modify (fun fr =>
    mkFrame (env fr) (totalSuccess fr) (totalErrors fr) (errs fr)
            (batches fr + 1)).

(** [validateDataStructure]: the error of the first row that lacks one
    of the expected columns, if any. *)
Fixpoint validate_from (i : Z) (rows : list Row) (expectedColumns : list string)
  : option Thrown :=
  match rows with
  | [] => None
  | row :: rest =>
      match find (fun col => negb (has_key col row)) expectedColumns with
      | Some col =>
          Some (Error ("Linha " ++ show i ++ ": coluna '" ++ col
                       ++ "' não encontrada"))
      | None => validate_from (i + 1) rest expectedColumns
      end
  end.

Definition validateDataStructure (rows : list Row)
  (expectedColumns : list string) : option Thrown :=
  validate_from 0 rows expectedColumns.

(** [for (const batchError of result.batchErrors) { errors.push(...);
    totalErrors++ }] *)
Definition record_row_errors (batch : list Row) (i : Z)
  (reported : list BatchError) : Loop unit :=
  for_of reported (fun batchError =>
    fr <- gets (fun fr => fr) ;;
    push_error
      (mkBulkError (batches fr - 1)
                   (i + or_else (offset batchError) 0)
                   (Some (str_or (error_message batchError)
                                 "Unknown batch error"))
                   (RowData (at_index batch
                               (or_else (offset batchError) 0)))) ;;;
    add_errors 1).

(** The body of the batch loop, common to [bulkInsert], [bulkUpdate] and
    [bulkDelete] up to the bind row built for each data row. *)
Definition batch_body (rows : list Row) (batchSize : Z)
  (continueOnError autoCommit : bool) (statement : string)
  (bind_row : Row -> Binds) (i : Z) : Loop unit :=
  let batch := slice rows i (i + batchSize) in
  let batchData := map bind_row batch in
  incr_batchCount ;;;
  try_catch
    (r <- conn (ExecuteMany statement batchData continueOnError) ;;
     match batchErrors r with
     | Some (first :: more) => record_row_errors batch i (first :: more)
     | _ => add_success (len batch)
     end ;;;
     if autoCommit then (conn Commit ;;; ret tt) else ret tt)
    (fun error =>
       if continueOnError then
         fr <- gets (fun fr => fr) ;;
         push_error (mkBulkError (batches fr - 1) i
                                 (Some (errorMessage error))
                                 (BatchData batch)) ;;;
         add_errors (len batch)
       else
         fr <- gets (fun fr => fr) ;;
         throw (Error ("Erro no lote " ++ show (batches fr) ++ ": "
                       ++ errorMessage error))).

(** What follows the loop: the final commit, the duration and the
    result object. *)
Definition finish (kind : string) (rows : list Row) (autoCommit : bool)
  (startTime : Z) (fr : Frame) : Res BulkOperationResult * World :=
  let committed :=
    if negb autoCommit && (0 <? totalSuccess fr)
    then send Commit (env fr)
    else (Done (mkDriverResult None None), env fr) in
  match committed with
  | (Raise e, w) => (Throw e, w)
  | (Done _, w) =>
      let (t, w') := now w in
      (Ok (mkResult kind (len rows) (totalSuccess fr) (totalErrors fr)
                    (batches fr) (t - startTime) (errs fr)), w')
  end.

Definition run_batches (fuel : nat) (kind : string) (rows : list Row)
  (batchSize : Z) (continueOnError autoCommit : bool) (statement : string)
  (bind_row : Row -> Binds) (startTime : Z) (w : World)
  : option (Res BulkOperationResult * World) :=
  match for_batches fuel (len rows) batchSize
          (batch_body rows batchSize continueOnError autoCommit statement bind_row)
          0 (mkFrame w 0 0 [] 0) with
  | None => None
  | Some (Throw e, fr) => Some (Throw e, env fr)
  | Some (Ok _, fr) => Some (finish kind rows autoCommit startTime fr)
  end.

Definition bulkInsert (fuel : nat) (self : BulkOperations)
  (tableName : string) (rows : list Row) (options : BulkInsertOptions)
  (w : World) : option (Res BulkOperationResult * World) :=
  let (startTime, w) := now w in
  let batchSize := or_else (opt_batchSize options) (defaultBatchSize self) in
  let continueOnError := or_else (opt_continueOnError options) false in
  let autoCommit := or_else (opt_autoCommit options) true in
  match rows with
  | [] => Some (Throw (Error "Dados para inserção não podem estar vazios"), w)
  | first :: _ =>
      let columns := keys first in
      match validateDataStructure rows columns with
      | Some e => Some (Throw e, w)
      | None =>
          let placeholders := join "," (map (fun _ => "?") columns) in
          let statement :=
            "INSERT INTO " ++ tableName ++ " (" ++ join "," columns
            ++ ") VALUES (" ++ placeholders ++ ")" in
          run_batches fuel "INSERT" rows batchSize continueOnError autoCommit
            statement
            (fun row => ByPosition (map (get row) columns))
            startTime w
      end
  end.

(** [!whereColumns || whereColumns.length === 0] *)
Definition missing (cols : option (list string)) : bool :=
  match cols with
  | Some (_ :: _) => false
  | _ => true
  end.

Definition bulkUpdate (fuel : nat) (self : BulkOperations)
  (tableName : string) (rows : list Row) (options : BulkInsertOptions)
  (w : World) : option (Res BulkOperationResult * World) :=
  let (startTime, w) := now w in
  let batchSize := or_else (opt_batchSize options) (defaultBatchSize self) in
  let continueOnError := or_else (opt_continueOnError options) false in
  let autoCommit := or_else (opt_autoCommit options) true in
  let whereColumns := or_else (opt_whereColumns options) [] in
  if missing (opt_whereColumns options)
  then Some (Throw (Error "whereColumns deve ser especificado para bulk update"), w)
  else
    match rows with
    | [] => Some (Throw (Error "Dados para atualização não podem estar vazios"), w)
    | first :: _ =>
        let allColumns := keys first in
        let setColumns :=
          filter (fun col => negb (arr_includes whereColumns col)) allColumns in
        match setColumns with
        | [] => Some (Throw (Error "Nenhuma coluna para atualizar encontrada"), w)
        | _ :: _ =>
            let setClause := join "," (map (fun col => col ++ " = ?") setColumns) in
            let whereClause :=
              join " AND " (map (fun col => col ++ " = ?") whereColumns) in
            let statement :=
              "UPDATE " ++ tableName ++ " SET " ++ setClause
              ++ " WHERE " ++ whereClause in
            run_batches fuel "UPDATE" rows batchSize continueOnError autoCommit
              statement
              (fun row => ByPosition (map (get row) setColumns
                                      ++ map (get row) whereColumns))
              startTime w
        end
    end.

Definition bulkDelete (fuel : nat) (self : BulkOperations)
  (tableName : string) (rows : list Row) (options : BulkInsertOptions)
  (w : World) : option (Res BulkOperationResult * World) :=
  let (startTime, w) := now w in
  let batchSize := or_else (opt_batchSize options) (defaultBatchSize self) in
  let continueOnError := or_else (opt_continueOnError options) false in
  let autoCommit := or_else (opt_autoCommit options) true in
  let whereColumns := or_else (opt_whereColumns options) [] in
  if missing (opt_whereColumns options)
  then Some (Throw (Error "whereColumns deve ser especificado para bulk delete"), w)
  else
    match rows with
    | [] => Some (Throw (Error "Dados para exclusão não podem estar vazios"), w)
    | _ :: _ =>
        let whereClause :=
          join " AND " (map (fun col => col ++ " = ?") whereColumns) in
        let statement :=
          "DELETE FROM " ++ tableName ++ " WHERE " ++ whereClause in
        run_batches fuel "DELETE" rows batchSize continueOnError autoCommit
          statement
          (fun row => ByPosition (map (get row) whereColumns))
          startTime w
    end.

(** [generateValuesClause]: one parenthesised row of numbered
    placeholders per data row. *)
Definition generateValuesClause (columns : list string) (rowCount : nat)
  : string :=
  let valueRows :=
    map (fun i =>
           "(" ++ join ","
                    (map (fun colIndex =>
                            ":" ++ show (Z.of_nat i * len columns
                                         + Z.of_nat colIndex + 1))
                         (seq 0 (List.length columns)))
               ++ ")")
        (seq 0 rowCount) in
  "SELECT * FROM (VALUES " ++ join "," valueRows ++ ")".

Definition bulkUpsert (self : BulkOperations) (tableName : string)
  (rows : list Row) (keyColumns : option (list string))
  (options : BulkInsertOptions) (w : World)
  : Res BulkOperationResult * World :=
  let (startTime, w) := now w in
  if missing keyColumns
  then (Throw (Error "keyColumns deve ser especificado para upsert"), w)
  else
    let keyColumns := or_else keyColumns [] in
    match rows with
    | [] =>
        (* Object.keys(data[0]) with data[0] undefined *)
        (Throw (ErrorObj TypeError "Cannot convert undefined or null to object"),
         w)
    | first :: _ =>
        let allColumns := keys first in
        let updateColumns :=
          filter (fun col => negb (arr_includes keyColumns col)) allColumns in
        let mergeClause :=
          join " AND "
               (map (fun col => "target." ++ col ++ " = source." ++ col)
                    keyColumns) in
        let insertColumns := join "," allColumns in
        let insertValues :=
          join "," (map (fun col => "source." ++ col) allColumns) in
        let updateClause :=
          join "," (map (fun col => "target." ++ col ++ " = source." ++ col)
                        updateColumns) in
        let statement := "
            MERGE INTO " ++ tableName ++ " target
            USING (" ++ generateValuesClause allColumns (List.length rows)
          ++ ") source (" ++ insertColumns ++ ")
            ON (" ++ mergeClause ++ ")
            WHEN MATCHED THEN
                UPDATE SET " ++ updateClause ++ "
            WHEN NOT MATCHED THEN
                INSERT (" ++ insertColumns ++ ") VALUES (" ++ insertValues ++ ")
        " in
        let flatData := flat_map (fun row => map (get row) allColumns) rows in
        let autoCommit :=
          match opt_autoCommit options with
          | Some false => false
          | _ => true
          end in
        match send (Execute statement (Some (ByPosition flatData))
                            (Some autoCommit)) w with
        | (Done r, w') =>
            let (t, w'') := now w' in
            (Ok (mkResult "UPSERT" (len rows) (or_else (rowsAffected r) 0) 0 1
                          (t - startTime) []), w'')
        | (Raise e, w') =>
            (Throw (Error ("Erro no bulk upsert: " ++ errorMessage e)), w')
        end
    end.

End Node.

(** ** BulkOperations of part_003 *)
Module Lib.

Record BulkOperations : Type := mkBulkOperations {
  defaultBatchSize : Z
}.

(** [new BulkOperations(connection, defaultBatchSize = 1000)] *)
Definition new_BulkOperations (given : option Z) : BulkOperations :=
  mkBulkOperations (or_else given 1000).

Record ServiceResult : Type := mkServiceResult {
  sr_success : bool;
  sr_data : BulkOperationResult;
  sr_message : string
}.

Record Frame : Type := mkFrame {
  env : World;
  successful : Z;
  failed : Z;
  errs : list BulkError;
  batches : Z
}.

Definition Loop (A : Type) : Type := M Frame A.

Definition conn (c : Call) : Loop DriverResult :=
  fun fr =>
    let (reply, w) := send c (env fr) in
    let fr' := mkFrame w (successful fr) (failed fr) (errs fr) (batches fr) in
    match reply with
    | Done r => (Ok r, fr')
    | Raise e => (Throw e, fr')
    end.

Definition push_error (e : BulkError) : Loop unit :=
  modify (fun fr =>
    mkFrame (env fr) (successful fr) (failed fr) (errs fr ++ [e]) (batches fr)).

Definition add_failed (n : Z) : Loop unit :=
  modify (fun fr =>
    mkFrame (env fr) (successful fr) (failed fr + n) (errs fr) (batches fr)).

Definition add_successful (n : Z) : Loop unit :=
  modify (fun fr =>
    mkFrame (env fr) (successful fr + n) (failed fr) (errs fr) (batches fr)).

Definition incr_batchCount : Loop unit :=
  modify (fun fr =>
    mkFrame (env fr) (successful fr) (failed fr) (errs fr) (batches fr + 1)).

(** [(error as Error).message], a plain property read whatever was
    thrown: on [null] and [undefined] it raises a [TypeError]. *)
Definition message_prop (e : Thrown) : Res (option string) :=
  match e with
  | ErrorObj _ m => Ok (Some m)
  | NonError Null =>
      Throw (ErrorObj TypeError
               "Cannot read properties of null (reading 'message')")
  | NonError Undefined =>
      Throw (ErrorObj TypeError
               "Cannot read properties of undefined (reading 'message')")
  | NonError (Other _ m) => Ok m
  end.

(** [for (const err of result.batchErrors) errors.push(...)] *)
Definition record_row_errors (i : Z) (reported : list BatchError) : Loop unit :=
  for_of reported (fun err =>
    fr <- gets (fun fr => fr) ;;
    push_error
      (mkBulkError (batches fr - 1)
                   (i + or_else (offset err) 0)
                   (Some (str_or (error_message err) "Unknown"))
                   NoData)).

(** [for (let idx = 0; idx < batch.length; idx++) errors.push(...)]:
    the entry is built, reading [error.message], before it is pushed. *)
Definition record_batch_failure (batch : list Row) (i : Z) (error : Thrown)
  : Loop unit :=
  for_of (seq 0 (List.length batch)) (fun idx =>
    fr <- gets (fun fr => fr) ;;
    match message_prop error with
    | Ok message =>
        push_error (mkBulkError (batches fr - 1) (i + Z.of_nat idx)
                                message NoData)
    | Throw e => throw e
    end).

Definition batch_body (rows : list Row) (batchSize : Z)
  (continueOnError autoCommit : bool) (statement : string)
  (columns : list string) (i : Z) : Loop unit :=
  incr_batchCount ;;;
  let batch := slice rows i (i + batchSize) in
  let binds :=
    map (fun row => ByName (map (fun col => (col, get row col)) columns))
        batch in
  try_catch
    (r <- conn (ExecuteMany statement binds continueOnError) ;;
     match batchErrors r with
     | Some (first :: more) =>
         record_row_errors i (first :: more) ;;;
         add_failed (len (first :: more)) ;;;
         add_successful (len batch - len (first :: more))
     | _ => add_successful (len batch)
     end ;;;
     if autoCommit then (conn Commit ;;; ret tt) else ret tt)
    (fun error =>
       add_failed (len batch) ;;;
       if negb continueOnError then throw error
       else record_batch_failure batch i error).

(** [!options.autoCommit]: the option as given, not its default. *)
Definition not_given_or_false (o : option bool) : bool :=
  match o with
  | Some true => false
  | _ => true
  end.

Definition finish (rows : list Row) (options : BulkInsertOptions)
  (start : Z) (fr : Frame) : Res ServiceResult * World :=
  let committed :=
    if not_given_or_false (opt_autoCommit options) && (0 <? successful fr)
    then send Commit (env fr)
    else (Done (mkDriverResult None None), env fr) in
  match committed with
  | (Raise e, w) => (Throw e, w)
  | (Done _, w) =>
      let (t, w') := now w in
      let duration := t - start in
      (Ok (mkServiceResult
             (failed fr =? 0)
             (mkResult "INSERT" (len rows) (successful fr) (failed fr)
                       (batches fr) duration (errs fr))
             ("Bulk insert completed: " ++ show (successful fr)
              ++ " succeeded, " ++ show (failed fr) ++ " failed in "
              ++ show duration ++ "ms")),
       w')
  end.

Definition bulkInsert (fuel : nat) (self : BulkOperations)
  (tableName : string) (rows : list Row) (options : BulkInsertOptions)
  (w : World) : option (Res ServiceResult * World) :=
  let batchSize := or_else (opt_batchSize options) (defaultBatchSize self) in
  let continueOnError := or_else (opt_continueOnError options) false in
  let autoCommit := or_else (opt_autoCommit options) true in
  let (start, w) := now w in
  let columns := keys (or_else (at_index rows 0) []) in
  let placeholders := join ", " (map (fun c => ":" ++ c) columns) in
  let statement :=
    "INSERT INTO " ++ tableName ++ " (" ++ join ", " columns
    ++ ") VALUES (" ++ placeholders ++ ")" in
  match for_batches fuel (len rows) batchSize
          (batch_body rows batchSize continueOnError autoCommit statement columns)
          0 (mkFrame w 0 0 [] 0) with
  | None => None
  | Some (Throw e, fr) => Some (Throw e, env fr)
  | Some (Ok _, fr) => Some (finish rows options start fr)
  end.

(** In part_003 the bodies of [bulkUpdate], [bulkDelete] and
    [bulkUpsert] are the text of [bulkInsert], statement and operation
    tag included. *)
Definition bulkUpdate := bulkInsert.
Definition bulkDelete := bulkInsert.
Definition bulkUpsert := bulkInsert.

End Lib.

(** ** Concrete worlds for the scenarios *)

Definition fine : Reply := Done (mkDriverResult None None).

(** A connection that answers its calls from a script, and [fine] once
    the script is used up. *)
Definition scripted (script : list Reply) : nat -> Reply :=
  fun n => nth n script fine.

Definition world_of (script : list Reply) : World :=
  mkWorld (scripted script) [] (fun n => 1000 * Z.of_nat n) 0.

(** A reply of [executeMany] reporting the rows at [offsets] as failed. *)
Definition row_errors (offsets : list Z) : Reply :=
  Done (mkDriverResult None
          (Some (map (fun k => mkBatchError (Some k) (Some "ORA-00001: unique constraint violated"))
                     offsets))).

Definition three_rows : list Row :=
  [ [("a", VNum 1)]; [("a", VNum 2)]; [("a", VNum 3)] ].

Definition scenario_options : BulkInsertOptions :=
  mkBulkOptions (Some 2) (Some true) None None.

Definition default_options : BulkInsertOptions :=
  mkBulkOptions None None None None.

Definition syntax_error : Thrown :=
  Error "ORA-00900: invalid SQL statement".

Definition deadlock : Thrown :=
  Error "ORA-00060: deadlock detected while waiting for resource".

(** A callback that raises the deadlock error at every run. *)
Definition always_deadlock : Operation unit := throw deadlock.

(** A manager on a connection that answers every call, before and
    after [beginTransaction], and with the savepoints sp1 and sp2. *)
Definition idle_manager : TransactionManager :=
  new_TransactionManager (world_of []) no_options.

Definition begun : TransactionManager := snd (beginTransaction idle_manager).

Definition with_two_savepoints : TransactionManager :=
  snd ((createSavepoint "sp1" None ;;; createSavepoint "sp2" None) begun).

(** ** Vocabulary of the statements *)

(** The driver answers every call without raising. *)
Definition never_raises (w : World) : Prop :=
  forall k, exists r, driver w k = Done r.

(** No answer of the driver carries a non-empty [batchErrors] list. *)
Definition no_row_errors (w : World) : Prop :=
  forall k r, driver w k = Done r ->
              batchErrors r = None \/ batchErrors r = Some [].

(** The bind arrays of the [executeMany] calls of a log, in order. *)
Fixpoint many_binds (log : list Call) : list (list Binds) :=
  match log with
  | [] => []
  | ExecuteMany _ b _ :: rest => b :: many_binds rest
  | _ :: rest => many_binds rest
  end.

(** [ceil(n / b)] for a positive [b] *)
Definition ceil_div (n b : Z) : Z := (n + b - 1) / b.

(** [slices] cuts [rows] into consecutive pieces of [size], the last
    one possibly shorter and none empty. *)
Record Partition (size : Z) (rows : list Row) (slices : list (list Row))
  : Prop := mkPartition {
  part_concat : List.concat slices = rows;
  part_sizes : forall s, In s slices -> 0 < len s <= size;
  part_full : forall k s, nth_error slices k = Some s ->
                          (S k < List.length slices)%nat -> len s = size
}.

(** The two outcomes of one bulk call on the two implementations agree:
    both raise, or both return with the same counts. *)
Definition same_counts (r : BulkOperationResult) (s : Lib.ServiceResult)
  : Prop :=
  successfulRows r = successfulRows (Lib.sr_data s) /\
  failedRows r = failedRows (Lib.sr_data s) /\
  batchCount r = batchCount (Lib.sr_data s).

Definition outcomes_agree
  (n : option (Res BulkOperationResult * World))
  (l : option (Res Lib.ServiceResult * World)) : Prop :=
  match n, l with
  | Some (Ok r, _), Some (Ok s, _) => same_counts r s
  | Some (Throw _, _), Some (Throw _, _) => True
  | None, None => True
  | _, _ => False
  end.

(** A method keeps the state invariant, whatever its outcome. *)
Definition Preserves {A : Type} (m : TM A) : Prop :=
  forall tm, Invariant tm -> Invariant (snd (m tm)).

(** The two implementations at the same point of the same run: the
    same driver and clock, as many calls sent and clock readings made. *)
Record SameRun (w1 w2 : World) : Prop := mkSameRun {
  run_driver : driver w1 = driver w2;
  run_calls : List.length (calls w1) = List.length (calls w2);
  run_clock : clock w1 = clock w2;
  run_ticks : ticks w1 = ticks w2
}.

Record SameCounts (n : Node.Frame) (l : Lib.Frame) : Prop := mkSameCounts {
  same_run : SameRun (Node.env n) (Lib.env l);
  same_success : Node.totalSuccess n = Lib.successful l;
  same_errors : Node.totalErrors n = Lib.failed l;
  same_batches : Node.batches n = Lib.batches l
}.

(** Recording error entries touches neither the connection nor the
    counters of batches and successes. *)
Definition Node_quiet (a b : Node.Frame) : Prop :=
  Node.env b = Node.env a /\ Node.batches b = Node.batches a
  /\ Node.totalSuccess b = Node.totalSuccess a.

Definition Lib_quiet (a b : Lib.Frame) : Prop :=
  Lib.env b = Lib.env a /\ Lib.batches b = Lib.batches a
  /\ Lib.successful b = Lib.successful a /\ Lib.failed b = Lib.failed a.

(** Where part_003 goes on, OracleDatabase.node.ts goes on with the
    same counts. *)
Definition step_agrees (n : Res unit * Node.Frame) (l : Res unit * Lib.Frame)
  : Prop :=
  match l, n with
  | (Ok _, fl), (Ok _, fn) => SameCounts fn fl
  | (Ok _, _), (Throw _, _) => False
  | (Throw _, _), _ => True
  end.

Definition loops_agree (n : option (Res unit * Node.Frame))
  (l : option (Res unit * Lib.Frame)) : Prop :=
  match l, n with
  | Some (Ok u, fl), Some x => step_agrees x (Ok u, fl)
  | Some (Ok _, _), None => False
  | Some (Throw _, _), _ => True
  | None, _ => True
  end.

(** ** Presets of TransactionManagerFactory (part_002) *)
Module TransactionManagerFactory.

Definition createOLTPManager (connection : World) : TransactionManager :=
  new_TransactionManager connection
    (mkOptions (Some READ_COMMITTED) (Some 30) (Some true) (Some 3) (Some 500)).

Definition createBatchManager (connection : World) : TransactionManager :=
  new_TransactionManager connection
    (mkOptions (Some READ_COMMITTED) (Some 1800) (Some true) (Some 5)
               (Some 2000)).

Definition createAnalyticsManager (connection : World) : TransactionManager :=
  new_TransactionManager connection
    (mkOptions (Some READ_ONLY) (Some 3600) (Some false) (Some 1) (Some 0)).

Definition createCriticalManager (connection : World) : TransactionManager :=
  new_TransactionManager connection
    (mkOptions (Some SERIALIZABLE) (Some 120) (Some true) (Some 5) (Some 1500)).

End TransactionManagerFactory.

(** ** Further vocabulary *)

(** What a computation does to its state, whatever its outcome. *)
Definition Effect {S A : Type} (R : S -> S -> Prop) (m : M S A) : Prop :=
  forall s, R s (snd (m s)).

(** The transaction fields of a manager are those of a fresh one. *)
Record Idle (tm : TransactionManager) : Prop := mkIdle {
  idle_inactive : isTransactionActive tm = false;
  idle_savepoints : savepoints tm = [];
  idle_start : transactionStartTime tm = None;
  idle_retries : retryCount tm = 0
}.

(** The answer the driver gives to the [k]-th call from now on. *)
Definition next_reply (w : World) (k : nat) : Reply :=
  driver w (List.length (calls w) + k).

Definition is_Execute (c : Call) : bool :=
  match c with
  | Execute _ _ _ => true
  | _ => false
  end.

Definition is_Rollback (c : Call) : bool :=
  match c with
  | Rollback => true
  | _ => false
  end.

Definition is_Commit (c : Call) : bool :=
  match c with
  | Commit => true
  | _ => false
  end.

(** The calls of [w'] are those of [w] followed by calls that all
    satisfy [p]; driver and clock are the same. *)
Definition sends_only (p : Call -> bool) (w w' : World) : Prop :=
  exists added,
    calls w' = (calls w ++ added)%list /\ forallb p added = true
    /\ driver w' = driver w.

(** An outcome that ends the retry loop: a value, or an error that is
    not retryable. *)
Definition settles {T : Type} (outcome : Res T) : bool :=
  match outcome with
  | Ok _ => true
  | Throw e => negb (isRetryableError e)
  end.

(** A callback that raises [err k] on its run number [k] (counting the
    runs before it) as long as fewer than [stop] runs were made, then
    ends with [final]; it leaves the manager alone. *)
Definition flaky {T : Type} (stop : nat) (err : nat -> Thrown)
  (final : Res T) : Operation T :=
  fun tm =>
    if (invoked tm <? stop)%nat
    then (Throw (err (invoked tm)), tm)
    else (final, tm).

(** The statement [executeBatch] sends for an operation. *)
Definition statement_of (operation : BatchOperation) : Call :=
  Execute (sql operation) (Some (or_else (binds operation) (ByName [])))
          (Some false).

(** The name [executeBatch] reports for the operation at index [i]. *)
Definition reported_name (i : Z) (operation : BatchOperation) : string :=
  match op_name operation with
  | Some n => if (n =? "")%string then "operation_" ++ show (i + 1) else n
  | None => "operation_" ++ show (i + 1)
  end.

(** The manager, or a bulk method, sends only calls that satisfy [p]. *)
Definition tm_sends (p : Call -> bool) (a b : TransactionManager) : Prop :=
  sends_only p (world a) (world b).

Definition node_sends (p : Call -> bool) (a b : Node.Frame) : Prop :=
  sends_only p (Node.env a) (Node.env b).

Definition lib_sends (p : Call -> bool) (a b : Lib.Frame) : Prop :=
  sends_only p (Lib.env a) (Lib.env b).

Definition is_statement (c : Call) : bool :=
  match c with
  | Rollback => false
  | _ => true
  end.

(** Two statements for [executeBatch], the second one unnamed. *)
Definition two_operations : list BatchOperation :=
  [ mkBatchOperation "UPDATE t SET a = 1" None (Some "first")
  ; mkBatchOperation "UPDATE t SET a = 2" None None ].

(** [begun] on a connection that answers from [script]. *)
Definition begun_on (script : list Reply) : TransactionManager :=
  snd (beginTransaction (new_TransactionManager (world_of script) no_options)).

(** How many calls of a log satisfy [p]. *)
Definition count_calls (p : Call -> bool) (log : list Call) : Z :=
  len (filter p log).

(** Every row carries every column of [columns], as a property of its
    own or as an inherited one ([col in row]). *)
Definition rectangular (rows : list Row) (columns : list string) : Prop :=
  forall row, In row rows -> forall col, In col columns ->
    has_key col row = true.

(** Rows for the scenarios: the second one lacks column [b]. *)
Definition ragged_rows : list Row :=
  [ [("a", VNum 1); ("b", VNum 2)]; [("a", VNum 3)] ].

(** A bulk call on [rows] with batch size [size] went through without
    any failure: what it returned and how many commits it sent. *)
Definition all_succeeded (rows : list Row) (size : Z) (autoCommit : bool)
  (w : World) (out : option (Res BulkOperationResult * World)) : Prop :=
  exists r w',
    out = Some (Ok r, w')
    /\ totalRows r = len rows
    /\ successfulRows r = len rows
    /\ failedRows r = 0
    /\ errors r = []
    /\ batchCount r = ceil_div (len rows) size
    /\ count_calls is_Commit (calls w')
       = count_calls is_Commit (calls w)
         + (if autoCommit then batchCount r else 1).

(** [executeMany] and [commit]: the calls of a batched bulk method. *)
Definition is_batch_call (c : Call) : bool :=
  match c with
  | ExecuteMany _ _ _ | Commit => true
  | _ => false
  end.

Definition is_ExecuteMany (c : Call) : bool :=
  match c with
  | ExecuteMany _ _ _ => true
  | _ => false
  end.





(** A method that started in [w] ended in [w'] raising the very error
    the driver raised for the last call sent. *)
Definition raised_by_last_call (w w' : World) (e : Thrown) : Prop :=
  exists added,
    calls w' = (calls w ++ added)%list /\ added <> []
    /\ driver w (pred (List.length (calls w'))) = Raise e.

Definition Lib_sent (w : World) (fr : Lib.Frame) : Prop :=
  exists added,
    calls (Lib.env fr) = (calls w ++ added)%list
    /\ driver (Lib.env fr) = driver w.

(** A method that started in [w] ended in [w'] raising what reading
    the [message] of the error of the last call sent raised. *)
Definition raised_reading_message (w w' : World) (e : Thrown) : Prop :=
  exists cause,
    raised_by_last_call w w' cause /\ Lib.message_prop cause = Throw e.

(** [[{constructor: 1}, {a: 2}]]: the second row has no column of its
    own named [constructor], and inherits one. *)
Definition inheriting_rows : list Row :=
  [ [("constructor", VNum 1)]; [("a", VNum 2)] ].

(** * Properties *)

Open Scope list_scope.

(** ** Error classification *)

Lemma includes_empty (code : string) :
  code <> "" -> includes "" code = false.
Proof.
  destruct code as [|c rest]; [congruence|reflexivity].
Qed.

Lemma isRetryableError_ErrorObj (cls : ErrorClass) (m : string) :
  isRetryableError (ErrorObj cls m) = negb (m =? "")%string.
Proof.
  unfold isRetryableError, some; simpl.
  destruct (m =? "")%string; reflexivity.
Qed.

Lemma isRetryableError_NonError (v : Foreign) :
  isRetryableError (NonError v) = false.
Proof. reflexivity. Qed.

(** C2. The classifier does not confine the retryable class to the four
    conflict codes: the syntax error ORA-00900, whose message carries
    none of them, is classified RETRYABLE by [isRetryableError], where
    the specification's classifier answers FATAL. *)
Theorem syntax_error_classified_retryable :
  existsb (includes (message_of syntax_error)) retryableErrors = false /\
  isRetryableError syntax_error = true /\
  classify syntax_error = RETRYABLE /\
  classify_spec syntax_error = FATAL.
Proof. repeat split; reflexivity. Qed.

(** Every [Error] with a non-empty message is retryable for the code. *)
Lemma classify_any_message (cls : ErrorClass) (m : string) :
  m <> "" -> classify (ErrorObj cls m) = RETRYABLE.
Proof.
  intros Hm. unfold classify. rewrite isRetryableError_ErrorObj.
  destruct (String.eqb_spec m ""); [contradiction|reflexivity].
Qed.

(** ** The transaction manager keeps its invariant *)

Lemma Invariant_frame (tm tm' : TransactionManager) :
  savepoints tm' = savepoints tm ->
  isTransactionActive tm' = isTransactionActive tm ->
  transactionStartTime tm' = transactionStartTime tm ->
  Invariant tm -> Invariant tm'.
Proof.
  intros Hs Ha Ht [U P I1 I2].
  constructor; unfold names in *; rewrite ?Hs, ?Ha, ?Ht; assumption.
Qed.

Lemma Invariant_idle (tm : TransactionManager) :
  savepoints tm = [] -> transactionStartTime tm = None -> Invariant tm.
Proof.
  intros Hs Ht. constructor; unfold names; rewrite ?Hs; simpl; auto using NoDup_nil.
Qed.

Lemma Invariant_active (tm tm' : TransactionManager) :
  savepoints tm' = savepoints tm -> isTransactionActive tm' = true ->
  Invariant tm -> Invariant tm'.
Proof.
  intros Hs Ha [U P _ _].
  constructor; unfold names in *; rewrite ?Hs; try assumption; congruence.
Qed.

Lemma Preserves_ret {A} (a : A) : Preserves (ret a).
Proof. intros tm H; exact H. Qed.

Lemma Preserves_throw {A} (e : Thrown) : Preserves (@throw _ A e).
Proof. intros tm H; exact H. Qed.

Lemma Preserves_gets {A} (f : TransactionManager -> A) : Preserves (gets f).
Proof. intros tm H; exact H. Qed.

Lemma Preserves_bind {A B} (m : TM A) (k : A -> TM B) :
  Preserves m -> (forall a, Preserves (k a)) -> Preserves (bind m k).
Proof.
  intros Hm Hk tm H. unfold bind. specialize (Hm tm H).
  destruct (m tm) as [[a|e] tm1]; simpl in *; [apply Hk|]; assumption.
Qed.

Lemma Preserves_try_catch {A} (m : TM A) (h : Thrown -> TM A) :
  Preserves m -> (forall e, Preserves (h e)) -> Preserves (try_catch m h).
Proof.
  intros Hm Hh tm H. unfold try_catch. specialize (Hm tm H).
  destruct (m tm) as [[a|e] tm1]; simpl in *; [|apply Hh]; assumption.
Qed.

Lemma Preserves_call (c : Call) : Preserves (call c).
Proof.
  intros tm H. unfold call, send.
  destruct (driver (world tm) _); simpl; apply (Invariant_frame tm); auto.
Qed.

Lemma Preserves_Date_now : Preserves Date_now.
Proof. intros tm H. unfold Date_now; simpl. apply (Invariant_frame tm); auto. Qed.

Lemma Preserves_cleanupTransaction : Preserves cleanupTransaction.
Proof. intros tm _. apply Invariant_idle; reflexivity. Qed.

Create HintDb preserves.
#[local] Hint Resolve Preserves_ret Preserves_throw Preserves_gets
  Preserves_call Preserves_Date_now Preserves_cleanupTransaction : preserves.

Ltac preserves :=
  repeat match goal with
    | |- Preserves _ => solve [auto with preserves]
    | |- Preserves (bind _ _) => apply Preserves_bind; [|intros ?]
    | |- Preserves (try_catch _ _) => apply Preserves_try_catch; [|intros ?]
    | |- Preserves (if ?b then _ else _) => destruct b
    | |- Preserves (match ?x with _ => _ end) => destruct x
    end.

Lemma Preserves_rollback : Preserves rollback.
Proof. unfold rollback. preserves. Qed.

Lemma Preserves_commit : Preserves commit.
Proof. unfold commit. preserves. apply Preserves_rollback. Qed.

Lemma Preserves_beginTransaction : Preserves beginTransaction.
Proof.
  unfold beginTransaction, setIsolationLevel, setTransactionTimeout. preserves.
  all: intros tm H; simpl; apply (Invariant_active tm); auto.
Qed.

Lemma valid_name_pattern (n : string) :
  isValidSavepointName n = savepoint_pattern n.
Proof.
  destruct n as [|c rest]; [reflexivity|].
  unfold isValidSavepointName, savepoint_pattern, regex_test.
  reflexivity.
Qed.

Lemma existsb_named_In (n : string) (sps : list SavepointInfo) :
  existsb (named n) sps = true <-> In n (map name sps).
Proof.
  rewrite existsb_exists, in_map_iff. unfold named.
  split; intros [sp H]; exists sp.
  - destruct H as [Hin Heq]. apply String.eqb_eq in Heq. auto.
  - destruct H as [Heq Hin]. split; [assumption|]. now apply String.eqb_eq.
Qed.

Lemma NoDup_snoc {A} (l : list A) (x : A) :
  NoDup l -> ~ In x l -> NoDup (l ++ [x]).
Proof.
  intros Hl Hx. induction Hl as [|y l Hy Hl IH]; simpl.
  - constructor; [intros []|constructor].
  - constructor.
    + rewrite in_app_iff. simpl. intros [H|[H|[]]]; [auto|].
      subst. apply Hx. now left.
    + apply IH. intros H. apply Hx. now right.
Qed.

Lemma Preserves_createSavepoint n d : Preserves (createSavepoint n d).
Proof.
  intros tm H. unfold createSavepoint, bind, gets, throw, try_catch, modify.
  destruct (isTransactionActive tm) eqn:Ha; simpl; [|exact H].
  destruct (isValidSavepointName n) eqn:Hv; simpl; [|exact H].
  destruct (existsb (named n) (savepoints tm)) eqn:Hex; simpl; [exact H|].
  unfold call, send. destruct (driver (world tm) _); simpl.
  - destruct H as [U P _ _]. constructor; unfold names in *; simpl.
    + rewrite map_app. simpl. apply NoDup_snoc; [assumption|].
      rewrite <- existsb_named_In. congruence.
    + rewrite map_app. apply Forall_app. split; [assumption|].
      constructor; [|constructor]. simpl. now rewrite <- valid_name_pattern.
    + congruence.
    + congruence.
  - apply (Invariant_frame tm); auto.
Qed.

Lemma slice_prefix {A} (l : list A) (k : Z) :
  0 <= k -> slice l 0 k = firstn (Z.to_nat k) l.
Proof.
  intros Hk. unfold slice, clamp_index. cbv zeta.
  replace (0 <? 0) with false by reflexivity.
  destruct (k <? 0) eqn:E; [lia|].
  rewrite (Z.min_l 0) by lia. rewrite Z.sub_0_r. simpl skipn.
  destruct (Z.min_spec k (Z.of_nat (List.length l))) as [[Hlt ->]|[Hge ->]].
  - reflexivity.
  - rewrite Nat2Z.id. rewrite firstn_all. rewrite firstn_all2; [reflexivity|lia].
Qed.

Lemma findIndex_range {A} (p : A -> bool) (l : list A) :
  -1 <= findIndex p l < Z.of_nat (List.length l).
Proof.
  induction l as [|x l IH]; simpl; [lia|].
  destruct (p x); [lia|]. destruct (findIndex p l <? 0) eqn:E; lia.
Qed.

Lemma NoDup_firstn {A} (k : nat) (l : list A) : NoDup l -> NoDup (firstn k l).
Proof.
  intros H. rewrite <- (firstn_skipn k l) in H. now apply NoDup_app_remove_r in H.
Qed.

Lemma Forall_firstn' {A} (P : A -> Prop) (k : nat) (l : list A) :
  Forall P l -> Forall P (firstn k l).
Proof.
  intros H. rewrite <- (firstn_skipn k l) in H. now apply Forall_app in H.
Qed.

Lemma In_firstn_In {A} (k : nat) (l : list A) (x : A) :
  In x (firstn k l) -> In x l.
Proof.
  intros H. rewrite <- (firstn_skipn k l). apply in_or_app. now left.
Qed.

Lemma In_skipn_In {A} (k : nat) (l : list A) (x : A) :
  In x (skipn k l) -> In x l.
Proof.
  intros H. rewrite <- (firstn_skipn k l). apply in_or_app. now right.
Qed.

Lemma NoDup_splice1 {A} (l : list A) (i : Z) : NoDup l -> NoDup (splice1 l i).
Proof.
  unfold splice1. generalize (Z.to_nat i) as k. intros k H. revert k.
  induction H as [|x l Hx Hl IH]; intros [|k]; simpl; try constructor; auto.
  intros Hin. apply Hx. apply in_app_iff in Hin. destruct Hin as [Hin|Hin].
  - eapply In_firstn_In; eauto.
  - apply (In_skipn_In (S k)). exact Hin.
Qed.

Lemma Forall_splice1 {A} (P : A -> Prop) (l : list A) (i : Z) :
  Forall P l -> Forall P (splice1 l i).
Proof.
  intros H. unfold splice1. rewrite Forall_forall in *. intros x Hin.
  apply H. apply in_app_iff in Hin. destruct Hin as [Hin|Hin].
  - eapply In_firstn_In; eauto.
  - eapply In_skipn_In; eauto.
Qed.

Lemma map_splice1 {A B} (f : A -> B) (l : list A) (i : Z) :
  map f (splice1 l i) = splice1 (map f l) i.
Proof.
  unfold splice1. now rewrite map_app, firstn_map, skipn_map.
Qed.

Lemma Preserves_rollbackToSavepoint n : Preserves (rollbackToSavepoint n).
Proof.
  intros tm H. unfold rollbackToSavepoint, bind, gets, throw, try_catch, modify.
  destruct (isTransactionActive tm) eqn:Ha; simpl; [|exact H].
  destruct (existsb (named n) (savepoints tm)) eqn:Hex; simpl; [|exact H].
  unfold call, send. destruct (driver (world tm) _); simpl.
  - destruct H as [U P _ _]. 
    pose proof (findIndex_range (named n) (savepoints tm)) as Hr.
    constructor; unfold names in *; simpl; try congruence;
      rewrite slice_prefix by lia; rewrite <- firstn_map.
    + now apply NoDup_firstn.
    + now apply Forall_firstn'.
  - apply (Invariant_frame tm); auto.
Qed.

Lemma Preserves_releaseSavepoint n : Preserves (releaseSavepoint n).
Proof.
  intros tm H. unfold releaseSavepoint, bind, gets, throw, try_catch, modify.
  destruct (isTransactionActive tm) eqn:Ha; simpl; [|exact H].
  destruct (findIndex (named n) (savepoints tm) =? -1); simpl; [exact H|].
  destruct H as [U P _ _].
  constructor; unfold names in *; simpl; try congruence; rewrite map_splice1.
  - now apply NoDup_splice1.
  - now apply Forall_splice1.
Qed.

#[local] Hint Resolve Preserves_createSavepoint Preserves_rollbackToSavepoint
  Preserves_releaseSavepoint Preserves_commit Preserves_rollback
  Preserves_beginTransaction : preserves.

Lemma Preserves_batch_step p s i op rs : Preserves (batch_step p s i op rs).
Proof. unfold batch_step. preserves. Qed.

Lemma Preserves_batch_loop p s ops : forall i rs, Preserves (batch_loop p s i ops rs).
Proof.
  induction ops as [|op rest IH]; intros i rs; simpl.
  - auto with preserves.
  - apply Preserves_bind; [apply Preserves_batch_step|intros; apply IH].
Qed.

Lemma Preserves_executeBatch ops bo : Preserves (executeBatch ops bo).
Proof.
  unfold executeBatch. preserves. apply Preserves_batch_loop.
Qed.

(** executeWithRetry *)

Lemma Invariant_set_retryCount tm n : Invariant tm -> Invariant (set_retryCount tm n).
Proof. intros H. apply (Invariant_frame tm); auto. Qed.

Lemma Invariant_set_invoked tm n : Invariant tm -> Invariant (set_invoked tm n).
Proof. intros H. apply (Invariant_frame tm); auto. Qed.

Section Retry.
Context {T : Type} (operation : Operation T).
Hypothesis keeps_invariant : Preserves operation.
Hypothesis keeps_options : forall s, options (snd (operation s)) = options s.

Lemma retry_loop_total (fuel : nat) :
  forall attempt lastError tm,
    (Z.to_nat (maxRetries_or_3 tm - attempt + 1) <= fuel)%nat ->
    Invariant tm ->
    exists out, retry_loop fuel operation attempt lastError tm = Some out
                /\ Invariant (snd out).
Proof.
  induction fuel as [|fuel IH]; intros attempt lastError tm Hfuel Hinv;
    simpl; destruct (attempt <=? maxRetries_or_3 tm) eqn:Hle.
  - apply Z.leb_le in Hle. lia.
  - destruct lastError as [e|]; [destruct (instanceof_Error e)|]; eauto.
  - apply Z.leb_le in Hle. unfold invoke.
    pose proof (keeps_invariant tm Hinv) as Hinv1.
    pose proof (keeps_options tm) as Hopt.
    destruct (operation tm) as [[v|error] tm1]; simpl in *.
    + eexists; split; [reflexivity|]. now apply Invariant_set_invoked.
    + destruct (isRetryableError error); simpl.
      * assert (Hmax : maxRetries_or_3 (set_invoked tm1 (S (invoked tm1)))
                       = maxRetries_or_3 tm)
          by (unfold maxRetries_or_3; simpl; now rewrite Hopt).
        rewrite Hmax.
        destruct (attempt <? maxRetries_or_3 tm); apply IH;
          try (unfold maxRetries_or_3 in *; simpl; rewrite Hopt; lia);
          auto using Invariant_set_retryCount, Invariant_set_invoked.
      * eexists; split; [reflexivity|]. now apply Invariant_set_invoked.
  - destruct lastError as [e|]; [destruct (instanceof_Error e)|]; eauto.
Qed.

Lemma executeWithRetry_total (label : string) (tm : TransactionManager) :
  Invariant tm ->
  exists out, executeWithRetry operation label tm = Some out
              /\ Invariant (snd out).
Proof.
  intros Hinv. unfold executeWithRetry. apply retry_loop_total; [lia|assumption].
Qed.
End Retry.

Lemma deadlock_retryable (cls : ErrorClass) (m : string) :
  includes m "ORA-00060" = true -> isRetryableError (ErrorObj cls m) = true.
Proof.
  intros H. rewrite isRetryableError_ErrorObj.
  destruct m; [discriminate H|reflexivity].
Qed.

Lemma retry_loop_exit {T : Type} (fuel : nat) (operation : Operation T)
  (attempt : Z) (e : Thrown) (tm : TransactionManager) :
  maxRetries_or_3 tm < attempt -> instanceof_Error e = true ->
  retry_loop fuel operation attempt (Some e) tm = Some (Throw e, tm).
Proof.
  intros Hgt He. apply Z.leb_gt in Hgt.
  destruct fuel; simpl; rewrite Hgt, He; reflexivity.
Qed.

Lemma retry_loop_step {T : Type} (fuel : nat) (operation : Operation T)
  (attempt : Z) (lastError : option Thrown) (tm s' : TransactionManager)
  (e : Thrown) :
  operation tm = (Throw e, s') -> isRetryableError e = true ->
  options s' = options tm -> attempt <= maxRetries_or_3 tm ->
  retry_loop (S fuel) operation attempt lastError tm
  = retry_loop fuel operation (attempt + 1) (Some e)
      (if attempt <? maxRetries_or_3 tm
       then set_retryCount (set_invoked s' (S (invoked s')))
                           (retryCount s' + 1)
       else set_invoked s' (S (invoked s'))).
Proof.
  intros Hop He Hopt Hle. apply Z.leb_le in Hle.
  simpl. rewrite Hle. unfold invoke. rewrite Hop, He. simpl.
  replace (maxRetries_or_3 (set_invoked s' (S (invoked s'))))
    with (maxRetries_or_3 tm)
    by (unfold maxRetries_or_3; simpl; now rewrite Hopt).
  destruct (attempt <? maxRetries_or_3 tm); reflexivity.
Qed.

Section Exhaust.
Context {T : Type} (operation : Operation T) (err : nat -> Thrown).
Hypothesis err_deadlock :
  forall k, exists cls m,
    err k = ErrorObj cls m /\ includes m "ORA-00060" = true.
Hypothesis always_raises :
  forall s, exists s',
    operation s = (Throw (err (invoked s)), s') /\ options s' = options s
    /\ retryCount s' = retryCount s /\ invoked s' = invoked s.

Lemma err_retryable (k : nat) : isRetryableError (err k) = true.
Proof.
  destruct (err_deadlock k) as (cls & m & -> & Hm).
  now apply deadlock_retryable.
Qed.

Lemma err_is_Error (k : nat) : instanceof_Error (err k) = true.
Proof. destruct (err_deadlock k) as (cls & m & -> & _). reflexivity. Qed.

(** From attempt number [attempt] on, with [n] further attempts after
    this one allowed. *)
Lemma retry_loop_exhausts (n : nat) :
  forall fuel attempt lastError tm,
    Z.of_nat n = maxRetries_or_3 tm - attempt ->
    (n < fuel)%nat ->
    exists tm',
      retry_loop fuel operation attempt lastError tm
        = Some (Throw (err (invoked tm + n)%nat), tm')
      /\ invoked tm' = (invoked tm + n + 1)%nat
      /\ retryCount tm' = retryCount tm + Z.of_nat n.
Proof.
  induction n as [|n IH]; intros fuel attempt lastError tm Hn Hfuel;
    (destruct fuel as [|fuel]; [lia|]);
    destruct (always_raises tm) as (s' & Hop & Hopt & Hrc & Hinv);
    rewrite (retry_loop_step _ _ _ _ _ _ _ Hop (err_retryable _) Hopt)
      by lia.
  - replace (attempt <? maxRetries_or_3 tm) with false
      by (symmetry; apply Z.ltb_ge; lia).
    rewrite retry_loop_exit.
    + eexists. split; [now rewrite Nat.add_0_r|]. simpl. split; lia.
    + unfold maxRetries_or_3 in *. simpl. rewrite Hopt. lia.
    + apply err_is_Error.
  - replace (attempt <? maxRetries_or_3 tm) with true
      by (symmetry; apply Z.ltb_lt; lia).
    edestruct (IH fuel (attempt + 1) (Some (err (invoked tm)))) as (tm' & E & Hi & Hr);
      [| |rewrite E].
    + unfold maxRetries_or_3 in *. simpl. rewrite Hopt. lia.
    + lia.
    + simpl. rewrite Hinv. eexists. split.
      * repeat f_equal. lia.
      * simpl in Hi, Hr. split; lia.
Qed.
End Exhaust.

(** C5. With [maxRetries = 3] and a callback that raises a deadlock
    error (an [Error] whose message carries ORA-00060) at every run,
    [executeWithRetry] runs the callback exactly three times, raises
    the error of the third run itself, and has incremented [retryCount]
    twice: once after each of the first two attempts, not after the
    last.  [err k] is the error of the run that follows [k] earlier
    runs; the callback leaves the options and the counters alone. *)
Theorem executeWithRetry_deadlock {T : Type} (operation : Operation T)
  (err : nat -> Thrown) (tm : TransactionManager) :
  maxRetries (options tm) = Some 3 ->
  (forall k, exists cls m,
      err k = ErrorObj cls m /\ includes m "ORA-00060" = true) ->
  (forall s, exists s',
      operation s = (Throw (err (invoked s)), s') /\ options s' = options s
      /\ retryCount s' = retryCount s /\ invoked s' = invoked s) ->
  exists tm',
    executeWithRetry operation "x" tm
      = Some (Throw (err (invoked tm + 2)%nat), tm')
    /\ invoked tm' = (invoked tm + 3)%nat
    /\ retryCount tm' = retryCount tm + 2.
Proof.
  intros Hmax Herr Hop.
  assert (H3 : maxRetries_or_3 tm = 3)
    by (unfold maxRetries_or_3; now rewrite Hmax).
  unfold executeWithRetry. rewrite H3.
  destruct (retry_loop_exhausts operation err Herr Hop 2 (Z.to_nat 3) 1 None tm)
    as (tm' & E & Hi & Hr); [lia|simpl; lia|].
  exists tm'. rewrite E. repeat split; lia.
Qed.

(** rollbackToSavepoint *)

Lemma findIndex_split {A} (p : A -> bool) (l : list A) :
  existsb p l = true ->
  exists pre x post,
    l = pre ++ x :: post /\ p x = true /\ existsb p pre = false
    /\ findIndex p l = len pre.
Proof.
  induction l as [|y l IH]; simpl; [discriminate|].
  destruct (p y) eqn:Hy; simpl.
  - intros _. exists [], y, l. auto.
  - intros H. destruct (IH H) as (pre & x & post & -> & Hx & Hpre & Hidx).
    exists (y :: pre), x, post. simpl. rewrite Hy, Hpre, Hidx. simpl.
    repeat split; auto. unfold len.
    destruct (Z.of_nat (List.length pre) <? 0) eqn:E;
      [apply Z.ltb_lt in E; lia|].
    simpl List.length. lia.
Qed.

Lemma firstn_through {A} (pre post : list A) (x : A) :
  firstn (Z.to_nat (len pre + 1)) (pre ++ x :: post) = pre ++ [x].
Proof.
  unfold len. replace (Z.to_nat (Z.of_nat (List.length pre) + 1))
    with (List.length pre + 1)%nat by lia.
  rewrite firstn_app_2. reflexivity.
Qed.

Lemma rollbackToSavepoint_prefix (tm : TransactionManager) (n : string) :
  isTransactionActive tm = true ->
  NoDup (names tm) ->
  In n (names tm) ->
  (exists r, driver (world tm) (List.length (calls (world tm))) = Done r) ->
  exists tm' pre sp post,
    rollbackToSavepoint n tm = (Ok tt, tm')
    /\ savepoints tm = pre ++ sp :: post
    /\ name sp = n
    /\ ~ In n (map name pre) /\ ~ In n (map name post)
    /\ savepoints tm' = pre ++ [sp].
Proof.
  intros Ha Hnd Hin [r Hr]. unfold names in *.
  apply existsb_named_In in Hin.
  destruct (findIndex_split _ _ Hin) as (pre & sp & post & Hl & Hsp & Hpre & Hidx).
  unfold rollbackToSavepoint, bind, gets, throw, try_catch, modify, call, send.
  rewrite Ha. simpl. rewrite Hin. simpl. rewrite Hr. simpl.
  eexists; exists pre, sp, post. split; [reflexivity|]. simpl.
  apply String.eqb_eq in Hsp.
  rewrite Hl in Hnd. rewrite map_app in Hnd. simpl in Hnd.
  pose proof (NoDup_remove_2 _ _ _ Hnd) as Hnot. rewrite in_app_iff in Hnot.
  rewrite Hsp in Hnot.
  repeat split; auto.
  rewrite Hidx. rewrite slice_prefix by (unfold len; lia).
  rewrite Hl. apply firstn_through.
Qed.

(** Success paths of begin and createSavepoint on a driver that never raises. *)
Lemma beginTransaction_ok (tm : TransactionManager) :
  isTransactionActive tm = false -> never_raises (world tm) ->
  exists tm',
    beginTransaction tm = (Ok tt, tm')
    /\ isTransactionActive tm' = true /\ savepoints tm' = savepoints tm
    /\ retryCount tm' = 0
    /\ driver (world tm') = driver (world tm).
Proof.
  intros Ha Hd.
  cbv [beginTransaction bind gets throw try_catch modify
       setIsolationLevel setTransactionTimeout call send ret Date_now now].
  rewrite Ha.
  destruct (isolation (options tm)) as [[| |]|];
    try (destruct (Hd (List.length (calls (world tm)))) as [r ->]);
    simpl; destruct (timeout (options tm)) as [t|];
    try destruct (t =? 0); simpl; eexists; repeat split.
Qed.

Lemma createSavepoint_ok (n : string) (d : option string)
  (tm : TransactionManager) :
  isTransactionActive tm = true -> isValidSavepointName n = true ->
  ~ In n (names tm) -> never_raises (world tm) ->
  exists tm' t,
    createSavepoint n d tm = (Ok tt, tm')
    /\ isTransactionActive tm' = true
    /\ savepoints tm' = savepoints tm ++ [mkSavepoint n t d]
    /\ driver (world tm') = driver (world tm).
Proof.
  intros Ha Hv Hn Hd.
  unfold createSavepoint, bind, gets, throw, try_catch, modify, call, send,
    Date_now, now.
  rewrite Ha, Hv. simpl.
  destruct (existsb (named n) (savepoints tm)) eqn:Hex.
  { apply existsb_named_In in Hex. contradiction. }
  destruct (Hd (List.length (calls (world tm)))) as [r ->]. simpl.
  eexists; eexists; repeat split; simpl; auto.
Qed.

Lemma scenario_sp1 (w : World) (given : TransactionOptions) :
  never_raises w ->
  exists tm',
    (beginTransaction ;;; createSavepoint "sp1" None ;;;
     createSavepoint "sp2" None ;;; rollbackToSavepoint "sp1")%monad
      (new_TransactionManager w given) = (Ok tt, tm')
    /\ names tm' = ["sp1"].
Proof.
  intros Hd. unfold bind at 1.
  destruct (beginTransaction_ok (new_TransactionManager w given))
    as (t0 & E0 & A0 & S0 & _ & D0); [reflexivity|exact Hd|].
  rewrite E0. unfold bind at 1.
  destruct (createSavepoint_ok "sp1" None t0) as (t1 & c1 & E1 & A1 & S1 & D1);
    [assumption|reflexivity|unfold names; rewrite S0; simpl; tauto
    |unfold never_raises; rewrite D0; exact Hd|].
  rewrite E1. unfold bind at 1.
  destruct (createSavepoint_ok "sp2" None t1) as (t2 & c2 & E2 & A2 & S2 & D2);
    [assumption|reflexivity| |unfold never_raises; rewrite D1, D0; exact Hd|].
  { unfold names. rewrite S1, S0. simpl. intros [H|[]]. discriminate H. }
  rewrite E2.
  rewrite S1, S0 in S2. simpl in S2.
  destruct (rollbackToSavepoint_prefix t2 "sp1")
    as (t3 & pre & sp & post & E3 & Hl & Hname & Hpre & Hpost & S3).
  - assumption.
  - unfold names. rewrite S2. simpl.
    repeat constructor; simpl; intuition discriminate.
  - unfold names. rewrite S2. simpl. auto.
  - rewrite D2, D1, D0. apply Hd.
  - exists t3. split; [exact E3|]. unfold names. rewrite S3.
    rewrite S2 in Hl. destruct pre as [|p pre]; simpl in Hl.
    + injection Hl as <- _. reflexivity.
    + injection Hl as <- _. exfalso. apply Hpre. simpl. now left.
Qed.

(** commit *)

Lemma commit_idle (tm : TransactionManager) :
  isTransactionActive tm = false ->
  commit tm = (Throw (Error "Nenhuma transação ativa para commit"), tm).
Proof.
  intros Ha. unfold commit, bind, gets, throw. now rewrite Ha.
Qed.

Lemma commit_ok_idle (tm tm' : TransactionManager) (u : unit) :
  commit tm = (Ok u, tm') -> isTransactionActive tm' = false.
Proof.
  unfold commit, bind, gets, throw, try_catch, cleanupTransaction, modify,
    call, send.
  destruct (isTransactionActive tm); simpl; [|discriminate].
  destruct (driver (world tm) _); simpl.
  - intros [= _ <-]. reflexivity.
  - destruct (autoRollbackOnError (options tm)) as [[|]|]; simpl;
      try discriminate.
    destruct (rollback _) as [[?|?] ?]; discriminate.
Qed.

Lemma executeWithRetry_deadlock_witness :
  exists tm',
    executeWithRetry always_deadlock "x" begun = Some (Throw deadlock, tm')
    /\ invoked tm' = 3%nat /\ retryCount tm' = 2.
Proof.
  destruct (executeWithRetry_deadlock always_deadlock (fun _ => deadlock) begun)
    as (tm' & E & Hi & Hr).
  - reflexivity.
  - intros _. exists PlainError. eexists. split; reflexivity.
  - intros s. exists s. repeat split.
  - exists tm'. repeat split; assumption.
Defined.

(** C4. On an active transaction whose savepoint names are pairwise
    distinct, [rollbackToSavepoint n] for a name [n] in the sequence,
    when the connection executes the statement, leaves exactly the
    savepoints up to and including the one named [n]; begin,
    createSavepoint sp1, createSavepoint sp2, rollbackToSavepoint sp1
    on a connection that answers every call leaves [sp1] alone. *)
Theorem rollbackToSavepoint_keeps_prefix :
  (forall tm n,
      isTransactionActive tm = true ->
      NoDup (names tm) ->
      In n (names tm) ->
      (exists r, driver (world tm) (List.length (calls (world tm))) = Done r) ->
      exists tm' pre sp post,
        rollbackToSavepoint n tm = (Ok tt, tm')
        /\ savepoints tm = pre ++ sp :: post
        /\ name sp = n
        /\ ~ In n (map name pre) /\ ~ In n (map name post)
        /\ savepoints tm' = pre ++ [sp])
  /\ (forall w given,
        never_raises w ->
        exists tm',
          (beginTransaction ;;; createSavepoint "sp1" None ;;;
           createSavepoint "sp2" None ;;; rollbackToSavepoint "sp1")%monad
            (new_TransactionManager w given) = (Ok tt, tm')
          /\ names tm' = ["sp1"]).
Proof.
  split.
  - intros tm n. apply rollbackToSavepoint_prefix.
  - intros w given. apply scenario_sp1.
Qed.

Lemma rollbackToSavepoint_keeps_prefix_witness :
  exists tm' pre sp post,
    rollbackToSavepoint "sp1" with_two_savepoints = (Ok tt, tm')
    /\ savepoints with_two_savepoints = pre ++ sp :: post
    /\ name sp = "sp1"
    /\ ~ In "sp1" (map name pre) /\ ~ In "sp1" (map name post)
    /\ savepoints tm' = pre ++ [sp].
Proof.
  apply (proj1 rollbackToSavepoint_keeps_prefix).
  - reflexivity.
  - repeat constructor; simpl; intuition discriminate.
  - simpl. left. reflexivity.
  - eexists. reflexivity.
Defined.

(** C8. [commit] on a manager whose transaction is not active raises
    the not-active error and leaves the manager and the connection as
    they were; after a [commit] that succeeded the transaction is not
    active, so a second [commit] raises that error and sends nothing. *)
Theorem second_commit_rejected :
  (forall tm,
      isTransactionActive tm = false ->
      commit tm = (Throw (Error "Nenhuma transação ativa para commit"), tm))
  /\ (forall tm tm' u,
        commit tm = (Ok u, tm') ->
        commit tm' = (Throw (Error "Nenhuma transação ativa para commit"), tm')
        /\ calls (world (snd (commit tm'))) = calls (world tm')).
Proof.
  split.
  - apply commit_idle.
  - intros tm tm' u H. apply commit_ok_idle in H.
    rewrite (commit_idle _ H). split; reflexivity.
Qed.

Lemma second_commit_rejected_witness :
  commit begun = (Ok tt, snd (commit begun))
  /\ commit (snd (commit begun))
     = (Throw (Error "Nenhuma transação ativa para commit"), snd (commit begun))
  /\ calls (world (snd (commit (snd (commit begun)))))
     = calls (world (snd (commit begun))).
Proof.
  split; [reflexivity|].
  apply (proj2 second_commit_rejected begun _ tt). reflexivity.
Defined.

(** C6. The state invariant (savepoint names pairwise distinct and
    matching the pattern; an inactive manager has no savepoints and no
    start time) holds for a new manager and is kept by every public
    method, whether it returns or raises.  For [executeWithRetry] the
    callback is any computation that keeps the invariant and the
    options; the method then ends and keeps the invariant. *)
Theorem invariant_preserved :
  (forall w given, Invariant (new_TransactionManager w given))
  /\ Preserves beginTransaction
  /\ (forall n d, Preserves (createSavepoint n d))
  /\ (forall n, Preserves (rollbackToSavepoint n))
  /\ (forall n, Preserves (releaseSavepoint n))
  /\ Preserves commit
  /\ Preserves rollback
  /\ (forall (T : Type) (operation : Operation T) label tm,
        Preserves operation ->
        (forall s, options (snd (operation s)) = options s) ->
        Invariant tm ->
        exists out, executeWithRetry operation label tm = Some out
                    /\ Invariant (snd out))
  /\ (forall operations batchOptions,
        Preserves (executeBatch operations batchOptions)).
Proof.
  split; [intros w given; now apply Invariant_idle|].
  split; [apply Preserves_beginTransaction|].
  split; [apply Preserves_createSavepoint|].
  split; [apply Preserves_rollbackToSavepoint|].
  split; [apply Preserves_releaseSavepoint|].
  split; [apply Preserves_commit|].
  split; [apply Preserves_rollback|].
  split.
  - intros T operation label tm Hinv Hopt Htm.
    now apply executeWithRetry_total.
  - apply Preserves_executeBatch.
Qed.

Lemma invariant_preserved_witness :
  Invariant with_two_savepoints
  /\ Invariant (snd (rollbackToSavepoint "sp1" with_two_savepoints))
  /\ Invariant (snd (commit with_two_savepoints)).
Proof.
  assert (H : Invariant with_two_savepoints).
  { constructor; simpl; try discriminate.
    - repeat constructor; simpl; intuition discriminate.
    - repeat constructor. }
  split; [exact H|]. split.
  - apply (proj1 (proj2 (proj2 (proj2 invariant_preserved)))). exact H.
  - apply (proj1 (proj2 (proj2 (proj2 (proj2 (proj2 invariant_preserved)))))).
    exact H.
Defined.

(** ** Batching *)

Lemma many_binds_app (l1 l2 : list Call) :
  many_binds (l1 ++ l2) = many_binds l1 ++ many_binds l2.
Proof.
  induction l1 as [|c l1 IH]; simpl; [reflexivity|].
  destruct c; simpl; now rewrite IH.
Qed.

Lemma slice_batch {A} (l : list A) (i b : Z) :
  0 <= i -> 0 < b ->
  slice l i (i + b) = firstn (Z.to_nat b) (skipn (Z.to_nat i) l).
Proof.
  intros Hi Hb. unfold slice, clamp_index. cbv zeta.
  destruct (i <? 0) eqn:E1; [apply Z.ltb_lt in E1; lia|].
  destruct (i + b <? 0) eqn:E2; [apply Z.ltb_lt in E2; lia|].
  set (n := Z.of_nat (List.length l)).
  destruct (Z.le_gt_cases n i) as [Hle|Hgt].
  - rewrite (Z.min_r i), (Z.min_r (i + b)) by lia.
    rewrite Z.sub_diag. simpl firstn.
    rewrite (skipn_all2 l (n:=Z.to_nat i)) by lia. now rewrite firstn_nil.
  - rewrite (Z.min_l i) by lia.
    destruct (Z.le_gt_cases (i + b) n) as [Hle2|Hgt2].
    + rewrite Z.min_l by lia. f_equal. lia.
    + rewrite Z.min_r by lia.
      rewrite firstn_all2 by (rewrite length_skipn; lia).
      rewrite firstn_all2 by (rewrite length_skipn; lia). reflexivity.
Qed.

Section Batches.
Context {S : Type} (rows : list Row) (size : Z) (body : Z -> M S unit).
Context (sent : S -> list (list Binds)) (count : S -> Z).
Context (bind_row : Row -> Binds).
Hypothesis size_pos : 0 < size.
Hypothesis body_effect :
  forall i s r s', body i s = (r, s') ->
    sent s' = sent s ++ [map bind_row (slice rows i (i + size))]
    /\ count s' = count s + 1.

Lemma for_batches_total (fuel : nat) :
  forall i s, 0 <= i -> (Z.to_nat (len rows - i) <= fuel)%nat ->
    exists out, for_batches fuel (len rows) size body i s = Some out.
Proof.
  induction fuel as [|fuel IH]; intros i s Hi Hfuel; simpl;
    destruct (i <? len rows) eqn:E; eauto.
  - apply Z.ltb_lt in E. exfalso. lia.
  - apply Z.ltb_lt in E. destruct (body i s) as [[u|e] s']; eauto.
    apply IH; lia.
Qed.

Lemma no_batches (i : Z) (s : S) :
  len rows <= i < len rows + size ->
  exists slices,
    Partition size (skipn (Z.to_nat i) rows) slices
    /\ len slices = ceil_div (len rows - i) size
    /\ count s = count s + len slices
    /\ sent s = sent s ++ map (map bind_row) slices.
Proof.
  intros Hi. exists []. split; [constructor|split; [|split]].
  - simpl. symmetry. apply skipn_all2. unfold len in *. lia.
  - intros x [].
  - intros k x Hk. destruct k; discriminate Hk.
  - unfold ceil_div. symmetry. apply Z.div_small. lia.
  - unfold len. simpl. lia.
  - simpl. now rewrite app_nil_r.
Qed.

Lemma for_batches_partition (fuel : nat) :
  forall i s s',
    0 <= i < len rows + size ->
    for_batches fuel (len rows) size body i s = Some (Ok tt, s') ->
    exists slices,
      Partition size (skipn (Z.to_nat i) rows) slices
      /\ len slices = ceil_div (len rows - i) size
      /\ count s' = count s + len slices
      /\ sent s' = sent s ++ map (map bind_row) slices.
Proof.
  induction fuel as [|fuel IH]; intros i s s' Hi; simpl;
    destruct (i <? len rows) eqn:E; try discriminate.
  - intros Heq. inversion Heq; subst. apply Z.ltb_ge in E. apply no_batches. lia.
  - apply Z.ltb_lt in E.
    destruct (body i s) as [[[]|e] s1] eqn:Hb; [|discriminate].
    destruct (body_effect _ _ _ _ Hb) as [Hsent Hcount].
    intros Hloop. apply IH in Hloop; [|lia].
    destruct Hloop as (rest & [Hc Hs Hf] & Hlen & Hcnt & Hlog).
    set (batch := firstn (Z.to_nat size) (skipn (Z.to_nat i) rows)).
    assert (Hbatch : slice rows i (i + size) = batch)
      by (apply slice_batch; lia).
    assert (Hblen : len batch = Z.min size (len rows - i)).
    { unfold batch. unfold len in *. rewrite length_firstn, length_skipn. lia. }
    assert (Hcd : ceil_div (len rows - i) size
                  = ceil_div (len rows - (i + size)) size + 1).
    { unfold ceil_div.
      replace (len rows - i + size - 1)
        with (len rows - (i + size) + size - 1 + 1 * size) by lia.
      rewrite Z.div_add by lia. reflexivity. }
    exists (batch :: rest). split; [constructor|split; [|split]].
    + simpl. rewrite Hc. unfold batch.
      replace (Z.to_nat (i + size)) with (Z.to_nat size + Z.to_nat i)%nat by lia.
      rewrite <- skipn_skipn. apply firstn_skipn.
    + intros x [<-|Hin]; [lia|]. now apply Hs.
    + intros k x Hk Hlt. destruct k as [|k]; simpl in *.
      * injection Hk as <-. rewrite Hblen.
        assert (0 < len rest) by (unfold len; lia).
        rewrite Hlen in H.
        assert (size <= len rows - i); [|lia].
        destruct (Z.le_gt_cases size (len rows - i)); [assumption|].
        unfold ceil_div in H. rewrite Z.div_small in H; lia.
      * apply (Hf k); [assumption|lia].
    + rewrite Hcd, <- Hlen. unfold len. simpl List.length. lia.
    + rewrite Hcnt, Hcount. unfold len. simpl List.length. lia.
    + rewrite Hlog, Hsent, Hbatch. simpl. now rewrite <- app_assoc.
  - intros Heq. inversion Heq; subst. apply Z.ltb_ge in E. apply no_batches. lia.
Qed.
End Batches.

Lemma for_of_keeps {S A : Type} (R : S -> S -> Prop) (arr : list A)
  (body : A -> M S unit) :
  (forall s, R s s) ->
  (forall a b c, R a b -> R b c -> R a c) ->
  (forall x s, exists s', body x s = (Ok tt, s') /\ R s s') ->
  forall s, exists s', for_of arr body s = (Ok tt, s') /\ R s s'.
Proof.
  intros Hrefl Htrans Hbody.
  induction arr as [|x rest IH]; intros s; simpl.
  - exists s. split; [reflexivity|apply Hrefl].
  - unfold bind. destruct (Hbody x s) as (s1 & -> & H1).
    destruct (IH s1) as (s2 & -> & H2). exists s2. eauto.
Qed.

Lemma Node_record_row_errors (batch : list Row) (i : Z)
  (reported : list BatchError) (fr : Node.Frame) :
  exists fr',
    Node.record_row_errors batch i reported fr = (Ok tt, fr')
    /\ Node_quiet fr fr'.
Proof.
  unfold Node.record_row_errors. apply for_of_keeps.
  - intros s. repeat split.
  - intros a b c (? & ? & ?) (? & ? & ?). repeat split; congruence.
  - intros x s. eexists. split; [reflexivity|]. repeat split.
Qed.

Ltac split_cases :=
  repeat match goal with
    | |- context [if ?b then _ else _] => destruct b
    | |- context [match driver ?w ?n with _ => _ end] => destruct (driver w n)
    end.

Lemma Node_batch_body_effect (rows : list Row) (batchSize : Z)
  (continueOnError autoCommit : bool) (statement : string)
  (bind_row : Row -> Binds) (i : Z) (fr : Node.Frame) (r : Res unit)
  (fr' : Node.Frame) :
  Node.batch_body rows batchSize continueOnError autoCommit statement
                  bind_row i fr = (r, fr') ->
  many_binds (calls (Node.env fr'))
  = many_binds (calls (Node.env fr))
    ++ [map bind_row (slice rows i (i + batchSize))]
  /\ Node.batches fr' = Node.batches fr + 1.
Proof.
  cbv [Node.batch_body Node.incr_batchCount Node.conn Node.add_success
       Node.add_errors Node.push_error bind try_catch modify gets throw ret
       send].
  cbn [Node.env Node.totalSuccess Node.totalErrors Node.errs Node.batches
       driver calls clock ticks].
  destruct (driver (Node.env fr) _) as [res|e].
  - destruct (batchErrors res) as [[|first more]|].
    2: { match goal with |- context [Node.record_row_errors ?b ?k ?l ?x] =>
           destruct (Node_record_row_errors b k l x) as (f1 & E & He & Hb & _);
           rewrite E end.
         simpl in He, Hb.
         split_cases; intros H; inversion H; subst; clear H; simpl;
           rewrite He, Hb; simpl; rewrite ?many_binds_app; simpl;
           rewrite ?app_nil_r; auto. }
    all: split_cases; intros H; inversion H; subst; clear H; simpl;
      rewrite ?many_binds_app; simpl; rewrite ?app_nil_r; auto.
  - split_cases; intros H; inversion H; subst; clear H; simpl;
      rewrite ?many_binds_app; simpl; rewrite ?app_nil_r; auto.
Qed.

Lemma Node_finish_Ok (kind : string) (rows : list Row) (autoCommit : bool)
  (startTime : Z) (fr : Node.Frame) (r : BulkOperationResult) (w : World) :
  Node.finish kind rows autoCommit startTime fr = (Ok r, w) ->
  batchCount r = Node.batches fr
  /\ many_binds (calls w) = many_binds (calls (Node.env fr)).
Proof.
  unfold Node.finish, send, now.
  destruct (negb autoCommit && (0 <? Node.totalSuccess fr)).
  - destruct (driver (Node.env fr) _); [|discriminate].
    intros [= <- <-]. simpl. rewrite many_binds_app. simpl.
    now rewrite app_nil_r.
  - intros [= <- <-]. simpl. auto.
Qed.

Lemma Node_run_batches_partition (fuel : nat) (kind : string)
  (rows : list Row) (batchSize : Z) (continueOnError autoCommit : bool)
  (statement : string) (bind_row : Row -> Binds) (startTime : Z) (w : World) :
  0 < batchSize -> 0 < len rows -> (List.length rows <= fuel)%nat ->
  exists out,
    Node.run_batches fuel kind rows batchSize continueOnError autoCommit
                     statement bind_row startTime w = Some out
    /\ forall r w', out = (Ok r, w') ->
         exists slices,
           Partition batchSize rows slices
           /\ len slices = ceil_div (len rows) batchSize
           /\ batchCount r = len slices
           /\ many_binds (calls w')
              = many_binds (calls w) ++ map (map bind_row) slices.
Proof.
  intros Hb Hn Hfuel. unfold Node.run_batches.
  set (body := Node.batch_body rows batchSize continueOnError autoCommit
                               statement bind_row).
  set (fr0 := Node.mkFrame w 0 0 [] 0).
  destruct (for_batches_total rows batchSize body Hb fuel 0 fr0) as [out0 Hout0];
    [lia|unfold len; lia|].
  rewrite Hout0. destruct out0 as [[[]|e] fr].
  - eexists. split; [reflexivity|]. intros r w' Hfin.
    apply Node_finish_Ok in Hfin. destruct Hfin as [Hcount Hlog].
    destruct (for_batches_partition rows batchSize body
                (fun fr => many_binds (calls (Node.env fr))) Node.batches
                bind_row Hb
                (fun i s r s' => Node_batch_body_effect rows batchSize
                                   continueOnError autoCommit statement
                                   bind_row i s r s')
                fuel 0 fr0 fr)
      as (slices & Hpart & Hlen & Hcnt & Hsent); [lia|exact Hout0|].
    exists slices. simpl in *. rewrite Z.sub_0_r in Hlen.
    repeat split; try assumption; try apply Hpart; try lia; congruence.
  - eexists. split; [reflexivity|]. discriminate.
Qed.

Lemma Lib_for_of_push {A : Type} (arr : list A)
  (entry : Lib.Frame -> A -> BulkError) :
  forall fr, exists fr',
    for_of arr (fun x => f <- gets (fun fr => fr) ;; Lib.push_error (entry f x))
           fr = (Ok tt, fr')
    /\ Lib_quiet fr fr'
    /\ len (Lib.errs fr') = len (Lib.errs fr) + len arr.
Proof.
  induction arr as [|x rest IH]; intros fr; simpl.
  - exists fr. repeat split. unfold len. simpl. lia.
  - cbv [bind gets Lib.push_error modify].
    match goal with |- context [for_of rest ?b ?f] =>
      destruct (IH f) as (fr' & E & (Q1 & Q2 & Q3 & Q4) & L) end.
    cbv [bind gets Lib.push_error modify] in E. rewrite E.
    exists fr'. simpl in *. repeat split; try assumption.
    rewrite L. unfold len. rewrite length_app. simpl. lia.
Qed.

(** What [record_batch_failure] does: with a readable [message] it adds
    one entry per row of the batch; on [null] and [undefined] it raises
    at the first row, and does nothing for an empty batch. *)
Lemma Lib_record_batch_failure (batch : list Row) (i : Z) (e : Thrown)
  (fr : Lib.Frame) :
  exists r fr',
    Lib.record_batch_failure batch i e fr = (r, fr') /\ Lib_quiet fr fr'
    /\ match r with
       | Ok _ => len (Lib.errs fr') = len (Lib.errs fr) + len batch
       | Throw t => Lib.message_prop e = Throw t /\ batch <> []
       end
    /\ (nullish e = false -> r = Ok tt).
Proof.
  unfold Lib.record_batch_failure.
  destruct (Lib.message_prop e) as [m|t] eqn:E.
  - destruct (Lib_for_of_push (seq 0 (List.length batch))
                (fun f idx =>
                   mkBulkError (Lib.batches f - 1) (i + Z.of_nat idx) m NoData)
                fr) as (fr' & Efor & Hq & Hlen).
    exists (Ok tt), fr'. split; [exact Efor|]. split; [exact Hq|].
    split; [|reflexivity].
    rewrite Hlen. unfold len. rewrite length_seq. reflexivity.
  - assert (Hnull : nullish e = true)
      by (destruct e as [cls m|[| |text m]]; try discriminate; reflexivity).
    destruct batch as [|row rest].
    + exists (Ok tt), fr. simpl. repeat split. unfold len. simpl. lia.
    + exists (Throw t), fr. simpl. repeat split; try discriminate.
      rewrite Hnull. discriminate.
Qed.

Ltac solve_same_counts :=
  try (constructor; [constructor|..]); try constructor; simpl;
  rewrite ?length_app; simpl; try congruence; try lia.

Ltac close_step :=
  simpl;
  lazymatch goal with
  | |- context [Lib.record_batch_failure ?b ?k ?e ?x] =>
      let r1 := fresh "r" in
      let t1 := fresh "t" in
      let f1 := fresh "f" in
      let E := fresh "E" in
      let Hq1 := fresh "Hq" in
      let Hq2 := fresh "Hq" in
      let Hq3 := fresh "Hq" in
      let Hq4 := fresh "Hq" in
      destruct (Lib_record_batch_failure b k e x)
        as (r1 & f1 & E & (Hq1 & Hq2 & Hq3 & Hq4) & _ & _);
      rewrite E; simpl in Hq1, Hq2, Hq3, Hq4;
      destruct r1 as [[]|t1]; simpl;
      (split; [|simpl; rewrite ?Hq1; reflexivity]);
      try exact I;
      try (constructor; [constructor|..]); try constructor; simpl;
      rewrite ?Hq1, ?Hq2, ?Hq3, ?Hq4; solve_same_counts
  | |- _ => split; [|reflexivity]; solve_same_counts
  end.

Lemma batch_body_agrees (rows : list Row) (batchSize : Z)
  (continueOnError autoCommit : bool) (sn sl : string)
  (bind_row : Row -> Binds) (columns : list string) (i : Z)
  (fn : Node.Frame) (fl : Lib.Frame) :
  SameCounts fn fl -> no_row_errors (Lib.env fl) ->
  step_agrees
    (Node.batch_body rows batchSize continueOnError autoCommit sn bind_row i fn)
    (Lib.batch_body rows batchSize continueOnError autoCommit sl columns i fl)
  /\ driver (Lib.env (snd (Lib.batch_body rows batchSize continueOnError
                             autoCommit sl columns i fl)))
     = driver (Lib.env fl).
Proof.
  intros [[Hd Hc Hk Ht] Hs He Hb] Hquiet.
  cbv [Node.batch_body Node.incr_batchCount Node.conn Node.add_success
       Node.add_errors Node.push_error
       Lib.batch_body Lib.incr_batchCount Lib.conn Lib.add_successful
       Lib.add_failed Lib.push_error
       bind try_catch modify gets throw ret send].
  cbn [Node.env Node.totalSuccess Node.totalErrors Node.errs Node.batches
       Lib.env Lib.successful Lib.failed Lib.errs Lib.batches
       driver calls clock ticks].
  rewrite Hd, Hc.
  destruct (driver (Lib.env fl) (List.length (calls (Lib.env fl))))
    as [res|e] eqn:Hreply.
  - assert (Hnone : batchErrors res = None \/ batchErrors res = Some [])
      by (eapply Hquiet; eauto).
    assert (Hlen : forall a b : Call,
               List.length (calls (Node.env fn) ++ [a])
               = List.length (calls (Lib.env fl) ++ [b]))
      by (intros; rewrite !length_app; simpl; lia).
    destruct Hnone as [-> | ->]; simpl;
      (destruct autoCommit; simpl;
       [ rewrite (Hlen _ (ExecuteMany sl
                            (map (fun row =>
                                    ByName (map (fun col => (col, get row col))
                                                columns))
                                 (slice rows i (i + batchSize)))
                            continueOnError));
         destruct (driver (Lib.env fl) (List.length (_ ++ _))) as [res2|e2];
         [ | destruct continueOnError ]
       | ]); close_step.
  - destruct continueOnError; close_step.
Qed.

Lemma Lib_record_row_errors (i : Z) (reported : list BatchError)
  (fr : Lib.Frame) :
  exists fr',
    Lib.record_row_errors i reported fr = (Ok tt, fr') /\ Lib_quiet fr fr'.
Proof.
  unfold Lib.record_row_errors. apply for_of_keeps.
  - intros s. repeat split.
  - intros a b c (? & ? & ? & ?) (? & ? & ? & ?). repeat split; congruence.
  - intros x s. eexists. split; [reflexivity|]. repeat split.
Qed.

Lemma for_batches_agree (rows : list Row) (batchSize : Z)
  (continueOnError autoCommit : bool) (sn sl : string)
  (bind_row : Row -> Binds) (columns : list string) (fuel : nat) :
  forall i fn fl,
    SameCounts fn fl -> no_row_errors (Lib.env fl) ->
    loops_agree
      (for_batches fuel (len rows) batchSize
         (Node.batch_body rows batchSize continueOnError autoCommit sn bind_row)
         i fn)
      (for_batches fuel (len rows) batchSize
         (Lib.batch_body rows batchSize continueOnError autoCommit sl columns)
         i fl).
Proof.
  induction fuel as [|fuel IH]; intros i fn fl Hsame Hquiet; simpl;
    destruct (i <? len rows); simpl; try exact I; try exact Hsame.
  destruct (batch_body_agrees rows batchSize continueOnError autoCommit
              sn sl bind_row columns i fn fl Hsame Hquiet) as [Hstep Hdrv].
  destruct (Node.batch_body _ _ _ _ _ _ _ _) as [[[]|en] fn'];
    destruct (Lib.batch_body _ _ _ _ _ _ _ _) as [[[]|el] fl'];
    simpl in Hstep, Hdrv; try contradiction; try exact I.
  apply IH; [assumption|]. unfold no_row_errors. rewrite Hdrv. exact Hquiet.
Qed.

Lemma finish_agrees (kind : string) (rows : list Row)
  (options : BulkInsertOptions) (startTime : Z)
  (fn : Node.Frame) (fl : Lib.Frame) (sr : Lib.ServiceResult) (w2 : World) :
  SameCounts fn fl ->
  Lib.finish rows options startTime fl = (Ok sr, w2) ->
  exists r w1,
    Node.finish kind rows (or_else (opt_autoCommit options) true) startTime fn
      = (Ok r, w1)
    /\ same_counts r sr.
Proof.
  intros [[Hd Hc Hk Ht] Hs He Hb].
  unfold Lib.finish, Node.finish, send, now, same_counts.
  rewrite Hs, Hd, Hc.
  destruct (opt_autoCommit options) as [[|]|]; simpl.
  - intros [= <- _]. do 2 eexists. split; [reflexivity|]. simpl. auto.
  - destruct (0 <? Lib.successful fl); simpl.
    + destruct (driver (Lib.env fl) _); [|discriminate].
      intros [= <- _]. do 2 eexists. split; [reflexivity|]. simpl. auto.
    + intros [= <- _]. do 2 eexists. split; [reflexivity|]. simpl. auto.
  - destruct (0 <? Lib.successful fl); simpl.
    + destruct (driver (Lib.env fl) _); [|discriminate].
      intros [= <- _]. do 2 eexists. split; [reflexivity|]. simpl. auto.
    + intros [= <- _]. do 2 eexists. split; [reflexivity|]. simpl. auto.
Qed.

(** C9, amended. On a non-empty [rows] whose rows all carry the columns
    of the first, with the same default batch size and options, and a
    driver none of whose answers carries a non-empty [batchErrors]
    list: whenever [bulkInsert] of part_003 returns a result,
    [bulkInsert] of OracleDatabase.node.ts returns one too, with the
    same [successfulRows], [failedRows] and [batchCount]. *)
Theorem bulkInsert_same_counts (fuel : nat) (size : Z) (tableName : string)
  (rows : list Row) (options : BulkInsertOptions) (w : World)
  (sr : Lib.ServiceResult) (w2 : World) :
  rows <> [] ->
  Node.validateDataStructure rows (keys (hd [] rows)) = None ->
  no_row_errors w ->
  Lib.bulkInsert fuel (Lib.mkBulkOperations size) tableName rows options w
    = Some (Ok sr, w2) ->
  exists r w1,
    Node.bulkInsert fuel (Node.mkBulkOperations size) tableName rows options w
      = Some (Ok r, w1)
    /\ same_counts r sr.
Proof.
  intros Hne Hvalid Hquiet.
  destruct rows as [|first rest]; [contradiction|].
  unfold Lib.bulkInsert, Node.bulkInsert, Node.run_batches, now.
  simpl hd in Hvalid. rewrite Hvalid.
  cbn [at_index Z.ltb Z.compare Z.to_nat nth_error or_else
       Node.defaultBatchSize Lib.defaultBatchSize].
  match goal with
  | |- match for_batches _ _ _ (Lib.batch_body ?rows ?b ?c ?a ?sl ?cols) _ ?fl
       with _ => _ end = _ ->
       exists _ _,
         match for_batches _ _ _ (Node.batch_body _ _ _ _ ?sn ?br) _ ?fn
         with _ => _ end = _ /\ _ =>
      pose proof (for_batches_agree rows b c a sn sl br cols fuel 0 fn fl)
        as Hloop
  end.
  match type of Hloop with
  | ?P -> ?Q -> _ =>
      assert (Hp : P) by (repeat constructor);
      assert (Hq : Q) by exact Hquiet;
      specialize (Hloop Hp Hq); clear Hp Hq
  end.
  destruct (for_batches _ _ _ (Node.batch_body _ _ _ _ _ _) _ _)
    as [[[[]|en] fn]|];
    destruct (for_batches _ _ _ (Lib.batch_body _ _ _ _ _ _) _ _)
      as [[[[]|el] fl]|];
    simpl in Hloop; try contradiction; try discriminate.
  intros [= Hfin]. eapply finish_agrees in Hfin; [|exact Hloop].
  destruct Hfin as (r & w1 & E & Hsame). exists r, w1. rewrite E. auto.
Qed.

(** ** The scenarios of the specification *)

(** C1. [bulkInsert("T", [{a:1},{a:2},{a:3}], {batchSize:2,
    continueOnError:true})] of OracleDatabase.node.ts, on a connection
    whose first [executeMany] reports the row at offset 1 as failed,
    returns [totalRows = 3], [successfulRows = 1], [failedRows = 1]:
    the rows of a batch with per-row errors that did succeed are not
    counted, and the two counts do not add up to [totalRows]. *)
Theorem node_bulkInsert_loses_successes :
  exists r w',
    Node.bulkInsert 3 (Node.new_BulkOperations None) "T" three_rows
                    scenario_options (world_of [row_errors [1]])
      = Some (Ok r, w')
    /\ totalRows r = 3 /\ successfulRows r = 1 /\ failedRows r = 1
    /\ batchCount r = 2
    /\ successfulRows r + failedRows r <> totalRows r.
Proof.
  remember (Node.bulkInsert _ _ _ _ _ _) as out eqn:E.
  vm_compute in E. subst out.
  do 2 eexists. split; [reflexivity|]. simpl.
  repeat split; discriminate.
Qed.

(** On the same input [bulkInsert] of part_003 counts 2 successes and
    1 failure. *)
Lemma lib_bulkInsert_scenario :
  exists s w',
    Lib.bulkInsert 3 (Lib.new_BulkOperations None) "T" three_rows
                   scenario_options (world_of [row_errors [1]])
      = Some (Ok s, w')
    /\ totalRows (Lib.sr_data s) = 3 /\ successfulRows (Lib.sr_data s) = 2
    /\ failedRows (Lib.sr_data s) = 1 /\ batchCount (Lib.sr_data s) = 2.
Proof.
  remember (Lib.bulkInsert _ _ _ _ _ _) as out eqn:E.
  vm_compute in E. subst out.
  do 2 eexists. split; [reflexivity|]. simpl. repeat split.
Qed.

(** C3, as stated, fails: [bulkInsert] of part_003 does not reject an
    empty [rows]. *)
Lemma lib_accepts_empty_rows :
  ~ (forall fuel self tableName options w,
        exists e w',
          Lib.bulkInsert fuel self tableName [] options w = Some (Throw e, w')).
Proof.
  intros H.
  destruct (H 0%nat (Lib.new_BulkOperations None) "T" default_options
              (world_of [])) as (e & w' & E).
  discriminate E.
Qed.

(** C3, amended. On an empty [rows], [bulkInsert], [bulkUpdate] and
    [bulkDelete] of OracleDatabase.node.ts raise a validation error
    without sending anything through the connection (the empty-data
    error, or, for [bulkUpdate] and [bulkDelete] called without
    [whereColumns], the error of that earlier check); those of part_003
    send nothing either and return a result whose counts are all 0. *)
Theorem empty_rows_by_implementation :
  (forall fuel self tableName options w,
      exists w',
        Node.bulkInsert fuel self tableName [] options w
          = Some (Throw (Error "Dados para inserção não podem estar vazios"), w')
        /\ calls w' = calls w)
  /\ (forall fuel self tableName options w,
        exists m w',
          Node.bulkUpdate fuel self tableName [] options w
            = Some (Throw (Error m), w')
          /\ calls w' = calls w
          /\ m = if Node.missing (opt_whereColumns options)
                 then "whereColumns deve ser especificado para bulk update"
                 else "Dados para atualização não podem estar vazios")
  /\ (forall fuel self tableName options w,
        exists m w',
          Node.bulkDelete fuel self tableName [] options w
            = Some (Throw (Error m), w')
          /\ calls w' = calls w
          /\ m = if Node.missing (opt_whereColumns options)
                 then "whereColumns deve ser especificado para bulk delete"
                 else "Dados para exclusão não podem estar vazios")
  /\ (forall fuel self tableName options w,
        exists s w',
          Lib.bulkInsert fuel self tableName [] options w = Some (Ok s, w')
          /\ Lib.bulkUpdate fuel self tableName [] options w = Some (Ok s, w')
          /\ Lib.bulkDelete fuel self tableName [] options w = Some (Ok s, w')
          /\ calls w' = calls w
          /\ totalRows (Lib.sr_data s) = 0
          /\ successfulRows (Lib.sr_data s) = 0
          /\ failedRows (Lib.sr_data s) = 0
          /\ batchCount (Lib.sr_data s) = 0).
Proof.
  split; [|split; [|split]].
  - intros. eexists. split; reflexivity.
  - intros fuel self tableName opts w. unfold Node.bulkUpdate, now.
    destruct (Node.missing (opt_whereColumns opts)); do 2 eexists;
      (split; [reflexivity|split; reflexivity]).
  - intros fuel self tableName opts w. unfold Node.bulkDelete, now.
    destruct (Node.missing (opt_whereColumns opts)); do 2 eexists;
      (split; [reflexivity|split; reflexivity]).
  - intros fuel self tableName opts w.
    assert (E : Lib.bulkInsert fuel self tableName [] opts w
                = Some (Lib.finish [] opts (clock w (ticks w))
                          (Lib.mkFrame (snd (now w)) 0 0 [] 0)))
      by (unfold Lib.bulkInsert, now; destruct fuel; reflexivity).
    unfold Lib.bulkUpdate, Lib.bulkDelete. rewrite E.
    unfold Lib.finish, now.
    cbn [Lib.successful Lib.failed Lib.batches Lib.errs Lib.env snd Z.ltb
         Z.compare].
    rewrite andb_false_r.
    do 2 eexists. repeat split.
Qed.

(** C10. [bulkUpsert] of OracleDatabase.node.ts with key columns and
    an empty [rows] raises the [TypeError] of [Object.keys(undefined)]
    before anything is sent through the connection, where [bulkInsert]
    raises its own empty-data [Error]. *)
Theorem bulkUpsert_empty_rows_TypeError (self : Node.BulkOperations)
  (tableName : string) (key : string) (keyColumns : list string)
  (options : BulkInsertOptions) (w : World) :
  exists w',
    Node.bulkUpsert self tableName [] (Some (key :: keyColumns)) options w
      = (Throw (ErrorObj TypeError "Cannot convert undefined or null to object"),
         w')
    /\ calls w' = calls w
    /\ forall fuel,
         Node.bulkInsert fuel self tableName [] options w
         = Some (Throw (ErrorObj PlainError
                          "Dados para inserção não podem estar vazios"), w').
Proof.
  eexists. split; [reflexivity|]. split; reflexivity.
Qed.

(** C9, as stated, fails: on an empty [rows] the two [bulkInsert] do not
    even agree on whether a result is returned. *)
Lemma bulkInsert_outcomes_differ :
  ~ (forall fuel size tableName rows options w,
        outcomes_agree
          (Node.bulkInsert fuel (Node.mkBulkOperations size) tableName rows
                           options w)
          (Lib.bulkInsert fuel (Lib.mkBulkOperations size) tableName rows
                          options w)).
Proof.
  intros H.
  exact (H 0%nat 1000 "T" [] default_options (world_of [])).
Qed.

Lemma bulkInsert_same_counts_witness :
  exists sr w2 r w1,
    Lib.bulkInsert 3 (Lib.mkBulkOperations 1000) "T" three_rows
                   scenario_options (world_of [Raise deadlock])
      = Some (Ok sr, w2)
    /\ Node.bulkInsert 3 (Node.mkBulkOperations 1000) "T" three_rows
                       scenario_options (world_of [Raise deadlock])
       = Some (Ok r, w1)
    /\ same_counts r sr.
Proof.
  destruct (Lib.bulkInsert 3 (Lib.mkBulkOperations 1000) "T" three_rows
              scenario_options (world_of [Raise deadlock]))
    as [[[sr|e] w2]|] eqn:HL.
  - destruct (bulkInsert_same_counts 3 1000 "T" three_rows scenario_options
                (world_of [Raise deadlock]) sr w2)
      as (r & w1 & E & Hsame).
    + discriminate.
    + reflexivity.
    + intros k r. unfold world_of, scripted. simpl.
      destruct k as [|[|k]]; simpl; intros [= <-]; auto.
    + exact HL.
    + exists sr, w2, r, w1. auto.
  - vm_compute in HL. discriminate HL.
  - vm_compute in HL. discriminate HL.
Defined.


(** ** The counts of part_003 add up *)

(** Without per-batch commits, a batch that [bulkInsert] of part_003
    gets through adds its size to [successful + failed]. *)
Lemma Lib_batch_body_counts (rows : list Row) (batchSize : Z)
  (continueOnError : bool) (statement : string) (columns : list string)
  (i : Z) (fr fr' : Lib.Frame) :
  Lib.batch_body rows batchSize continueOnError false statement columns i fr
  = (Ok tt, fr') ->
  Lib.successful fr' + Lib.failed fr'
  = Lib.successful fr + Lib.failed fr + len (slice rows i (i + batchSize)).
Proof.
  cbv [Lib.batch_body Lib.incr_batchCount Lib.conn Lib.add_successful
       Lib.add_failed Lib.push_error bind try_catch modify gets throw ret
       send].
  cbn [Lib.env Lib.successful Lib.failed Lib.errs Lib.batches
       driver calls clock ticks].
  destruct (driver (Lib.env fr) _) as [res|e].
  - destruct (batchErrors res) as [[|first more]|].
    2: { match goal with |- context [Lib.record_row_errors ?k ?l ?x] =>
           destruct (Lib_record_row_errors k l x)
             as (f1 & E & _ & _ & Hs & Hf);
           rewrite E end.
         simpl in Hs, Hf. simpl. intros H. inversion H; subst; clear H.
         simpl. rewrite Hs, Hf. lia. }
    all: simpl; intros H; inversion H; subst; clear H; simpl; lia.
  - destruct continueOnError; simpl; [|discriminate].
    match goal with |- context [Lib.record_batch_failure ?b ?k ?x ?y] =>
      destruct (Lib_record_batch_failure b k x y)
        as (r1 & f1 & E & (_ & _ & Hs & Hf) & _ & _);
      rewrite E end.
    simpl in Hs, Hf. intros H. inversion H; subst; clear H. lia.
Qed.

Lemma Lib_loop_counts (rows : list Row) (batchSize : Z)
  (continueOnError : bool) (statement : string) (columns : list string)
  (fuel : nat) :
  0 < batchSize ->
  forall i fr fr',
    0 <= i ->
    for_batches fuel (len rows) batchSize
      (Lib.batch_body rows batchSize continueOnError false statement columns)
      i fr = Some (Ok tt, fr') ->
    Lib.successful fr' + Lib.failed fr'
    = Lib.successful fr + Lib.failed fr + len (skipn (Z.to_nat i) rows).
Proof.
  intros Hb. induction fuel as [|fuel IH]; intros i fr fr' Hi; simpl;
    destruct (i <? len rows) eqn:E; try discriminate.
  - intros H. inversion H; subst. apply Z.ltb_ge in E.
    rewrite skipn_all2 by (unfold len in E; lia). unfold len. simpl. lia.
  - apply Z.ltb_lt in E.
    destruct (Lib.batch_body _ _ _ _ _ _ _ _) as [[[]|e] f1] eqn:Hbody;
      [|discriminate].
    intros Hloop. apply IH in Hloop; [|lia].
    apply Lib_batch_body_counts in Hbody.
    rewrite Hloop, Hbody. rewrite slice_batch by lia.
    replace (Z.to_nat (i + batchSize))
      with (Z.to_nat batchSize + Z.to_nat i)%nat by lia.
    rewrite <- skipn_skipn.
    rewrite <- (firstn_skipn (Z.to_nat batchSize) (skipn (Z.to_nat i) rows))
      at 3.
    unfold len. rewrite (length_app (firstn _ _)). lia.
  - intros H. inversion H; subst. apply Z.ltb_ge in E.
    rewrite skipn_all2 by (unfold len in E; lia). unfold len. simpl. lia.
Qed.

(** With a positive batch size and [autoCommit: false], whatever the
    driver answers, a result of [bulkInsert] of part_003 satisfies
    [successfulRows + failedRows = totalRows]. *)
Lemma lib_counts_add_up (fuel : nat) (self : Lib.BulkOperations)
  (tableName : string) (rows : list Row) (batchSize : option Z)
  (continueOnError : option bool) (w w' : World) (sr : Lib.ServiceResult) :
  0 < or_else batchSize (Lib.defaultBatchSize self) ->
  Lib.bulkInsert fuel self tableName rows
    (mkBulkOptions batchSize continueOnError (Some false) None) w
  = Some (Ok sr, w') ->
  successfulRows (Lib.sr_data sr) + failedRows (Lib.sr_data sr)
  = totalRows (Lib.sr_data sr).
Proof.
  intros Hb. unfold Lib.bulkInsert, now.
  cbn [opt_batchSize opt_continueOnError opt_autoCommit or_else].
  destruct (for_batches _ _ _ _ _ _) as [[[[]|e] fr]|] eqn:Hloop;
    try discriminate.
  apply Lib_loop_counts in Hloop; [|assumption|lia].
  simpl in Hloop. unfold Lib.finish, send, now.
  destruct (_ && _); [destruct (driver _ _); [|discriminate]|];
    intros H; inversion H; subst; clear H; simpl; lia.
Qed.

(** A per-batch commit that raises after an [executeMany] that went
    through is caught by the same [catch]: with [continueOnError] the
    batch is then counted both as successful and as failed, in either
    implementation. *)
Lemma commit_failure_counted_twice :
  exists r w1 s w2,
    Node.bulkInsert 3 (Node.new_BulkOperations None) "T" three_rows
                    scenario_options (world_of [fine; Raise deadlock])
      = Some (Ok r, w1)
    /\ Lib.bulkInsert 3 (Lib.new_BulkOperations None) "T" three_rows
                      scenario_options (world_of [fine; Raise deadlock])
       = Some (Ok s, w2)
    /\ totalRows r = 3 /\ successfulRows r = 3 /\ failedRows r = 2
    /\ same_counts r s.
Proof.
  remember (Node.bulkInsert _ _ _ _ _ _) as n eqn:En.
  remember (Lib.bulkInsert _ _ _ _ _ _) as l eqn:El.
  vm_compute in En, El. subst n l.
  do 4 eexists. split; [reflexivity|]. split; [reflexivity|].
  simpl. repeat split.
Qed.


(** * Further properties of the transaction manager *)

Ltac run_tm :=
  cbv [beginTransaction createSavepoint rollbackToSavepoint releaseSavepoint
       rollback commit cleanupTransaction setIsolationLevel
       setTransactionTimeout call send Date_now now
       bind try_catch gets modify throw ret].

(** X1. What [createSavepoint] does, by outcome.  It never changes
    whether the transaction is active.  When it returns, the
    transaction was active, the name valid and not yet used, exactly
    the SAVEPOINT statement was sent and one savepoint of that name was
    appended at the end.  When it raises, the savepoints are unchanged,
    and if one of its three checks failed nothing at all was sent or
    changed. *)
Theorem createSavepoint_outcomes (n : string) (d : option string)
  (tm tm' : TransactionManager) (r : Res unit) :
  createSavepoint n d tm = (r, tm') ->
  isTransactionActive tm' = isTransactionActive tm
  /\ match r with
     | Ok _ =>
         isTransactionActive tm = true
         /\ isValidSavepointName n = true
         /\ ~ In n (names tm)
         /\ (exists t, savepoints tm' = savepoints tm ++ [mkSavepoint n t d])
         /\ calls (world tm')
            = calls (world tm) ++ [Execute ("SAVEPOINT " ++ n)%string None None]
     | Throw _ =>
         savepoints tm' = savepoints tm
         /\ (isTransactionActive tm = false
             \/ isValidSavepointName n = false
             \/ In n (names tm) -> tm' = tm)
     end.
Proof.
  run_tm.
  destruct (isTransactionActive tm) eqn:Ha; simpl.
  2: { intros H; inversion H; subst. auto. }
  destruct (isValidSavepointName n) eqn:Hv; simpl.
  2: { intros H; inversion H; subst. auto. }
  destruct (existsb (named n) (savepoints tm)) eqn:Hex; simpl.
  { intros H; inversion H; subst. auto. }
  assert (Hfresh : ~ In n (names tm)).
  { unfold names. rewrite <- existsb_named_In. congruence. }
  destruct (driver (world tm) _); simpl; intros H; inversion H; subst; simpl.
  - split; [assumption|]. repeat split; eauto.
  - split; [assumption|]. split; [reflexivity|].
    intros [F|[F|F]]; [discriminate|discriminate|contradiction].
Qed.

(** The scenario [createSavepoint("1bad")] of the specification. *)
Lemma createSavepoint_outcomes_witness :
  isTransactionActive begun = isTransactionActive begun
  /\ savepoints begun = savepoints begun
  /\ (isTransactionActive begun = false
      \/ isValidSavepointName "1bad" = false
      \/ In "1bad" (names begun) -> begun = begun).
Proof.
  apply (createSavepoint_outcomes "1bad" None begun begun
           (Throw (Error "Nome do savepoint inválido. Use apenas letras, números e underscore."))).
  reflexivity.
Defined.

Lemma filter_named_absent (n : string) (l : list SavepointInfo) :
  existsb (named n) l = false ->
  filter (fun sp => negb (named n sp)) l = l.
Proof.
  induction l as [|x l IH]; simpl; [reflexivity|].
  destruct (named n x); simpl; [discriminate|].
  intros H. now rewrite IH.
Qed.

Lemma splice1_middle {A : Type} (pre post : list A) (x : A) :
  splice1 (pre ++ x :: post) (len pre) = pre ++ post.
Proof.
  unfold splice1, len. rewrite Nat2Z.id.
  induction pre as [|a pre IH]; simpl; [reflexivity|].
  f_equal. exact IH.
Qed.

(** X2. [releaseSavepoint] on an active transaction with pairwise
    distinct savepoint names: for a name in the sequence it returns,
    sends nothing through the connection, and leaves the other
    savepoints in their order, the named one gone; for a name that is
    not there it raises the not-found error and changes nothing. *)
Theorem releaseSavepoint_removes_one (n : string) (tm : TransactionManager) :
  isTransactionActive tm = true ->
  NoDup (names tm) ->
  (In n (names tm) ->
   exists tm',
     releaseSavepoint n tm = (Ok tt, tm')
     /\ world tm' = world tm
     /\ isTransactionActive tm' = true
     /\ savepoints tm' = filter (fun sp => negb (named n sp)) (savepoints tm)
     /\ ~ In n (names tm'))
  /\ (~ In n (names tm) ->
      releaseSavepoint n tm
      = (Throw (Error ("Savepoint '" ++ n ++ "' não encontrado")%string), tm)).
Proof.
  intros Ha Hnd. split; intros Hin.
  - unfold names in *. pose proof Hin as Hex. apply existsb_named_In in Hex.
    destruct (findIndex_split _ _ Hex)
      as (pre & sp & post & Hl & Hsp & Hpre & Hidx).
    run_tm. rewrite Ha. simpl. rewrite Hidx.
    destruct (len pre =? -1) eqn:E;
      [apply Z.eqb_eq in E; unfold len in E; lia|]. simpl.
    eexists. split; [reflexivity|]. simpl.
    assert (Hpost : existsb (named n) post = false).
    { rewrite Hl, map_app in Hnd. simpl in Hnd.
      apply NoDup_remove_2 in Hnd. rewrite in_app_iff in Hnd.
      apply String.eqb_eq in Hsp. rewrite Hsp in Hnd.
      destruct (existsb (named n) post) eqn:Ep; [|reflexivity].
      apply existsb_named_In in Ep. tauto. }
    assert (Hsplice : splice1 (savepoints tm) (len pre) = pre ++ post)
      by (rewrite Hl; apply splice1_middle).
    rewrite Hsplice. repeat split; auto.
    + rewrite Hl, filter_app. simpl. rewrite Hsp. simpl.
      now rewrite !filter_named_absent.
    + rewrite map_app, in_app_iff, <- !existsb_named_In. rewrite Hpre, Hpost.
      intros [F|F]; discriminate.
  - run_tm. rewrite Ha. simpl.
    destruct (existsb (named n) (savepoints tm)) eqn:Hex.
    { apply existsb_named_In in Hex. contradiction. }
    assert (Hidx : findIndex (named n) (savepoints tm) = -1).
    { clear - Hex. induction (savepoints tm) as [|x l IH]; simpl in *;
        [reflexivity|].
      destruct (named n x); [discriminate|]. simpl in Hex.
      rewrite (IH Hex). reflexivity. }
    rewrite Hidx. reflexivity.
Qed.

Lemma releaseSavepoint_removes_one_witness :
  exists tm',
    releaseSavepoint "sp1" with_two_savepoints = (Ok tt, tm')
    /\ world tm' = world with_two_savepoints
    /\ isTransactionActive tm' = true
    /\ savepoints tm'
       = filter (fun sp => negb (named "sp1" sp))
                (savepoints with_two_savepoints)
    /\ ~ In "sp1" (names tm').
Proof.
  apply (releaseSavepoint_removes_one "sp1" with_two_savepoints).
  - reflexivity.
  - repeat constructor; simpl; intuition discriminate.
  - simpl. left. reflexivity.
Defined.

(** X3. [rollback] on an active transaction sends exactly one rollback
    through the connection and leaves the manager with the transaction
    fields of a fresh one, whether the driver's rollback went through
    or raised; it returns in the first case and raises the driver's
    message, prefixed, in the second. *)
Theorem rollback_always_cleans (tm : TransactionManager) :
  isTransactionActive tm = true ->
  exists tm',
    rollback tm
    = (match next_reply (world tm) 0 with
       | Done _ => Ok tt
       | Raise e => Throw (Error ("Falha no rollback: " ++ errorMessage e)%string)
       end, tm')
    /\ Idle tm'
    /\ calls (world tm') = calls (world tm) ++ [Rollback]
    /\ options tm' = options tm.
Proof.
  intros Ha. unfold next_reply. rewrite Nat.add_0_r. run_tm. rewrite Ha. simpl.
  destruct (driver (world tm) _); simpl; eexists;
    (split; [reflexivity|]); repeat split.
Qed.

Lemma rollback_always_cleans_witness :
  exists tm',
    rollback with_two_savepoints
    = (match next_reply (world with_two_savepoints) 0 with
       | Done _ => Ok tt
       | Raise e => Throw (Error ("Falha no rollback: " ++ errorMessage e)%string)
       end, tm')
    /\ Idle tm'
    /\ calls (world tm') = calls (world with_two_savepoints) ++ [Rollback]
    /\ options tm' = options with_two_savepoints.
Proof.
  apply (rollback_always_cleans with_two_savepoints). reflexivity.
Defined.

(** X4. [commit] on an active transaction, by what the driver answers.
    If the commit goes through, the manager is left like a fresh one.
    If it raises and [autoRollbackOnError] is set, a rollback is sent
    next and the manager is left like a fresh one; the error raised
    carries the message of the commit failure when that rollback went
    through, and only the message of the rollback failure when it
    raised too.  If it raises and [autoRollbackOnError] is not set,
    nothing else is sent and the transaction stays active with its
    savepoints. *)
Theorem commit_outcomes (tm : TransactionManager) :
  isTransactionActive tm = true ->
  exists tm',
    match next_reply (world tm) 0 with
    | Done _ =>
        commit tm = (Ok tt, tm') /\ Idle tm'
        /\ calls (world tm') = calls (world tm) ++ [Commit]
    | Raise e =>
        match autoRollbackOnError (options tm) with
        | Some true =>
            commit tm
            = (Throw (Error
                        (match next_reply (world tm) 1 with
                         | Done _ => "Falha no commit: " ++ errorMessage e
                         | Raise e2 => "Falha no rollback: " ++ errorMessage e2
                         end)%string), tm')
            /\ Idle tm'
            /\ calls (world tm') = calls (world tm) ++ [Commit; Rollback]
        | _ =>
            commit tm
            = (Throw (Error ("Falha no commit: " ++ errorMessage e)%string), tm')
            /\ isTransactionActive tm' = true
            /\ savepoints tm' = savepoints tm
            /\ transactionStartTime tm' = transactionStartTime tm
            /\ calls (world tm') = calls (world tm) ++ [Commit]
        end
    end.
Proof.
  intros Ha. unfold next_reply. rewrite Nat.add_0_r. run_tm. rewrite Ha. simpl.
  destruct (driver (world tm) (List.length (calls (world tm)))) as [r|e]; simpl.
  - eexists. split; [reflexivity|]. repeat split.
  - destruct (autoRollbackOnError (options tm)) as [[|]|]; simpl.
    + rewrite Ha. simpl. rewrite length_app. simpl.
      destruct (driver (world tm) _); simpl; eexists;
        (split; [reflexivity|]); (split; [repeat split|]);
        rewrite <- app_assoc; reflexivity.
    + eexists. split; [reflexivity|]. repeat split; assumption.
    + eexists. split; [reflexivity|]. repeat split; assumption.
Qed.

Lemma commit_outcomes_witness :
  exists tm',
    commit with_two_savepoints = (Ok tt, tm') /\ Idle tm'
    /\ calls (world tm') = calls (world with_two_savepoints) ++ [Commit].
Proof.
  apply (commit_outcomes with_two_savepoints). reflexivity.
Defined.

(** X5. [beginTransaction] on a manager without an active transaction.
    Under READ_COMMITTED, or with no isolation level, it sends nothing
    and cannot fail.  Under SERIALIZABLE or READ_ONLY it sends exactly
    the SET TRANSACTION statement of that level; if the driver raises,
    the method raises the prefixed message and the manager stays
    without a transaction.  When it returns, the transaction is active,
    its start time is the clock's and [retryCount] is 0; the savepoints
    are untouched in every case. *)
Theorem beginTransaction_outcomes (tm : TransactionManager) :
  isTransactionActive tm = false ->
  exists tm',
    savepoints tm' = savepoints tm
    /\ match isolation (options tm) with
       | None | Some READ_COMMITTED =>
           beginTransaction tm = (Ok tt, tm')
           /\ calls (world tm') = calls (world tm)
           /\ isTransactionActive tm' = true
           /\ transactionStartTime tm'
              = Some (clock (world tm) (ticks (world tm)))
           /\ retryCount tm' = 0
       | Some level =>
           calls (world tm')
           = calls (world tm)
             ++ [Execute ("SET TRANSACTION ISOLATION LEVEL "
                          ++ isolationMap level)%string None None]
           /\ match next_reply (world tm) 0 with
              | Done _ =>
                  beginTransaction tm = (Ok tt, tm')
                  /\ isTransactionActive tm' = true
                  /\ transactionStartTime tm'
                     = Some (clock (world tm) (ticks (world tm)))
                  /\ retryCount tm' = 0
              | Raise e =>
                  beginTransaction tm
                  = (Throw (Error ("Falha ao iniciar transação: "
                                   ++ errorMessage e)%string), tm')
                  /\ isTransactionActive tm' = false
                  /\ transactionStartTime tm' = transactionStartTime tm
              end
       end.
Proof.
  intros Ha. exists (snd (beginTransaction tm)).
  unfold next_reply. rewrite Nat.add_0_r. run_tm. rewrite Ha.
  destruct (isolation (options tm)) as [[| |]|]; simpl;
    try destruct (driver (world tm) (List.length (calls (world tm))));
    simpl;
    destruct (timeout (options tm)) as [t|]; try destruct (t =? 0); simpl;
    repeat split; assumption.
Qed.

Lemma beginTransaction_outcomes_witness :
  exists tm',
    savepoints tm' = savepoints idle_manager
    /\ beginTransaction idle_manager = (Ok tt, tm')
    /\ calls (world tm') = calls (world idle_manager)
    /\ isTransactionActive tm' = true
    /\ transactionStartTime tm'
       = Some (clock (world idle_manager) (ticks (world idle_manager)))
    /\ retryCount tm' = 0.
Proof.
  apply (beginTransaction_outcomes idle_manager). reflexivity.
Defined.

(** ** Retrying *)

Section Flaky.
Context {T : Type} (operation : Operation T) (err : nat -> Thrown).
Context (final : Res T) (stop : nat).
Hypothesis err_retryable : forall k, isRetryableError (err k) = true.
Hypothesis final_settles : settles final = true.
Hypothesis behaves :
  forall s, exists s',
    operation s
    = (if (invoked s <? stop)%nat then Throw (err (invoked s)) else final, s')
    /\ options s' = options s /\ retryCount s' = retryCount s
    /\ invoked s' = invoked s.

(** [n] retryable failures are still to come, and the limit leaves
    room for them and for the run that settles. *)
Lemma retry_loop_settles (n : nat) :
  forall fuel attempt lastError tm,
    (invoked tm + n)%nat = stop ->
    attempt + Z.of_nat n <= maxRetries_or_3 tm ->
    (n < fuel)%nat ->
    exists tm',
      retry_loop fuel operation attempt lastError tm = Some (final, tm')
      /\ invoked tm' = S stop
      /\ retryCount tm' = retryCount tm + Z.of_nat n
      /\ options tm' = options tm.
Proof.
  induction n as [|n IH]; intros fuel attempt lastError tm Hn Hroom Hfuel;
    (destruct fuel as [|fuel]; [lia|]);
    destruct (behaves tm) as (s' & Hop & Hopt & Hrc & Hinv).
  - replace (invoked tm <? stop)%nat with false in Hop
      by (symmetry; apply Nat.ltb_ge; lia).
    simpl. replace (attempt <=? maxRetries_or_3 tm) with true
      by (symmetry; apply Z.leb_le; lia).
    unfold invoke. rewrite Hop.
    destruct final as [v|e].
    + eexists. split; [reflexivity|]. simpl. repeat split; try lia; assumption.
    + simpl in final_settles. rewrite final_settles.
      eexists. split; [reflexivity|]. simpl. repeat split; try lia; assumption.
  - replace (invoked tm <? stop)%nat with true in Hop
      by (symmetry; apply Nat.ltb_lt; lia).
    rewrite (retry_loop_step _ _ _ _ _ _ _ Hop (err_retryable _) Hopt) by lia.
    replace (attempt <? maxRetries_or_3 tm) with true
      by (symmetry; apply Z.ltb_lt; lia).
    edestruct (IH fuel (attempt + 1) (Some (err (invoked tm))))
      as (tm' & E & Hi & Hr & Ho); [| | |rewrite E].
    + simpl. lia.
    + unfold maxRetries_or_3 in *. simpl. rewrite Hopt. lia.
    + lia.
    + eexists. split; [reflexivity|]. simpl in Hr, Ho.
      repeat split; try lia; congruence.
Qed.
End Flaky.

(** X6. [executeWithRetry] ends with the first outcome of the callback
    that is a value or a non-retryable error, when it comes within the
    retry limit: after [failures] retryable errors, with [failures]
    below the limit, it returns that value or raises that error itself,
    has run the callback [failures + 1] times and has incremented
    [retryCount] by [failures]. *)
Theorem executeWithRetry_ends_at_first_settled {T : Type}
  (operation : Operation T) (err : nat -> Thrown) (final : Res T)
  (failures : nat) (label : string) (tm : TransactionManager) :
  Z.of_nat failures < maxRetries_or_3 tm ->
  (forall k, isRetryableError (err k) = true) ->
  settles final = true ->
  (forall s, exists s',
      operation s
      = (if (invoked s <? invoked tm + failures)%nat
         then Throw (err (invoked s)) else final, s')
      /\ options s' = options s /\ retryCount s' = retryCount s
      /\ invoked s' = invoked s) ->
  exists tm',
    executeWithRetry operation label tm = Some (final, tm')
    /\ invoked tm' = (invoked tm + failures + 1)%nat
    /\ retryCount tm' = retryCount tm + Z.of_nat failures.
Proof.
  intros Hlimit Herr Hfinal Hop. unfold executeWithRetry.
  destruct (retry_loop_settles operation err final (invoked tm + failures)
              Herr Hfinal Hop failures (Z.to_nat (maxRetries_or_3 tm)) 1 None tm)
    as (tm' & E & Hi & Hr & _); [reflexivity|lia|lia|].
  exists tm'. rewrite E. repeat split; lia.
Qed.

Lemma executeWithRetry_ends_at_first_settled_witness :
  exists tm',
    executeWithRetry (flaky 2 (fun _ => deadlock) (Ok 42)) "x" begun
    = Some (Ok 42, tm')
    /\ invoked tm' = 3%nat /\ retryCount tm' = 2.
Proof.
  destruct (executeWithRetry_ends_at_first_settled
              (flaky 2 (fun _ => deadlock) (Ok 42)) (fun _ => deadlock)
              (Ok 42) 2 "x" begun) as (tm' & E & Hi & Hr).
  - reflexivity.
  - intros _. reflexivity.
  - reflexivity.
  - intros s. exists s. unfold flaky. simpl.
    destruct (invoked s <? 2)%nat; repeat split.
  - exists tm'. repeat split; assumption.
Defined.

Section Exhausted.
Context {T : Type} (operation : Operation T) (err : nat -> Thrown).
Hypothesis err_retryable : forall k, isRetryableError (err k) = true.
Hypothesis always_raises :
  forall s, exists s',
    operation s = (Throw (err (invoked s)), s') /\ options s' = options s
    /\ retryCount s' = retryCount s /\ invoked s' = invoked s.

Lemma retryable_is_Error (e : Thrown) :
  isRetryableError e = true -> instanceof_Error e = true.
Proof. destruct e; [reflexivity|discriminate]. Qed.

Lemma retry_loop_gives_up (n : nat) :
  forall fuel attempt lastError tm,
    Z.of_nat n = maxRetries_or_3 tm - attempt ->
    (n < fuel)%nat ->
    exists tm',
      retry_loop fuel operation attempt lastError tm
      = Some (Throw (err (invoked tm + n)%nat), tm')
      /\ invoked tm' = (invoked tm + n + 1)%nat
      /\ retryCount tm' = retryCount tm + Z.of_nat n.
Proof.
  induction n as [|n IH]; intros fuel attempt lastError tm Hn Hfuel;
    (destruct fuel as [|fuel]; [lia|]);
    destruct (always_raises tm) as (s' & Hop & Hopt & Hrc & Hinv);
    rewrite (retry_loop_step _ _ _ _ _ _ _ Hop (err_retryable _) Hopt)
      by lia.
  - replace (attempt <? maxRetries_or_3 tm) with false
      by (symmetry; apply Z.ltb_ge; lia).
    rewrite retry_loop_exit.
    + eexists. split; [now rewrite Nat.add_0_r|]. simpl. split; lia.
    + unfold maxRetries_or_3 in *. simpl. rewrite Hopt. lia.
    + apply retryable_is_Error, err_retryable.
  - replace (attempt <? maxRetries_or_3 tm) with true
      by (symmetry; apply Z.ltb_lt; lia).
    edestruct (IH fuel (attempt + 1) (Some (err (invoked tm))))
      as (tm' & E & Hi & Hr); [| |rewrite E].
    + unfold maxRetries_or_3 in *. simpl. rewrite Hopt. lia.
    + lia.
    + simpl. rewrite Hinv. eexists. split.
      * repeat f_equal. lia.
      * simpl in Hi, Hr. split; lia.
Qed.
End Exhausted.

(** X7. With a retry limit [L >= 1] (the [maxRetries] option, 3 when it
    is absent or 0) and a callback that raises a retryable error at
    every run, [executeWithRetry] runs the callback exactly [L] times,
    raises the error of the last run itself, and has incremented
    [retryCount] by [L - 1]. *)
Theorem executeWithRetry_gives_up_at_limit {T : Type}
  (operation : Operation T) (err : nat -> Thrown) (label : string)
  (tm : TransactionManager) :
  1 <= maxRetries_or_3 tm ->
  (forall k, isRetryableError (err k) = true) ->
  (forall s, exists s',
      operation s = (Throw (err (invoked s)), s') /\ options s' = options s
      /\ retryCount s' = retryCount s /\ invoked s' = invoked s) ->
  exists tm',
    executeWithRetry operation label tm
    = Some (Throw (err (invoked tm + Z.to_nat (maxRetries_or_3 tm) - 1)%nat),
            tm')
    /\ invoked tm' = (invoked tm + Z.to_nat (maxRetries_or_3 tm))%nat
    /\ retryCount tm' = retryCount tm + maxRetries_or_3 tm - 1.
Proof.
  intros HL Herr Hop. unfold executeWithRetry.
  destruct (retry_loop_gives_up operation err Herr Hop
              (Z.to_nat (maxRetries_or_3 tm) - 1)
              (Z.to_nat (maxRetries_or_3 tm)) 1 None tm)
    as (tm' & E & Hi & Hr); [lia|lia|].
  exists tm'. rewrite E. split; [|split; lia].
  replace (invoked tm + Z.to_nat (maxRetries_or_3 tm) - 1)%nat
    with (invoked tm + (Z.to_nat (maxRetries_or_3 tm) - 1))%nat by lia.
  reflexivity.
Qed.

Lemma executeWithRetry_gives_up_at_limit_witness :
  exists tm',
    executeWithRetry always_deadlock "x"
      (TransactionManagerFactory.createBatchManager (world_of []))
    = Some (Throw deadlock, tm')
    /\ invoked tm' = 5%nat /\ retryCount tm' = 4.
Proof.
  destruct (executeWithRetry_gives_up_at_limit always_deadlock
              (fun _ => deadlock) "x"
              (TransactionManagerFactory.createBatchManager (world_of [])))
    as (tm' & E & Hi & Hr).
  - discriminate.
  - intros _. reflexivity.
  - intros s. exists s. repeat split.
  - exists tm'. repeat split; assumption.
Defined.

(** X8. The retry budgets of the factory presets: against a callback
    that raises a retryable error at every run, the OLTP manager runs
    it 3 times, the batch and the critical managers 5 times, and the
    analytics manager once, without any retry. *)
Theorem factory_retry_budgets {T : Type} (operation : Operation T)
  (err : nat -> Thrown) (label : string) (connection : World) :
  (forall k, isRetryableError (err k) = true) ->
  (forall s, exists s',
      operation s = (Throw (err (invoked s)), s') /\ options s' = options s
      /\ retryCount s' = retryCount s /\ invoked s' = invoked s) ->
  (exists tm',
      executeWithRetry operation label
        (TransactionManagerFactory.createOLTPManager connection)
      = Some (Throw (err 2%nat), tm')
      /\ invoked tm' = 3%nat /\ retryCount tm' = 2)
  /\ (exists tm',
        executeWithRetry operation label
          (TransactionManagerFactory.createBatchManager connection)
        = Some (Throw (err 4%nat), tm')
        /\ invoked tm' = 5%nat /\ retryCount tm' = 4)
  /\ (exists tm',
        executeWithRetry operation label
          (TransactionManagerFactory.createAnalyticsManager connection)
        = Some (Throw (err 0%nat), tm')
        /\ invoked tm' = 1%nat /\ retryCount tm' = 0)
  /\ (exists tm',
        executeWithRetry operation label
          (TransactionManagerFactory.createCriticalManager connection)
        = Some (Throw (err 4%nat), tm')
        /\ invoked tm' = 5%nat /\ retryCount tm' = 4).
Proof.
  intros Herr Hop. unfold executeWithRetry.
  repeat split.
  - destruct (retry_loop_gives_up operation err Herr Hop 2 3 1 None
                (TransactionManagerFactory.createOLTPManager connection))
      as (tm' & E & Hi & Hr); [reflexivity|lia|]. exists tm'. auto.
  - destruct (retry_loop_gives_up operation err Herr Hop 4 5 1 None
                (TransactionManagerFactory.createBatchManager connection))
      as (tm' & E & Hi & Hr); [reflexivity|lia|]. exists tm'. auto.
  - destruct (retry_loop_gives_up operation err Herr Hop 0 1 1 None
                (TransactionManagerFactory.createAnalyticsManager connection))
      as (tm' & E & Hi & Hr); [reflexivity|lia|]. exists tm'. auto.
  - destruct (retry_loop_gives_up operation err Herr Hop 4 5 1 None
                (TransactionManagerFactory.createCriticalManager connection))
      as (tm' & E & Hi & Hr); [reflexivity|lia|]. exists tm'. auto.
Qed.

Lemma factory_retry_budgets_witness :
  exists tm',
    executeWithRetry always_deadlock "x"
      (TransactionManagerFactory.createAnalyticsManager (world_of []))
    = Some (Throw deadlock, tm')
    /\ invoked tm' = 1%nat /\ retryCount tm' = 0.
Proof.
  apply (factory_retry_budgets always_deadlock (fun _ => deadlock) "x"
           (world_of [])).
  - intros _. reflexivity.
  - intros s. exists s. repeat split.
Defined.

(** X9. With a negative [maxRetries] the loop of [executeWithRetry] is
    not entered: the callback is never run, and the error raised is a
    new [Error] whose message is the text "undefined". *)
Theorem executeWithRetry_negative_limit {T : Type} (operation : Operation T)
  (label : string) (tm : TransactionManager) (n : Z) :
  maxRetries (options tm) = Some n -> n < 0 ->
  executeWithRetry operation label tm = Some (Throw (Error "undefined"), tm).
Proof.
  intros Hmax Hneg. unfold executeWithRetry.
  assert (HL : maxRetries_or_3 tm = n).
  { unfold maxRetries_or_3. rewrite Hmax.
    destruct (n =? 0) eqn:E; [apply Z.eqb_eq in E; lia|reflexivity]. }
  rewrite HL. replace (Z.to_nat n) with 0%nat by lia. simpl.
  rewrite HL. replace (1 <=? n) with false by (symmetry; apply Z.leb_gt; lia).
  reflexivity.
Qed.

Lemma executeWithRetry_negative_limit_witness :
  executeWithRetry always_deadlock "x"
    (new_TransactionManager (world_of [])
       (mkOptions None None None (Some (-1)) None))
  = Some (Throw (Error "undefined"),
          new_TransactionManager (world_of [])
            (mkOptions None None None (Some (-1)) None)).
Proof.
  apply (executeWithRetry_negative_limit always_deadlock "x" _ (-1));
    reflexivity.
Defined.

(** ** What a computation sends *)

Section EffectRules.
Context {S : Type} (R : S -> S -> Prop).
Hypothesis R_refl : forall s, R s s.
Hypothesis R_trans : forall a b c, R a b -> R b c -> R a c.

Lemma Effect_ret {A : Type} (a : A) : Effect R (ret a).
Proof. intros s. apply R_refl. Qed.

Lemma Effect_throw {A : Type} (e : Thrown) : Effect R (@throw S A e).
Proof. intros s. apply R_refl. Qed.

Lemma Effect_gets {A : Type} (f : S -> A) : Effect R (gets f).
Proof. intros s. apply R_refl. Qed.

Lemma Effect_bind {A B : Type} (m : M S A) (k : A -> M S B) :
  Effect R m -> (forall a, Effect R (k a)) -> Effect R (bind m k).
Proof.
  intros Hm Hk s. unfold bind. specialize (Hm s).
  destruct (m s) as [[a|e] s1]; simpl in *; [|assumption].
  eapply R_trans; [exact Hm|apply Hk].
Qed.

Lemma Effect_try_catch {A : Type} (m : M S A) (h : Thrown -> M S A) :
  Effect R m -> (forall e, Effect R (h e)) -> Effect R (try_catch m h).
Proof.
  intros Hm Hh s. unfold try_catch. specialize (Hm s).
  destruct (m s) as [[a|e] s1]; simpl in *; [assumption|].
  eapply R_trans; [exact Hm|apply Hh].
Qed.

Lemma Effect_for_of {A : Type} (arr : list A) (body : A -> M S unit) :
  (forall x, Effect R (body x)) -> Effect R (for_of arr body).
Proof.
  intros Hbody. induction arr as [|x rest IH]; simpl.
  - apply Effect_ret.
  - apply Effect_bind; [apply Hbody|intros _; exact IH].
Qed.

Lemma Effect_for_batches (fuel : nat) (length batchSize : Z)
  (body : Z -> M S unit) :
  (forall i, Effect R (body i)) ->
  forall i s out,
    for_batches fuel length batchSize body i s = Some out -> R s (snd out).
Proof.
  intros Hbody. induction fuel as [|fuel IH]; intros i s out; simpl;
    destruct (i <? length); try discriminate;
    try (intros H; inversion H; subst; apply R_refl).
  specialize (Hbody i s).
  destruct (body i s) as [[u|e] s1]; simpl in Hbody.
  - intros H. eapply R_trans; [exact Hbody|]. eapply IH; eauto.
  - intros H; inversion H; subst. exact Hbody.
Qed.
End EffectRules.

Lemma sends_only_refl (p : Call -> bool) (w : World) : sends_only p w w.
Proof. exists []. rewrite app_nil_r. auto. Qed.

Lemma sends_only_trans (p : Call -> bool) (a b c : World) :
  sends_only p a b -> sends_only p b c -> sends_only p a c.
Proof.
  intros (l1 & H1 & P1 & D1) (l2 & H2 & P2 & D2). exists (l1 ++ l2).
  rewrite H2, H1, <- app_assoc, forallb_app, P1, P2. repeat split. congruence.
Qed.

Lemma sends_only_send (p : Call -> bool) (c : Call) (w : World) :
  p c = true -> sends_only p w (snd (send c w)).
Proof.
  intros Hp. exists [c]. simpl. rewrite Hp. auto.
Qed.

Lemma sends_only_now (p : Call -> bool) (w : World) :
  sends_only p w (snd (now w)).
Proof. exists []. simpl. rewrite app_nil_r. auto. Qed.

Section TmSends.
Context (p : Call -> bool).

Lemma tm_sends_refl (tm : TransactionManager) : tm_sends p tm tm.
Proof. apply sends_only_refl. Qed.

Lemma tm_sends_trans (a b c : TransactionManager) :
  tm_sends p a b -> tm_sends p b c -> tm_sends p a c.
Proof. apply sends_only_trans. Qed.

Lemma Effect_call (c : Call) : p c = true -> Effect (tm_sends p) (call c).
Proof.
  intros Hp tm. unfold call.
  pose proof (sends_only_send p c (world tm) Hp) as H.
  destruct (send c (world tm)) as [[r|e] w]; exact H.
Qed.

Lemma Effect_Date_now : Effect (tm_sends p) Date_now.
Proof. intros tm. unfold Date_now. simpl. apply sends_only_now. Qed.

Lemma Effect_modify (f : TransactionManager -> TransactionManager) :
  (forall tm, world (f tm) = world tm) -> Effect (tm_sends p) (modify f).
Proof.
  intros Hf tm. unfold modify, tm_sends. simpl. rewrite Hf.
  apply sends_only_refl.
Qed.
End TmSends.

Ltac effects R_refl R_trans :=
  repeat match goal with
    | |- Effect _ (ret _) => apply (Effect_ret _ R_refl)
    | |- Effect _ (throw _) => apply (Effect_throw _ R_refl)
    | |- Effect _ (gets _) => apply (Effect_gets _ R_refl)
    | |- Effect _ (bind _ _) =>
        apply (Effect_bind _ R_trans); [|intros ?]
    | |- Effect _ (try_catch _ _) =>
        apply (Effect_try_catch _ R_trans); [|intros ?]
    | |- Effect _ (if ?b then _ else _) => destruct b
    | |- Effect _ (match ?x with _ => _ end) => destruct x
    end.

Ltac tm_effects p :=
  effects (tm_sends_refl p) (tm_sends_trans p);
  try (apply Effect_call; reflexivity);
  try apply Effect_Date_now;
  try (apply Effect_modify; intros; reflexivity).

Lemma createSavepoint_sends (n : string) (d : option string) :
  Effect (tm_sends is_Execute) (createSavepoint n d).
Proof. unfold createSavepoint. tm_effects is_Execute. Qed.

Lemma rollbackToSavepoint_sends (n : string) :
  Effect (tm_sends is_Execute) (rollbackToSavepoint n).
Proof. unfold rollbackToSavepoint. tm_effects is_Execute. Qed.

Lemma beginTransaction_sends :
  Effect (tm_sends is_Execute) beginTransaction.
Proof.
  unfold beginTransaction, setIsolationLevel, setTransactionTimeout.
  tm_effects is_Execute.
Qed.

Lemma batch_step_sends (perOperation stop : bool) (i : Z)
  (operation : BatchOperation) (results : list OperationResult) :
  Effect (tm_sends is_Execute)
         (batch_step perOperation stop i operation results).
Proof.
  unfold batch_step. tm_effects is_Execute;
    first [apply createSavepoint_sends | apply rollbackToSavepoint_sends].
Qed.

Lemma batch_loop_sends (perOperation stop : bool)
  (operations : list BatchOperation) :
  forall i results,
    Effect (tm_sends is_Execute)
           (batch_loop perOperation stop i operations results).
Proof.
  induction operations as [|op rest IH]; intros i results; simpl.
  - apply (Effect_ret _ (tm_sends_refl _)).
  - apply (Effect_bind _ (tm_sends_trans _));
      [apply batch_step_sends|intros; apply IH].
Qed.

(** X10. [executeBatch] never commits and never rolls the transaction
    back: whatever its options and its outcome, every call it sends
    through the connection is an [execute] of a statement (the
    operations' own, the isolation statement of the implicit
    [beginTransaction], SAVEPOINT and ROLLBACK TO SAVEPOINT). *)
Theorem executeBatch_only_executes (operations : list BatchOperation)
  (batchOptions : BatchOptions) (tm : TransactionManager) :
  exists added,
    calls (world (snd (executeBatch operations batchOptions tm)))
    = calls (world tm) ++ added
    /\ forallb is_Execute added = true.
Proof.
  assert (H : Effect (tm_sends is_Execute)
                     (executeBatch operations batchOptions)).
  { unfold executeBatch. tm_effects is_Execute.
    - apply beginTransaction_sends.
    - apply batch_loop_sends. }
  destruct (H tm) as (added & Hc & Hp & _). eauto.
Qed.

(** ** executeBatch *)

Lemma batch_step_plain (i : Z) (operation : BatchOperation)
  (results : list OperationResult) (tm : TransactionManager) (stop : bool) :
  batch_step false stop i operation results tm
  = let tm' := set_world tm (snd (send (statement_of operation) (world tm))) in
    match next_reply (world tm) 0 with
    | Done r =>
        (Ok (results ++ [mkOperationResult i (reported_name i operation) true
                                           (Some r) (rowsAffected r) None]),
         tm')
    | Raise e =>
        if stop
        then (Throw (Error ("Operação '" ++ reported_name i operation
                            ++ "' falhou: " ++ errorMessage e)%string), tm')
        else (Ok (results ++ [mkOperationResult i (reported_name i operation)
                                false None None (Some (errorMessage e))]),
              tm')
    end.
Proof.
  unfold next_reply. rewrite Nat.add_0_r.
  cbv [batch_step bind try_catch call send ret gets throw statement_of
       reported_name].
  destruct (driver (world tm) _); [reflexivity|].
  destruct stop; [|reflexivity]. simpl.
  destruct (last_savepoint _); reflexivity.
Qed.

Lemma next_reply_after_send (c : Call) (w : World) (k : nat) :
  next_reply (snd (send c w)) k = next_reply w (S k).
Proof.
  unfold next_reply, send. simpl. rewrite length_app. simpl.
  f_equal. lia.
Qed.

(** The operations of [pre] go through and the next one fails. *)
Lemma batch_loop_stops (pre : list BatchOperation) :
  forall (operation : BatchOperation) (post : list BatchOperation) (i : Z)
         (results : list OperationResult) (tm : TransactionManager)
         (e : Thrown),
    (forall j, (j < List.length pre)%nat ->
               exists r, next_reply (world tm) j = Done r) ->
    next_reply (world tm) (List.length pre) = Raise e ->
    exists tm',
      batch_loop false true i (pre ++ operation :: post) results tm
      = (Throw (Error ("Operação '" ++ reported_name (i + len pre) operation
                       ++ "' falhou: " ++ errorMessage e)%string), tm')
      /\ calls (world tm')
         = calls (world tm) ++ map statement_of (pre ++ [operation])
      /\ savepoints tm' = savepoints tm
      /\ isTransactionActive tm' = isTransactionActive tm.
Proof.
  induction pre as [|first pre IH];
    intros operation post i results tm e Hpre Hfail; simpl.
  - unfold bind. rewrite batch_step_plain. simpl in Hfail. rewrite Hfail.
    cbv zeta.
    exists (set_world tm (snd (send (statement_of operation) (world tm)))).
    split; [|repeat split].
    unfold len. simpl. rewrite Z.add_0_r. reflexivity.
  - unfold bind. rewrite batch_step_plain.
    destruct (Hpre 0%nat) as [r Hr]; [simpl; lia|]. rewrite Hr. cbv zeta.
    edestruct (IH operation post (i + 1)) as (tm' & E & Hc & Hs & Ha);
      [| |rewrite E].
    + intros j Hj. cbn [world set_world]. rewrite next_reply_after_send.
      apply Hpre. simpl. lia.
    + cbn [world set_world]. rewrite next_reply_after_send. exact Hfail.
    + exists tm'. split.
      * unfold len. simpl List.length.
        replace (i + 1 + Z.of_nat (List.length pre))
          with (i + Z.of_nat (S (List.length pre))) by lia.
        reflexivity.
      * simpl in Hc, Hs, Ha. rewrite Hc, <- app_assoc. auto.
Qed.

(** X11. [executeBatch] under its default options (no savepoints, stop
    on error) on an active transaction: when the driver executes the
    first [k] statements and raises on the next, exactly those [k + 1]
    statements were sent, in order and with [autoCommit: false], no
    later operation is attempted, nothing is rolled back, the
    transaction stays active, and the error raised names the failing
    operation and carries the driver's message. *)
Theorem executeBatch_stops_at_first_failure
  (pre post : list BatchOperation) (operation : BatchOperation)
  (batchOptions : BatchOptions) (tm : TransactionManager) (e : Thrown) :
  isTransactionActive tm = true ->
  or_else (savepointPerOperation batchOptions) false = false ->
  or_else (stopOnError batchOptions) true = true ->
  (forall j, (j < List.length pre)%nat ->
             exists r, next_reply (world tm) j = Done r) ->
  next_reply (world tm) (List.length pre) = Raise e ->
  exists tm',
    executeBatch (pre ++ operation :: post) batchOptions tm
    = (Throw (Error ("Operação '" ++ reported_name (len pre) operation
                     ++ "' falhou: " ++ errorMessage e)%string), tm')
    /\ calls (world tm')
       = calls (world tm) ++ map statement_of (pre ++ [operation])
    /\ savepoints tm' = savepoints tm
    /\ isTransactionActive tm' = true.
Proof.
  intros Ha Hsp Hstop Hpre Hfail.
  unfold executeBatch, bind, gets, ret. rewrite Ha, Hsp, Hstop. simpl.
  destruct (batch_loop_stops pre operation post 0 [] tm e Hpre Hfail)
    as (tm' & E & Hc & Hs & Hact).
  exists tm'. rewrite E. repeat split; congruence.
Qed.

Lemma executeBatch_stops_at_first_failure_witness :
  exists tm',
    executeBatch two_operations (mkBatchOptions None None)
                 (begun_on [fine; Raise deadlock])
    = (Throw (Error ("Operação 'operation_2' falhou: "
                     ++ errorMessage deadlock)%string), tm')
    /\ calls (world tm')
       = calls (world (begun_on [fine; Raise deadlock]))
         ++ map statement_of two_operations
    /\ savepoints tm' = savepoints (begun_on [fine; Raise deadlock])
    /\ isTransactionActive tm' = true.
Proof.
  apply (executeBatch_stops_at_first_failure
           [mkBatchOperation "UPDATE t SET a = 1" None (Some "first")] []
           (mkBatchOperation "UPDATE t SET a = 2" None None)
           (mkBatchOptions None None) (begun_on [fine; Raise deadlock])
           deadlock).
  - reflexivity.
  - reflexivity.
  - reflexivity.
  - intros j Hj. destruct j as [|j]; [eexists; reflexivity|].
    simpl in Hj. lia.
  - reflexivity.
Defined.

Lemma createSavepoint_active (n : string) (d : option string)
  (tm : TransactionManager) :
  isTransactionActive (snd (createSavepoint n d tm)) = isTransactionActive tm.
Proof.
  run_tm.
  destruct (isTransactionActive tm) eqn:Ha; simpl; [|assumption].
  destruct (isValidSavepointName n); simpl; [|assumption].
  destruct (existsb (named n) (savepoints tm)); simpl; [assumption|].
  destruct (driver (world tm) _); simpl; assumption.
Qed.

Lemma batch_step_continue (perOperation : bool) (i : Z)
  (operation : BatchOperation) (results : list OperationResult)
  (tm : TransactionManager) :
  exists r tm',
    batch_step perOperation false i operation results tm
    = (Ok (results ++ [r]), tm')
    /\ index r = i
    /\ res_name r = reported_name i operation
    /\ isTransactionActive tm' = isTransactionActive tm.
Proof.
  destruct perOperation.
  - unfold batch_step, try_catch, bind, Date_now, now, call, send, ret.
    fold (reported_name i operation). cbn [fst snd].
    pose proof (createSavepoint_active
                  ("batch_" ++ show i ++ "_"
                   ++ show (clock (world tm) (ticks (world tm))))%string None
                  (set_world tm
                     (mkWorld (driver (world tm)) (calls (world tm))
                              (clock (world tm)) (S (ticks (world tm))))))
      as Hact.
    destruct (createSavepoint _ _ _) as [[u|e] tm1]; simpl in Hact.
    + destruct (driver (world tm1) _); do 2 eexists;
        (split; [reflexivity|]); simpl; auto.
    + do 2 eexists. split; [reflexivity|]. simpl. auto.
  - rewrite batch_step_plain. cbv zeta.
    destruct (next_reply (world tm) 0); do 2 eexists;
      (split; [reflexivity|]); simpl; auto.
Qed.

Lemma combine_shift {B C : Type} (f : nat * B -> C) (l : list nat)
  (r : list B) :
  map f (combine (map S l) r)
  = map (fun jo => f (S (fst jo), snd jo)) (combine l r).
Proof.
  revert r. induction l as [|x l IH]; intros [|y r]; simpl;
    try reflexivity.
  now rewrite IH.
Qed.

Lemma batch_loop_continue (perOperation : bool)
  (operations : list BatchOperation) :
  forall (i : Z) (results : list OperationResult) (tm : TransactionManager),
  exists rs tm',
    batch_loop perOperation false i operations results tm
    = (Ok (results ++ rs), tm')
    /\ map index rs
       = map (fun j => i + Z.of_nat j) (seq 0 (List.length operations))
    /\ map res_name rs
       = map (fun jo => reported_name (i + Z.of_nat (fst jo)) (snd jo))
             (combine (seq 0 (List.length operations)) operations)
    /\ isTransactionActive tm' = isTransactionActive tm.
Proof.
  induction operations as [|op rest IH]; intros i results tm; simpl.
  - exists [], tm. rewrite app_nil_r. auto.
  - unfold bind.
    destruct (batch_step_continue perOperation i op results tm)
      as (r & tm1 & E & Hi & Hn & Ha).
    rewrite E.
    destruct (IH (i + 1) (results ++ [r]) tm1) as (rs & tm' & E' & His & Hns & Ha').
    rewrite E'. exists (r :: rs), tm'. rewrite <- app_assoc. simpl.
    split; [reflexivity|]. rewrite Hi, Hn, His, Hns, Z.add_0_r.
    rewrite <- seq_shift, map_map.
    split; [|split; [|congruence]].
    + f_equal. apply map_ext. intros j. lia.
    + f_equal. rewrite combine_shift. apply map_ext. intros [j o]. simpl.
      f_equal. lia.
Qed.

(** X12. [executeBatch] with [stopOnError: false] on an active
    transaction never raises: whatever the driver answers, and with or
    without a savepoint per operation, it returns one result per
    operation, in order, carrying the operation's position and its
    name (or [operation_<position + 1>] when it has none), and the
    transaction is still active. *)
Theorem executeBatch_continue_reports_all
  (operations : list BatchOperation) (perOperation : option bool)
  (tm : TransactionManager) :
  isTransactionActive tm = true ->
  exists results tm',
    executeBatch operations (mkBatchOptions perOperation (Some false)) tm
    = (Ok results, tm')
    /\ map index results
       = map Z.of_nat (seq 0 (List.length operations))
    /\ map res_name results
       = map (fun jo => reported_name (Z.of_nat (fst jo)) (snd jo))
             (combine (seq 0 (List.length operations)) operations)
    /\ isTransactionActive tm' = true.
Proof.
  intros Ha. unfold executeBatch, bind, gets, ret. rewrite Ha. simpl.
  destruct (batch_loop_continue (or_else perOperation false) operations 0 [] tm)
    as (rs & tm' & E & Hi & Hn & Hact).
  exists rs, tm'. rewrite E. simpl. repeat split; try congruence; assumption.
Qed.

Lemma executeBatch_continue_reports_all_witness :
  exists results tm',
    executeBatch two_operations (mkBatchOptions (Some true) (Some false))
                 (begun_on [Raise deadlock])
    = (Ok results, tm')
    /\ map index results = [0; 1]
    /\ map res_name results = ["first"; "operation_2"]
    /\ isTransactionActive tm' = true.
Proof.
  apply (executeBatch_continue_reports_all two_operations (Some true)
           (begun_on [Raise deadlock])).
  reflexivity.
Defined.

(** ** Savepoints in sequence *)

Lemma findIndex_last {A : Type} (p : A -> bool) (l : list A) (x : A) :
  existsb p l = false -> p x = true -> findIndex p (l ++ [x]) = len l.
Proof.
  intros Hl Hx. induction l as [|y l IH]; simpl in *.
  - now rewrite Hx.
  - destruct (p y); [discriminate|]. simpl in Hl. rewrite (IH Hl).
    unfold len. simpl List.length.
    destruct (Z.of_nat (List.length l) <? 0) eqn:E;
      [apply Z.ltb_lt in E; lia|lia].
Qed.

Lemma named_refl (n : string) (t : Z) (d : option string) :
  named n (mkSavepoint n t d) = true.
Proof. unfold named. simpl. apply String.eqb_refl. Qed.

(** X13. Creating a savepoint and releasing it at once restores the
    manager's savepoint sequence, while the connection has received the
    SAVEPOINT statement and nothing that undoes it: the release is
    bookkeeping only. *)
Theorem createSavepoint_then_release (n : string) (d : option string)
  (tm : TransactionManager) :
  isTransactionActive tm = true ->
  isValidSavepointName n = true ->
  ~ In n (names tm) ->
  (exists r, next_reply (world tm) 0 = Done r) ->
  exists tm',
    (createSavepoint n d ;;; releaseSavepoint n)%monad tm = (Ok tt, tm')
    /\ savepoints tm' = savepoints tm
    /\ calls (world tm')
       = calls (world tm) ++ [Execute ("SAVEPOINT " ++ n)%string None None].
Proof.
  intros Ha Hv Hn [r Hr]. unfold next_reply in Hr. rewrite Nat.add_0_r in Hr.
  assert (Hex : existsb (named n) (savepoints tm) = false).
  { destruct (existsb (named n) (savepoints tm)) eqn:E; [|reflexivity].
    apply existsb_named_In in E. contradiction. }
  run_tm. rewrite Ha, Hv. simpl. rewrite Hex, Hr. simpl. rewrite Ha. simpl.
  rewrite (findIndex_last _ _ _ Hex (named_refl _ _ _)).
  destruct (len (savepoints tm) =? -1) eqn:E;
    [apply Z.eqb_eq in E; unfold len in E; lia|].
  simpl. eexists. split; [reflexivity|]. simpl.
  rewrite splice1_middle, app_nil_r. auto.
Qed.

Lemma createSavepoint_then_release_witness :
  exists tm',
    (createSavepoint "sp3" None ;;; releaseSavepoint "sp3")%monad
      with_two_savepoints = (Ok tt, tm')
    /\ savepoints tm' = savepoints with_two_savepoints
    /\ calls (world tm')
       = calls (world with_two_savepoints)
         ++ [Execute "SAVEPOINT sp3" None None].
Proof.
  apply (createSavepoint_then_release "sp3" None with_two_savepoints).
  - reflexivity.
  - reflexivity.
  - simpl. intuition discriminate.
  - eexists. reflexivity.
Defined.

(** X14. A rollback to a savepoint keeps that savepoint, so it can be
    repeated: rolling back to the same name twice in a row (the driver
    executing both statements) leaves the same savepoint sequence as
    rolling back once. *)
Theorem rollbackToSavepoint_twice (n : string) (tm : TransactionManager) :
  isTransactionActive tm = true ->
  NoDup (names tm) ->
  In n (names tm) ->
  (exists r, next_reply (world tm) 0 = Done r) ->
  (exists r, next_reply (world tm) 1 = Done r) ->
  exists tm1 tm2,
    rollbackToSavepoint n tm = (Ok tt, tm1)
    /\ rollbackToSavepoint n tm1 = (Ok tt, tm2)
    /\ savepoints tm2 = savepoints tm1
    /\ In n (names tm1).
Proof.
  intros Ha Hnd Hin [r0 H0] [r1 H1].
  unfold next_reply in H0, H1. rewrite Nat.add_0_r in H0.
  destruct (rollbackToSavepoint_prefix tm n Ha Hnd Hin (ex_intro _ r0 H0))
    as (tm1 & pre & sp & post & E1 & Hl & Hname & Hpre & Hpost & Hs1).
  assert (Hfacts : isTransactionActive tm1 = true
                   /\ driver (world tm1) = driver (world tm)
                   /\ calls (world tm1)
                      = calls (world tm)
                        ++ [Execute ("ROLLBACK TO SAVEPOINT " ++ n)%string
                                    None None]).
  { revert E1. run_tm. rewrite Ha. simpl.
    destruct (existsb (named n) (savepoints tm)); simpl; [|discriminate].
    rewrite H0. simpl. intros H; inversion H; subst. auto. }
  destruct Hfacts as (Ha1 & Hd1 & Hc1).
  assert (Hnd1 : NoDup (names tm1)).
  { unfold names in *. rewrite Hs1. rewrite Hl in Hnd.
    rewrite map_app in *. simpl in *.
    apply NoDup_remove in Hnd. destruct Hnd as [Hnd Hnot].
    apply NoDup_snoc.
    - now apply NoDup_app_remove_r in Hnd.
    - rewrite in_app_iff in Hnot. tauto. }
  assert (Hin1 : In n (names tm1)).
  { unfold names. rewrite Hs1, map_app, in_app_iff. simpl. auto. }
  destruct (rollbackToSavepoint_prefix tm1 n Ha1 Hnd1 Hin1)
    as (tm2 & pre' & sp' & post' & E2 & Hl' & Hname' & Hpre' & Hpost' & Hs2).
  { exists r1. rewrite Hd1, Hc1, length_app. simpl. exact H1. }
  exists tm1, tm2. repeat split; try assumption.
  rewrite Hs2, Hl'.
  rewrite Hs1 in Hl'.
  assert (Hpost_nil : post' = []).
  { destruct post' as [|q post']; [reflexivity|exfalso].
    assert (Hsp : In n (map name pre') \/ In n (map name (q :: post'))).
    { apply (f_equal (@rev _)) in Hl'.
      rewrite rev_app_distr in Hl'. simpl in Hl'.
      rewrite rev_app_distr in Hl'. simpl in Hl'.
      destruct (rev post') as [|z zs] eqn:Hrev; simpl in Hl'.
      - injection Hl' as Hq _. right. left. now rewrite <- Hq.
      - injection Hl' as Hz _. right. right.
        apply in_map_iff. exists z. split; [now rewrite <- Hz|].
        apply in_rev. rewrite Hrev. now left. }
    destruct Hsp as [F|F]; contradiction. }
  rewrite Hpost_nil. reflexivity.
Qed.

Lemma rollbackToSavepoint_twice_witness :
  exists tm1 tm2,
    rollbackToSavepoint "sp1" with_two_savepoints = (Ok tt, tm1)
    /\ rollbackToSavepoint "sp1" tm1 = (Ok tt, tm2)
    /\ savepoints tm2 = savepoints tm1
    /\ In "sp1" (names tm1).
Proof.
  apply (rollbackToSavepoint_twice "sp1" with_two_savepoints).
  - reflexivity.
  - repeat constructor; simpl; intuition discriminate.
  - simpl. left. reflexivity.
  - eexists. reflexivity.
  - eexists. reflexivity.
Defined.

Lemma NoDup_app_disjoint {A : Type} (l1 l2 : list A) (x : A) :
  NoDup (l1 ++ l2) -> In x l1 -> In x l2 -> False.
Proof.
  induction l1 as [|y l1 IH]; simpl; [tauto|].
  intros Hnd Hin1 Hin2. inversion Hnd as [|z l Hz Hrest]; subst.
  destruct Hin1 as [->|Hin1].
  - apply Hz. apply in_or_app. now right.
  - now apply IH.
Qed.

(** X15. The names of the savepoints that a rollback discards are free
    again: on a manager that satisfies the invariant, after
    [rollbackToSavepoint n] a savepoint created after [n] can be
    created anew under its old name, and then comes right after [n]. *)
Theorem discarded_name_reusable (n m : string) (d : option string)
  (tm : TransactionManager) (pre post : list SavepointInfo)
  (sp : SavepointInfo) :
  Invariant tm ->
  isTransactionActive tm = true ->
  savepoints tm = pre ++ sp :: post ->
  name sp = n ->
  In m (map name post) ->
  (exists r, next_reply (world tm) 0 = Done r) ->
  (exists r, next_reply (world tm) 1 = Done r) ->
  exists tm',
    (rollbackToSavepoint n ;;; createSavepoint m d)%monad tm = (Ok tt, tm')
    /\ names tm' = map name pre ++ [n; m].
Proof.
  intros [Hnd Hpat _ _] Ha Hl Hname Hm [r0 H0] [r1 H1].
  unfold next_reply in H0, H1. rewrite Nat.add_0_r in H0.
  unfold names in *. rewrite Hl, map_app in Hnd, Hpat. simpl in Hnd, Hpat.
  pose proof (NoDup_remove_2 _ _ _ Hnd) as Hsp. rewrite in_app_iff in Hsp.
  assert (Hex : existsb (named n) (savepoints tm) = true).
  { apply existsb_named_In. rewrite Hl, map_app, in_app_iff. simpl. auto. }
  assert (Hpre : existsb (named n) pre = false).
  { destruct (existsb (named n) pre) eqn:E; [|reflexivity].
    apply existsb_named_In in E. rewrite Hname in Hsp. tauto. }
  assert (Hidx : findIndex (named n) (savepoints tm) = len pre).
  { rewrite Hl. clear - Hpre Hname. induction pre as [|y pre IH]; simpl in *.
    - unfold named. rewrite Hname, String.eqb_refl. reflexivity.
    - destruct (named n y); [discriminate|]. simpl in Hpre.
      rewrite (IH Hpre). unfold len. simpl List.length.
      destruct (Z.of_nat (List.length pre) <? 0) eqn:E;
        [apply Z.ltb_lt in E; lia|lia]. }
  assert (Hvalid : isValidSavepointName m = true).
  { rewrite valid_name_pattern. apply Forall_app in Hpat.
    destruct Hpat as [_ Hpat]. apply Forall_cons_iff in Hpat.
    destruct Hpat as [_ Hpat]. rewrite Forall_forall in Hpat. now apply Hpat. }
  assert (Hfresh : existsb (named m) (pre ++ [sp]) = false).
  { destruct (existsb (named m) (pre ++ [sp])) eqn:E; [|reflexivity].
    apply existsb_named_In in E. exfalso.
    apply (NoDup_app_disjoint (map name (pre ++ [sp])) (map name post) m);
      try assumption.
    rewrite map_app. simpl. now rewrite <- app_assoc. }
  run_tm. rewrite Ha. simpl. rewrite Hex. simpl. rewrite H0. simpl.
  rewrite Ha, Hvalid. simpl. rewrite Hidx.
  rewrite slice_prefix by (unfold len; lia).
  rewrite Hl, firstn_through, Hfresh. simpl.
  rewrite length_app. simpl. rewrite H1. simpl.
  eexists. split; [reflexivity|]. simpl.
  rewrite !map_app. simpl. rewrite <- app_assoc, Hname. reflexivity.
Qed.

Lemma discarded_name_reusable_witness :
  exists tm',
    (rollbackToSavepoint "sp1" ;;; createSavepoint "sp2" None)%monad
      with_two_savepoints = (Ok tt, tm')
    /\ names tm' = [] ++ ["sp1"; "sp2"].
Proof.
  apply (discarded_name_reusable "sp1" "sp2" None with_two_savepoints []
           [mkSavepoint "sp2" 2000 None] (mkSavepoint "sp1" 1000 None)).
  - constructor; simpl; try discriminate.
    + repeat constructor; simpl; intuition discriminate.
    + repeat constructor.
  - reflexivity.
  - reflexivity.
  - reflexivity.
  - simpl. left. reflexivity.
  - eexists. reflexivity.
  - eexists. reflexivity.
Defined.


(** * Further properties of the bulk operations *)

(** ** Validation of the rows *)

Lemma validate_from_None (rows : list Row) (columns : list string) :
  forall i,
    Node.validate_from i rows columns = None <-> rectangular rows columns.
Proof.
  unfold rectangular. induction rows as [|row rest IH]; intros i; simpl.
  - split; [intros _ row []|reflexivity].
  - destruct (find _ columns) as [col|] eqn:Hfind.
    + split; [discriminate|]. intros H. exfalso.
      apply find_some in Hfind. destruct Hfind as [Hin Hmiss].
      rewrite (H row (or_introl eq_refl) col Hin) in Hmiss. discriminate.
    + rewrite IH. split.
      * intros H row' [<-|Hin] col Hcol; [|now apply H].
        pose proof (find_none _ _ Hfind col Hcol) as Hk. simpl in Hk.
        now destruct (has_key col row).
      * intros H row' Hin. apply H. now right.
Qed.

(** X16. [validateDataStructure] accepts the rows exactly when every
    row carries every expected column, as the [in] operator sees it: as
    a property of its own or as one inherited from [Object.prototype];
    [bulkInsert] runs it against the columns of the first row, so a row
    that lacks one of them makes it raise before anything is sent
    through the connection. *)
Theorem bulkInsert_rejects_ragged_rows (fuel : nat)
  (self : Node.BulkOperations) (tableName : string) (first : Row)
  (rest : list Row) (options : BulkInsertOptions) (w : World) :
  (Node.validateDataStructure (first :: rest) (keys first) = None
   <-> rectangular (first :: rest) (keys first))
  /\ (~ rectangular (first :: rest) (keys first) ->
      exists e w',
        Node.bulkInsert fuel self tableName (first :: rest) options w
        = Some (Throw e, w')
        /\ calls w' = calls w).
Proof.
  split; [apply validate_from_None|].
  intros Hragged. unfold Node.bulkInsert, now.
  destruct (Node.validateDataStructure (first :: rest) (keys first)) as [e|]
    eqn:Hv.
  - exists e. eexists. split; reflexivity.
  - apply validate_from_None in Hv. contradiction.
Qed.

Lemma bulkInsert_rejects_ragged_rows_witness :
  exists e w',
    Node.bulkInsert 2 (Node.new_BulkOperations None) "T" ragged_rows
                    default_options (world_of [])
    = Some (Throw e, w')
    /\ calls w' = calls (world_of []).
Proof.
  apply (bulkInsert_rejects_ragged_rows 2 (Node.new_BulkOperations None) "T"
           [("a", VNum 1); ("b", VNum 2)] [[("a", VNum 3)]] default_options
           (world_of [])).
  intros H.
  specialize (H [("a", VNum 3)] (or_intror (or_introl eq_refl)) "b"
                (or_intror (or_introl eq_refl))).
  discriminate H.
Defined.

(** A column named like a member of [Object.prototype] is found in
    every row: [[{constructor: 1}, {a: 2}]] passes the validation, and
    the bind of the second row is the inherited member. *)
Lemma inherited_column_accepted :
  Node.validateDataStructure inheriting_rows (keys (hd [] inheriting_rows))
  = None
  /\ exists r w',
       Node.bulkInsert 2 (Node.new_BulkOperations None) "T" inheriting_rows
                       default_options (world_of [])
       = Some (Ok r, w')
       /\ many_binds (calls w')
          = [[ByPosition [VNum 1]; ByPosition [VInherited "constructor"]]].
Proof.
  split; [reflexivity|].
  remember (Node.bulkInsert _ _ _ _ _ _) as out eqn:E.
  vm_compute in E. subst out.
  do 2 eexists. split; reflexivity.
Qed.

(** ** A rule for the batch loop *)

Section LoopRule.
Context {S : Type} (length batchSize : Z) (body : Z -> M S unit).
Context (I : Z -> S -> Prop) (T : Thrown -> S -> Prop).
Hypothesis size_pos : 0 < batchSize.
Hypothesis step :
  forall i s, 0 <= i < length -> I i s ->
    match body i s with
    | (Ok _, s') => I (i + batchSize) s'
    | (Throw e, s') => T e s'
    end.

Lemma for_batches_rule (fuel : nat) :
  forall i s out,
    0 <= i -> I i s ->
    for_batches fuel length batchSize body i s = Some out ->
    match out with
    | (Ok _, s') => exists j, length <= j /\ I j s'
    | (Throw e, s') => T e s'
    end.
Proof.
  induction fuel as [|fuel IH]; intros i s out Hi HI; simpl;
    destruct (i <? length) eqn:E; try discriminate.
  - intros H; inversion H; subst. apply Z.ltb_ge in E. eauto.
  - apply Z.ltb_lt in E. pose proof (step i s (conj Hi E) HI) as Hstep.
    destruct (body i s) as [[u|e] s1].
    + apply IH; [lia|assumption].
    + intros H; inversion H; subst. exact Hstep.
  - intros H; inversion H; subst. apply Z.ltb_ge in E. eauto.
Qed.
End LoopRule.

(** ** The batch loop of OracleDatabase.node.ts, case by case *)

Ltac node_body :=
  cbv [Node.batch_body Node.incr_batchCount Node.conn Node.add_success
       Node.add_errors Node.push_error bind try_catch modify gets throw ret
       send];
  cbn [Node.env Node.totalSuccess Node.totalErrors Node.errs Node.batches
       driver calls clock ticks].

Ltac lib_body :=
  cbv [Lib.batch_body Lib.incr_batchCount Lib.conn Lib.add_successful
       Lib.add_failed Lib.push_error bind try_catch modify gets throw ret
       send];
  cbn [Lib.env Lib.successful Lib.failed Lib.errs Lib.batches
       driver calls clock ticks].

(** With [continueOnError] the body of the loop never raises. *)
Lemma Node_batch_body_continue (rows : list Row) (batchSize : Z)
  (autoCommit : bool) (statement : string) (bind_row : Row -> Binds)
  (i : Z) (fr : Node.Frame) :
  exists fr',
    Node.batch_body rows batchSize true autoCommit statement bind_row i fr
    = (Ok tt, fr').
Proof.
  node_body.
  destruct (driver (Node.env fr) _) as [res|e]; [|eexists; reflexivity].
  destruct (batchErrors res) as [[|first more]|].
  2: { match goal with |- context [Node.record_row_errors ?b ?k ?l ?x] =>
         destruct (Node_record_row_errors b k l x) as (f1 & E & _);
         rewrite E end.
       destruct autoCommit; simpl; [|eexists; reflexivity].
       destruct (driver (Node.env f1) _); eexists; reflexivity. }
  all: destruct autoCommit; simpl; [|eexists; reflexivity];
    destruct (driver (Node.env fr) _); eexists; reflexivity.
Qed.

(** X17. With [continueOnError: true] and per-batch commits (the
    default [autoCommit]), [bulkInsert] of OracleDatabase.node.ts never
    raises once its input has passed validation: for a positive batch
    size, whatever the driver answers or raises, a result is returned. *)
Theorem bulkInsert_continueOnError_returns (fuel : nat)
  (self : Node.BulkOperations) (tableName : string) (rows : list Row)
  (batchSize : option Z) (autoCommit : option bool)
  (whereColumns : option (list string)) (w : World) :
  0 < or_else batchSize (Node.defaultBatchSize self) ->
  rows <> [] ->
  rectangular rows (keys (hd [] rows)) ->
  or_else autoCommit true = true ->
  (List.length rows <= fuel)%nat ->
  exists r w',
    Node.bulkInsert fuel self tableName rows
      (mkBulkOptions batchSize (Some true) autoCommit whereColumns) w
    = Some (Ok r, w')
    /\ totalRows r = len rows.
Proof.
  intros Hb Hne Hrect Hac Hfuel.
  destruct rows as [|first rest]; [contradiction|].
  unfold Node.bulkInsert, now.
  cbn [opt_batchSize opt_continueOnError opt_autoCommit or_else hd] in *.
  apply (proj2 (validate_from_None _ _ 0)) in Hrect.
  unfold Node.validateDataStructure. rewrite Hrect.
  unfold Node.run_batches.
  match goal with
  | |- context [for_batches fuel ?n ?b ?body 0 ?fr0] =>
      destruct (for_batches_total (first :: rest) b body Hb fuel 0 fr0)
        as [out Hout]; [lia|unfold len; lia|];
      pose proof (for_batches_rule n b body (fun _ _ => True)
                    (fun _ _ => False) Hb) as Hrule
  end.
  rewrite Hout.
  eapply Hrule in Hout; [| |lia|exact I].
  - destruct out as [[[]|e] fr]; [|contradiction].
    unfold Node.finish. rewrite Hac. simpl. do 2 eexists.
    split; reflexivity.
  - intros i s _ _.
    rewrite Hac.
    match goal with |- context [Node.batch_body ?a ?b true ?c ?d ?e ?f ?g] =>
      destruct (Node_batch_body_continue a b c d e f g) as (fr' & E);
      rewrite E end.
    exact I.
Qed.

Lemma bulkInsert_continueOnError_returns_witness :
  exists r w',
    Node.bulkInsert 3 (Node.new_BulkOperations None) "T" three_rows
      (mkBulkOptions (Some 2) (Some true) None None)
      (world_of [Raise deadlock; fine; Raise deadlock])
    = Some (Ok r, w')
    /\ totalRows r = len three_rows.
Proof.
  apply (bulkInsert_continueOnError_returns 3 (Node.new_BulkOperations None)
           "T" three_rows (Some 2) None None
           (world_of [Raise deadlock; fine; Raise deadlock])).
  - reflexivity.
  - discriminate.
  - intros row Hrow col Hcol. simpl in Hrow, Hcol.
    destruct Hcol as [<-|[]].
    destruct Hrow as [<-|[<-|[<-|[]]]]; reflexivity.
  - reflexivity.
  - apply le_n.
Defined.

(** With [continueOnError], against a driver that raises neither [null]
    nor [undefined], the body of the loop of part_003 goes on. *)
Lemma Lib_batch_body_continue (rows : list Row) (batchSize : Z)
  (autoCommit : bool) (statement : string) (columns : list string)
  (i : Z) (fr : Lib.Frame) :
  (forall k e, driver (Lib.env fr) k = Raise e -> nullish e = false) ->
  exists fr',
    Lib.batch_body rows batchSize true autoCommit statement columns i fr
    = (Ok tt, fr')
    /\ driver (Lib.env fr') = driver (Lib.env fr).
Proof.
  intros Hnn. lib_body.
  destruct (driver (Lib.env fr) (List.length (calls (Lib.env fr))))
    as [res|e] eqn:Hreply.
  - destruct (batchErrors res) as [[|first more]|].
    2: { match goal with |- context [Lib.record_row_errors ?k ?l ?x] =>
           destruct (Lib_record_row_errors k l x) as (f1 & E & Q1 & _);
           rewrite E end.
         cbn [Lib.env] in Q1.
         destruct autoCommit; simpl;
           [|eexists; split; [reflexivity|rewrite Q1; reflexivity]].
         rewrite Q1. cbn [driver calls].
         destruct (driver (Lib.env fr) (List.length (_ ++ _))) as [rc|t]
           eqn:Hcommit; simpl; [eexists; split; reflexivity|].
         match goal with |- context [Lib.record_batch_failure ?b ?k ?e ?x] =>
           destruct (Lib_record_batch_failure b k e x)
             as (r2 & f2 & E2 & (Q2 & _) & _ & Hok);
           rewrite E2 end.
         rewrite (Hok (Hnn _ _ Hcommit)).
         eexists. split; [reflexivity|]. rewrite Q2. reflexivity. }
    all: destruct autoCommit; simpl; [|eexists; split; reflexivity];
      destruct (driver (Lib.env fr) (List.length (_ ++ _))) as [rc|t]
        eqn:Hcommit; simpl; [eexists; split; reflexivity|];
      match goal with |- context [Lib.record_batch_failure ?b ?k ?e ?x] =>
        destruct (Lib_record_batch_failure b k e x)
          as (r2 & f2 & E2 & (Q2 & _) & _ & Hok);
        rewrite E2 end;
      rewrite (Hok (Hnn _ _ Hcommit));
      eexists; (split; [reflexivity|]); rewrite Q2; reflexivity.
  - simpl.
    match goal with |- context [Lib.record_batch_failure ?b ?k ?e ?x] =>
      destruct (Lib_record_batch_failure b k e x)
        as (r2 & f2 & E2 & (Q2 & _) & _ & Hok);
      rewrite E2 end.
    rewrite (Hok (Hnn _ _ Hreply)).
    eexists. split; [reflexivity|]. rewrite Q2. reflexivity.
Qed.

Lemma for_batches_never_ends {S : Type} (length batchSize : Z)
  (body : Z -> M S unit) (I : S -> Prop) :
  batchSize <= 0 ->
  (forall i s, I s -> exists s', body i s = (Ok tt, s') /\ I s') ->
  forall fuel i s,
    I s -> i < length -> for_batches fuel length batchSize body i s = None.
Proof.
  intros Hb Hbody. induction fuel as [|fuel IH]; intros i s HI Hi; simpl;
    (replace (i <? length) with true by (symmetry; apply Z.ltb_lt; lia));
    [reflexivity|].
  destruct (Hbody i s HI) as (s' & -> & HI'). apply IH; [exact HI'|lia].
Qed.

(** X18. A batch size that is not positive, passed in the options, is
    used as it is, and with [continueOnError: true] the batch loop then
    never ends: on a non-empty input, however many iterations are
    allowed, the call has neither returned nor raised.  This holds for
    [bulkInsert] of OracleDatabase.node.ts whatever the driver does,
    and for [bulkInsert] of part_003 as long as the driver raises
    neither [null] nor [undefined] (reading the [message] of such a
    value raises, which ends the call). *)
Theorem nonpositive_batch_size_never_ends (batchSize : Z)
  (tableName : string) (rows : list Row) (autoCommit : option bool)
  (whereColumns : option (list string)) (w : World) :
  batchSize <= 0 ->
  rows <> [] ->
  forall fuel,
    (rectangular rows (keys (hd [] rows)) ->
     forall self,
       Node.bulkInsert fuel self tableName rows
         (mkBulkOptions (Some batchSize) (Some true) autoCommit whereColumns)
         w = None)
    /\ ((forall k e, driver w k = Raise e -> nullish e = false) ->
        forall self,
          Lib.bulkInsert fuel self tableName rows
            (mkBulkOptions (Some batchSize) (Some true) autoCommit
                           whereColumns) w = None).
Proof.
  intros Hb Hne fuel.
  destruct rows as [|first rest]; [contradiction|].
  assert (Hlen : 0 < len (first :: rest)) by (unfold len; simpl; lia).
  split.
  - intros Hrect self. unfold Node.bulkInsert, now, Node.run_batches.
    cbn [opt_batchSize opt_continueOnError opt_autoCommit or_else hd] in *.
    apply (proj2 (validate_from_None _ _ 0)) in Hrect.
    unfold Node.validateDataStructure. rewrite Hrect.
    rewrite (for_batches_never_ends _ _ _ (fun _ => True));
      [reflexivity|assumption| |exact I|assumption].
    intros i s _.
    match goal with |- context [Node.batch_body ?a ?b true ?c ?d ?e i s] =>
      destruct (Node_batch_body_continue a b c d e i s) as (fr' & E) end.
    exists fr'. split; [exact E|exact I].
  - intros Hnn self. unfold Lib.bulkInsert, now.
    cbn [opt_batchSize opt_continueOnError opt_autoCommit or_else].
    rewrite (for_batches_never_ends _ _ _
               (fun fr => driver (Lib.env fr) = driver w));
      [reflexivity|assumption| |reflexivity|assumption].
    intros i s Hd.
    match goal with |- context [Lib.batch_body ?a ?b true ?c ?d ?e i s] =>
      destruct (Lib_batch_body_continue a b c d e i s) as (fr' & E & Hd')
    end.
    + intros k e. rewrite Hd. apply Hnn.
    + exists fr'. split; [exact E|]. rewrite Hd'. exact Hd.
Qed.

Lemma nonpositive_batch_size_never_ends_witness :
  (forall self,
      Node.bulkInsert 1000 self "T" three_rows
        (mkBulkOptions (Some (-1)) (Some true) None None)
        (world_of [Raise (NonError Null)]) = None)
  /\ (forall self,
        Lib.bulkInsert 1000 self "T" three_rows
          (mkBulkOptions (Some (-1)) (Some true) None None)
          (world_of [Raise deadlock]) = None).
Proof.
  split.
  - apply (nonpositive_batch_size_never_ends (-1) "T" three_rows None None
             (world_of [Raise (NonError Null)])).
    + discriminate.
    + discriminate.
    + intros row Hrow col Hcol. simpl in Hrow, Hcol.
      destruct Hcol as [<-|[]].
      destruct Hrow as [<-|[<-|[<-|[]]]]; reflexivity.
  - apply (nonpositive_batch_size_never_ends (-1) "T" three_rows None None
             (world_of [Raise deadlock])).
    + discriminate.
    + discriminate.
    + intros k e. unfold world_of, scripted. simpl.
      destruct k as [|[|k]]; simpl; intros [= <-]; reflexivity.
Defined.

(** Against a driver that rejects with [null], part_003 does end: with
    batch size -1 the first slice holds two rows, and reading the
    [message] of [null] raises. *)
Lemma null_rejection_ends_the_loop :
  exists w',
    Lib.bulkInsert 1000 (Lib.new_BulkOperations None) "T" three_rows
      (mkBulkOptions (Some (-1)) (Some true) None None)
      (world_of [Raise (NonError Null)])
    = Some (Throw (ErrorObj TypeError
                     "Cannot read properties of null (reading 'message')"),
            w').
Proof.
  remember (Lib.bulkInsert _ _ _ _ _ _) as out eqn:E.
  vm_compute in E. subst out. eexists. reflexivity.
Qed.

(** ** A run without failures *)

Lemma count_calls_snoc (p : Call -> bool) (log : list Call) (c : Call) :
  count_calls p (log ++ [c]) = count_calls p log + (if p c then 1 else 0).
Proof.
  unfold count_calls, len. rewrite filter_app, length_app. simpl.
  destruct (p c); simpl; lia.
Qed.

Lemma len_firstn_step {A : Type} (l : list A) (i b : Z) :
  0 <= i < len l -> 0 < b ->
  len (firstn (Z.to_nat (i + b)) l)
  = len (firstn (Z.to_nat i) l) + len (slice l i (i + b)).
Proof.
  intros Hi Hb. rewrite slice_batch by lia. unfold len in *.
  rewrite !length_firstn, length_skipn. lia.
Qed.

Lemma Node_run_batches_all_success (fuel : nat) (kind : string)
  (rows : list Row) (batchSize : Z) (continueOnError autoCommit : bool)
  (statement : string) (bind_row : Row -> Binds) (startTime : Z) (w : World) :
  0 < batchSize -> 0 < len rows -> (List.length rows <= fuel)%nat ->
  never_raises w -> no_row_errors w ->
  exists r w',
    Node.run_batches fuel kind rows batchSize continueOnError autoCommit
                     statement bind_row startTime w = Some (Ok r, w')
    /\ totalRows r = len rows
    /\ successfulRows r = len rows
    /\ failedRows r = 0
    /\ errors r = []
    /\ batchCount r = ceil_div (len rows) batchSize
    /\ count_calls is_Commit (calls w')
       = count_calls is_Commit (calls w)
         + (if autoCommit then batchCount r else 1).
Proof.
  intros Hb Hn Hfuel Hnever Hquiet.
  destruct (Node_run_batches_partition fuel kind rows batchSize
              continueOnError autoCommit statement bind_row startTime w
              Hb Hn Hfuel) as (out & Hout & Hpart).
  rewrite Hout. unfold Node.run_batches in Hout.
  set (body := Node.batch_body rows batchSize continueOnError autoCommit
                               statement bind_row) in *.
  set (fr0 := Node.mkFrame w 0 0 [] 0) in *.
  destruct (for_batches fuel (len rows) batchSize body 0 fr0)
    as [[res fr]|] eqn:Hloop; [|discriminate].
  pose (I := fun (i : Z) (fr : Node.Frame) =>
    driver (Node.env fr) = driver w
    /\ Node.totalErrors fr = 0 /\ Node.errs fr = []
    /\ Node.totalSuccess fr = len (firstn (Z.to_nat i) rows)
    /\ count_calls is_Commit (calls (Node.env fr))
       = count_calls is_Commit (calls w)
         + (if autoCommit then Node.batches fr else 0)).
  apply (for_batches_rule (len rows) batchSize body I (fun _ _ => False) Hb)
    in Hloop; [| |lia|].
  - destruct res as [[]|e]; [|contradiction].
    destruct Hloop as (j & Hj & Hd & He & Herrs & Hs & Hc).
    assert (Hall : Node.totalSuccess fr = len rows).
    { rewrite Hs. rewrite firstn_all2; [reflexivity|unfold len in Hj; lia]. }
    revert Hout. unfold Node.finish, send, now. rewrite Hall.
    replace (0 <? len rows) with true by (symmetry; apply Z.ltb_lt; lia).
    destruct autoCommit; simpl.
    + intros H; inversion H; subst; clear H.
      destruct (Hpart _ _ eq_refl) as (slices & _ & Hlen & Hcount & _).
      do 2 eexists. split; [reflexivity|]. simpl in *.
      repeat split; try assumption; congruence.
    + destruct (Hnever (List.length (calls (Node.env fr)))) as [rc Hrc].
      rewrite Hd, Hrc.
      intros H; inversion H; subst; clear H.
      destruct (Hpart _ _ eq_refl) as (slices & _ & Hlen & Hcount & _).
      do 2 eexists. split; [reflexivity|]. simpl in *.
      repeat split; try assumption; try congruence.
      rewrite count_calls_snoc, Hc. simpl. lia.
  - intros i fr1 Hi (Hd & He & Herrs & Hs & Hc). unfold body. node_body.
    rewrite Hd.
    destruct (Hnever (List.length (calls (Node.env fr1)))) as [r1 Hr1].
    rewrite Hr1.
    assert (Hb1 : batchErrors r1 = None \/ batchErrors r1 = Some [])
      by (eapply Hquiet; eauto).
    assert (Hstep : Node.totalSuccess fr1 + len (slice rows i (i + batchSize))
                    = len (firstn (Z.to_nat (i + batchSize)) rows))
      by (rewrite Hs, len_firstn_step by lia; reflexivity).
    destruct Hb1 as [-> | ->]; simpl; destruct autoCommit; simpl;
      try (destruct (Hnever (List.length
                               (calls (Node.env fr1)
                                ++ [ExecuteMany statement
                                      (map bind_row
                                           (slice rows i (i + batchSize)))
                                      continueOnError]))) as [r2 Hr2];
           rewrite Hr2; simpl);
      unfold I; simpl; rewrite ?count_calls_snoc, ?Hc; simpl;
      repeat split; try assumption; try lia.
  - unfold I, fr0. simpl. repeat split. destruct autoCommit; lia.
Qed.

Ltac via_run_batches Hb Hn Hfuel Hnever Hquiet :=
  match goal with
  | |- all_succeeded _ _ _ _
         (Node.run_batches ?f ?k ?r ?b ?c ?a ?s ?br ?st ?w0) =>
      let r0 := fresh "r" in
      let w' := fresh "w" in
      let E := fresh "E" in
      let H := fresh "H" in
      destruct (Node_run_batches_all_success f k r b c a s br st w0
                  Hb Hn Hfuel Hnever Hquiet) as (r0 & w' & E & H);
      exists r0, w'; split; [exact E|exact H]
  end.

(** X19. A bulk call of OracleDatabase.node.ts on which nothing fails
    (the driver never raises and reports no row errors), with a
    positive batch size and a non-empty input: it returns
    [successfulRows = totalRows], [failedRows = 0], no error entries
    and [batchCount = ceil(N/B)], and the commits it sent number one
    per batch under [autoCommit] and exactly one, at the end,
    otherwise.  This holds for [bulkInsert] on rows that carry the
    columns of the first, for [bulkDelete] with [whereColumns], and for
    [bulkUpdate] with [whereColumns] that leave a column to set. *)
Theorem bulk_all_succeeded (fuel : nat) (self : Node.BulkOperations)
  (tableName : string) (first : Row) (rest : list Row)
  (options : BulkInsertOptions) (w : World) :
  let rows := first :: rest in
  let size := or_else (opt_batchSize options) (Node.defaultBatchSize self) in
  let autoCommit := or_else (opt_autoCommit options) true in
  0 < size -> (List.length rows <= fuel)%nat ->
  never_raises w -> no_row_errors w ->
  (rectangular rows (keys first) ->
   all_succeeded rows size autoCommit w
     (Node.bulkInsert fuel self tableName rows options w))
  /\ (Node.missing (opt_whereColumns options) = false ->
      all_succeeded rows size autoCommit w
        (Node.bulkDelete fuel self tableName rows options w))
  /\ (Node.missing (opt_whereColumns options) = false ->
      (exists col, In col (keys first)
                   /\ arr_includes (or_else (opt_whereColumns options) []) col
                      = false) ->
      all_succeeded rows size autoCommit w
        (Node.bulkUpdate fuel self tableName rows options w)).
Proof.
  intros rows size autoCommit. subst rows size autoCommit.
  intros Hb Hfuel Hnever Hquiet.
  assert (Hn : 0 < len (first :: rest)) by (unfold len; simpl; lia).
  assert (Hnever' : never_raises (snd (now w))) by exact Hnever.
  assert (Hquiet' : no_row_errors (snd (now w))) by exact Hquiet.
  split; [|split].
  - intros Hrect. unfold Node.bulkInsert, now.
    apply (proj2 (validate_from_None _ _ 0)) in Hrect.
    unfold Node.validateDataStructure. rewrite Hrect.
    via_run_batches Hb Hn Hfuel Hnever' Hquiet'.
  - intros Hwc. unfold Node.bulkDelete, now. rewrite Hwc.
    via_run_batches Hb Hn Hfuel Hnever' Hquiet'.
  - intros Hwc (col & Hin & Hnot). unfold Node.bulkUpdate, now. rewrite Hwc.
    destruct (filter _ (keys first)) as [|c cs] eqn:Hset.
    + exfalso.
      assert (Hcol : In col (filter
                (fun col => negb (arr_includes
                                    (or_else (opt_whereColumns options) [])
                                    col)) (keys first)))
        by (apply filter_In; split; [assumption|now rewrite Hnot]).
      rewrite Hset in Hcol. destruct Hcol.
    + via_run_batches Hb Hn Hfuel Hnever' Hquiet'.
Qed.

Lemma bulk_all_succeeded_witness :
  all_succeeded three_rows 2 true (world_of [])
    (Node.bulkInsert 3 (Node.new_BulkOperations None) "T" three_rows
                     (mkBulkOptions (Some 2) None None None) (world_of [])).
Proof.
  apply (bulk_all_succeeded 3 (Node.new_BulkOperations None) "T"
           [("a", VNum 1)] [[("a", VNum 2)]; [("a", VNum 3)]]
           (mkBulkOptions (Some 2) None None None) (world_of [])).
  - reflexivity.
  - apply le_n.
  - intros k. unfold world_of, scripted. simpl. exists (mkDriverResult None None).
    destruct k as [|k]; reflexivity.
  - intros k r. unfold world_of, scripted. simpl.
    destruct k as [|k]; intros [= <-]; auto.
  - intros row Hrow col Hcol. simpl in Hrow, Hcol.
    destruct Hcol as [<-|[]].
    destruct Hrow as [<-|[<-|[<-|[]]]]; reflexivity.
Defined.

(** ** What the bulk methods send *)

Section NodeSends.
Context (p : Call -> bool).

Lemma node_sends_refl (fr : Node.Frame) : node_sends p fr fr.
Proof. apply sends_only_refl. Qed.

Lemma node_sends_trans (a b c : Node.Frame) :
  node_sends p a b -> node_sends p b c -> node_sends p a c.
Proof. apply sends_only_trans. Qed.

Lemma Effect_Node_conn (c : Call) :
  p c = true -> Effect (node_sends p) (Node.conn c).
Proof.
  intros Hp fr. unfold Node.conn.
  pose proof (sends_only_send p c (Node.env fr) Hp) as H.
  destruct (send c (Node.env fr)) as [[r|e] w]; exact H.
Qed.

Lemma Effect_Node_modify (f : Node.Frame -> Node.Frame) :
  (forall fr, Node.env (f fr) = Node.env fr) ->
  Effect (node_sends p) (modify f).
Proof.
  intros Hf fr. unfold modify, node_sends. simpl. rewrite Hf.
  apply sends_only_refl.
Qed.

Lemma lib_sends_refl (fr : Lib.Frame) : lib_sends p fr fr.
Proof. apply sends_only_refl. Qed.

Lemma lib_sends_trans (a b c : Lib.Frame) :
  lib_sends p a b -> lib_sends p b c -> lib_sends p a c.
Proof. apply sends_only_trans. Qed.

Lemma Effect_Lib_conn (c : Call) :
  p c = true -> Effect (lib_sends p) (Lib.conn c).
Proof.
  intros Hp fr. unfold Lib.conn.
  pose proof (sends_only_send p c (Lib.env fr) Hp) as H.
  destruct (send c (Lib.env fr)) as [[r|e] w]; exact H.
Qed.

Lemma Effect_Lib_modify (f : Lib.Frame -> Lib.Frame) :
  (forall fr, Lib.env (f fr) = Lib.env fr) ->
  Effect (lib_sends p) (modify f).
Proof.
  intros Hf fr. unfold modify, lib_sends. simpl. rewrite Hf.
  apply sends_only_refl.
Qed.
End NodeSends.

Ltac node_effects p :=
  effects (node_sends_refl p) (node_sends_trans p);
  try (apply Effect_Node_conn; reflexivity);
  try (apply Effect_Node_modify; intros; reflexivity).

Ltac lib_effects p :=
  effects (lib_sends_refl p) (lib_sends_trans p);
  try (apply Effect_Lib_conn; reflexivity);
  try (apply Effect_Lib_modify; intros; reflexivity).

Lemma Node_batch_body_sends (rows : list Row) (batchSize : Z)
  (continueOnError autoCommit : bool) (statement : string)
  (bind_row : Row -> Binds) (i : Z) :
  Effect (node_sends is_batch_call)
         (Node.batch_body rows batchSize continueOnError autoCommit statement
                          bind_row i).
Proof.
  unfold Node.batch_body, Node.incr_batchCount, Node.record_row_errors,
    Node.add_success, Node.add_errors, Node.push_error.
  node_effects is_batch_call.
  all: apply (Effect_for_of _ (node_sends_refl _) (node_sends_trans _));
    intros x; node_effects is_batch_call.
Qed.

Lemma Lib_batch_body_sends (rows : list Row) (batchSize : Z)
  (continueOnError autoCommit : bool) (statement : string)
  (columns : list string) (i : Z) :
  Effect (lib_sends is_batch_call)
         (Lib.batch_body rows batchSize continueOnError autoCommit statement
                         columns i).
Proof.
  unfold Lib.batch_body, Lib.incr_batchCount, Lib.record_row_errors,
    Lib.record_batch_failure, Lib.add_successful, Lib.add_failed,
    Lib.push_error.
  lib_effects is_batch_call.
  all: apply (Effect_for_of _ (lib_sends_refl _) (lib_sends_trans _));
    intros x; lib_effects is_batch_call.
Qed.

Lemma Node_run_batches_sends (fuel : nat) (kind : string) (rows : list Row)
  (batchSize : Z) (continueOnError autoCommit : bool) (statement : string)
  (bind_row : Row -> Binds) (startTime : Z) (w w' : World)
  (r : Res BulkOperationResult) :
  Node.run_batches fuel kind rows batchSize continueOnError autoCommit
                   statement bind_row startTime w = Some (r, w') ->
  sends_only is_batch_call w w'.
Proof.
  unfold Node.run_batches.
  destruct (for_batches _ _ _ _ _ _) as [[res fr]|] eqn:Hloop;
    [|discriminate].
  apply (Effect_for_batches _ (node_sends_refl is_batch_call)
           (node_sends_trans is_batch_call)) in Hloop;
    [|intros i; apply Node_batch_body_sends].
  unfold node_sends in Hloop. simpl in Hloop.
  destruct res as [[]|e].
  - unfold Node.finish.
    destruct (negb autoCommit && (0 <? Node.totalSuccess fr)).
    + pose proof (sends_only_send is_batch_call Commit (Node.env fr) eq_refl)
        as Hc.
      destruct (send Commit (Node.env fr)) as [[rc|e] w1]; simpl in Hc;
        intros H; inversion H; subst; clear H.
      * eapply sends_only_trans; [exact Hloop|].
        eapply sends_only_trans; [exact Hc|apply sends_only_now].
      * eapply sends_only_trans; eassumption.
    + intros H; inversion H; subst; clear H.
      eapply sends_only_trans; [exact Hloop|apply sends_only_now].
  - intros H; inversion H; subst. exact Hloop.
Qed.

(** X20. No batched bulk method ever sends a rollback, nor a single
    statement: whatever the driver answers, and whether they return or
    raise, [bulkInsert], [bulkUpdate] and [bulkDelete] of
    OracleDatabase.node.ts and [bulkInsert] of part_003 only add
    [executeMany] and [commit] calls to what the connection received.
    After a failure the rows of earlier batches are left as they were
    sent. *)
Theorem bulk_methods_never_roll_back (fuel : nat) (tableName : string)
  (rows : list Row) (options : BulkInsertOptions) (w w' : World) :
  (exists self r,
      Node.bulkInsert fuel self tableName rows options w = Some (r, w')
      \/ Node.bulkUpdate fuel self tableName rows options w = Some (r, w')
      \/ Node.bulkDelete fuel self tableName rows options w = Some (r, w'))
  \/ (exists self r,
        Lib.bulkInsert fuel self tableName rows options w = Some (r, w')) ->
  sends_only is_batch_call w w'.
Proof.
  intros [(self & r & [H|[H|H]])|(self & r & H)]; revert H.
  - unfold Node.bulkInsert.
    pose proof (sends_only_now is_batch_call w) as Hnow.
    destruct (now w) as [t w1]. simpl in Hnow.
    destruct rows as [|first rest];
      [intros H; inversion H; subst; exact Hnow|].
    destruct (Node.validateDataStructure _ _);
      [intros H; inversion H; subst; exact Hnow|].
    intros H. apply Node_run_batches_sends in H.
    eapply sends_only_trans; eassumption.
  - unfold Node.bulkUpdate.
    pose proof (sends_only_now is_batch_call w) as Hnow.
    destruct (now w) as [t w1]. simpl in Hnow.
    destruct (Node.missing _);
      [intros H; inversion H; subst; exact Hnow|].
    destruct rows as [|first rest];
      [intros H; inversion H; subst; exact Hnow|].
    destruct (filter _ _);
      [intros H; inversion H; subst; exact Hnow|].
    intros H. apply Node_run_batches_sends in H.
    eapply sends_only_trans; eassumption.
  - unfold Node.bulkDelete.
    pose proof (sends_only_now is_batch_call w) as Hnow.
    destruct (now w) as [t w1]. simpl in Hnow.
    destruct (Node.missing _);
      [intros H; inversion H; subst; exact Hnow|].
    destruct rows as [|first rest];
      [intros H; inversion H; subst; exact Hnow|].
    intros H. apply Node_run_batches_sends in H.
    eapply sends_only_trans; eassumption.
  - unfold Lib.bulkInsert.
    pose proof (sends_only_now is_batch_call w) as Hnow.
    destruct (now w) as [t w1]. simpl in Hnow.
    destruct (for_batches _ _ _ _ _ _) as [[res fr]|] eqn:Hloop;
      [|discriminate].
    apply (Effect_for_batches _ (lib_sends_refl is_batch_call)
             (lib_sends_trans is_batch_call)) in Hloop;
      [|intros i; apply Lib_batch_body_sends].
    unfold lib_sends in Hloop. simpl in Hloop.
    assert (H1 : sends_only is_batch_call w (Lib.env fr))
      by (eapply sends_only_trans; eassumption).
    destruct res as [[]|e].
    + unfold Lib.finish.
      destruct (_ && _).
      * pose proof (sends_only_send is_batch_call Commit (Lib.env fr) eq_refl)
          as Hc.
        destruct (send Commit (Lib.env fr)) as [[rc|e] w2]; simpl in Hc;
          intros H; inversion H; subst; clear H.
        -- eapply sends_only_trans; [exact H1|].
           eapply sends_only_trans; [exact Hc|apply sends_only_now].
        -- eapply sends_only_trans; eassumption.
      * intros H; inversion H; subst; clear H.
        eapply sends_only_trans; [exact H1|apply sends_only_now].
    + intros H; inversion H; subst. exact H1.
Qed.

Lemma bulk_methods_never_roll_back_witness :
  exists r w',
    Node.bulkInsert 3 (Node.new_BulkOperations None) "T" three_rows
                    (mkBulkOptions (Some 2) None None None)
                    (world_of [fine; fine; Raise deadlock])
    = Some (Throw r, w')
    /\ sends_only is_batch_call (world_of [fine; fine; Raise deadlock]) w'.
Proof.
  remember (Node.bulkInsert 3 (Node.new_BulkOperations None) "T" three_rows
              (mkBulkOptions (Some 2) None None None)
              (world_of [fine; fine; Raise deadlock])) as out eqn:E.
  pose proof E as E'. vm_compute in E'.
  match type of E' with
  | out = Some (Throw ?e, ?w1) => exists e, w1; split; [exact E'|]
  end.
  apply (bulk_methods_never_roll_back 3 "T" three_rows
           (mkBulkOptions (Some 2) None None None)
           (world_of [fine; fine; Raise deadlock])).
  left. eexists (Node.new_BulkOperations None), _. left.
  rewrite <- E. exact E'.
Defined.

(** ** The error list of part_003 *)

(** Every way through the body of the loop that does not raise adds as
    many entries to [errors] as it adds to [failed]. *)
Lemma Lib_batch_body_errors (rows : list Row) (batchSize : Z)
  (continueOnError autoCommit : bool) (statement : string)
  (columns : list string) (i : Z) (fr : Lib.Frame) :
  len (Lib.errs fr) = Lib.failed fr ->
  match Lib.batch_body rows batchSize continueOnError autoCommit statement
                       columns i fr with
  | (Ok _, fr') => len (Lib.errs fr') = Lib.failed fr'
  | (Throw _, _) => True
  end.
Proof.
  intros Hinv. lib_body.
  unfold Lib.record_row_errors.
  cbv [bind gets Lib.push_error modify].
  destruct (driver (Lib.env fr) _) as [res|e].
  - destruct (batchErrors res) as [[|first more]|].
    2: { match goal with |- context [for_of ?l ?b ?x] =>
           destruct (Lib_for_of_push l
                       (fun f err =>
                          mkBulkError (Lib.batches f - 1)
                            (i + or_else (offset err) 0)
                            (Some (str_or (error_message err) "Unknown"))
                            NoData) x)
             as (f1 & E & (Q1 & Q2 & Q3 & Q4) & L);
           cbv [bind gets Lib.push_error modify] in E; rewrite E end.
         simpl in Q1, Q2, Q3, Q4, L.
         destruct autoCommit; simpl; [|lia].
         destruct (driver (Lib.env f1) _) as [rc|t]; simpl; [lia|].
         destruct continueOnError; simpl; [|exact I].
         match goal with |- context [Lib.record_batch_failure ?b ?k ?e ?x] =>
           destruct (Lib_record_batch_failure b k e x)
             as ([[]|t2] & f2 & E2 & (R1 & R2 & R3 & R4) & L2 & _);
           rewrite E2 end; [|exact I].
         simpl in R1, R2, R3, R4, L2. unfold len in *. lia. }
    all: destruct autoCommit; simpl; [|lia];
      destruct (driver (Lib.env fr) _) as [rc|t]; simpl; [lia|];
      destruct continueOnError; simpl; [|exact I];
      match goal with |- context [Lib.record_batch_failure ?b ?k ?e ?x] =>
        destruct (Lib_record_batch_failure b k e x)
          as ([[]|t2] & f2 & E2 & (R1 & R2 & R3 & R4) & L2 & _);
        rewrite E2 end; [|exact I];
      simpl in R1, R2, R3, R4, L2; unfold len in *; lia.
  - simpl. destruct continueOnError; simpl; [|exact I].
    match goal with |- context [Lib.record_batch_failure ?b ?k ?e ?x] =>
      destruct (Lib_record_batch_failure b k e x)
        as ([[]|t2] & f2 & E2 & (R1 & R2 & R3 & R4) & L2 & _);
      rewrite E2 end; [|exact I].
    simpl in R1, R2, R3, R4, L2. unfold len in *. lia.
Qed.

Lemma for_batches_invariant {S : Type} (length batchSize : Z)
  (body : Z -> M S unit) (I : S -> Prop) (T : Thrown -> S -> Prop) :
  (forall i s, I s ->
     match body i s with
     | (Ok _, s') => I s'
     | (Throw e, s') => T e s'
     end) ->
  forall fuel i s out,
    I s -> for_batches fuel length batchSize body i s = Some out ->
    match out with
    | (Ok _, s') => I s'
    | (Throw e, s') => T e s'
    end.
Proof.
  intros Hstep. induction fuel as [|fuel IH]; intros i s out HI; simpl;
    destruct (i <? length); try discriminate;
    try (intros H; inversion H; subst; exact HI).
  specialize (Hstep i s HI).
  destruct (body i s) as [[v|e] s1].
  - intros H. exact (IH _ _ _ Hstep H).
  - intros H; inversion H; subst. exact Hstep.
Qed.

(** X21. Whenever [bulkInsert] of part_003 returns a result, its
    [errors] list has exactly [failedRows] entries, one per failed row,
    whatever the driver answered, and [success] says that the list is
    empty. *)
Theorem lib_errors_one_per_failed_row (fuel : nat)
  (self : Lib.BulkOperations) (tableName : string) (rows : list Row)
  (options : BulkInsertOptions) (w w' : World) (r : Lib.ServiceResult) :
  Lib.bulkInsert fuel self tableName rows options w = Some (Ok r, w') ->
  len (errors (Lib.sr_data r)) = failedRows (Lib.sr_data r)
  /\ (Lib.sr_success r = true <-> errors (Lib.sr_data r) = []).
Proof.
  unfold Lib.bulkInsert. destruct (now w) as [start w1].
  destruct (for_batches _ _ _ _ _ _) as [[[[]|e] fr]|] eqn:Hloop;
    try discriminate.
  apply (for_batches_invariant _ _ _
           (fun fr => len (Lib.errs fr) = Lib.failed fr)
           (fun _ _ => True)) in Hloop;
    [|intros i s; apply Lib_batch_body_errors|reflexivity].
  unfold Lib.finish.
  assert (Hempty : (Lib.failed fr =? 0) = true <-> Lib.errs fr = []).
  { rewrite Z.eqb_eq, <- Hloop. unfold len.
    destruct (Lib.errs fr); simpl; split; intros; try reflexivity;
      try discriminate; lia. }
  match goal with
  | |- context [if ?c then send Commit ?w0 else _] =>
      destruct c; [destruct (send Commit w0) as [[rc|e] w2]|]
  end; try discriminate.
  all: match goal with |- context [now ?w0] => destruct (now w0) as [t w3] end;
    intros H; inversion H; subst; clear H; simpl;
    split; [exact Hloop|exact Hempty].
Qed.

Lemma lib_errors_one_per_failed_row_witness :
  exists r w',
    Lib.bulkInsert 3 (Lib.new_BulkOperations None) "T" three_rows
                   scenario_options
                   (world_of [row_errors [1]; fine; Raise deadlock])
    = Some (Ok r, w')
    /\ len (errors (Lib.sr_data r)) = failedRows (Lib.sr_data r)
    /\ (Lib.sr_success r = true <-> errors (Lib.sr_data r) = [])
    /\ failedRows (Lib.sr_data r) = 2.
Proof.
  remember (Lib.bulkInsert 3 (Lib.new_BulkOperations None) "T" three_rows
              scenario_options
              (world_of [row_errors [1]; fine; Raise deadlock])) as out eqn:E.
  pose proof E as E'. vm_compute in E'.
  match type of E' with
  | out = Some (Ok ?r, ?w1) =>
      exists r, w1; split; [exact E'|];
      pose proof (lib_errors_one_per_failed_row 3 (Lib.new_BulkOperations None)
                    "T" three_rows scenario_options
                    (world_of [row_errors [1]; fine; Raise deadlock]) w1 r)
        as H
  end.
  rewrite <- E in H. specialize (H E').
  destruct H as [H1 H2]. split; [exact H1|]. split; [exact H2|].
  reflexivity.
Defined.

(** ** Failures without [continueOnError] in OracleDatabase.node.ts *)






(** ** [bulkUpsert] of OracleDatabase.node.ts *)

Lemma flat_map_rows_length {A B : Type} (f : A -> list B) (n : nat)
  (l : list A) :
  (forall x, List.length (f x) = n) ->
  List.length (flat_map f l) = (List.length l * n)%nat.
Proof.
  intros Hf. induction l as [|x rest IH]; simpl; [reflexivity|].
  rewrite length_app, Hf, IH. reflexivity.
Qed.

(** X23. [bulkUpsert] of OracleDatabase.node.ts does not batch: for a
    non-empty data array and given key columns it sends exactly one
    [execute], carrying one positional bind per row and column of the
    first row, with [autoCommit] on unless the option is [false], and
    never a [commit]; [batchSize] and [continueOnError] have no effect.
    An answer gives a result with [batchCount = 1], no failed row and
    the driver's [rowsAffected] (0 when absent) as [successfulRows]; a
    raise gives ["Erro no bulk upsert: "] and the driver's message. *)
Theorem bulkUpsert_single_statement (self : Node.BulkOperations)
  (tableName : string) (first : Row) (rest : list Row)
  (keyColumns : option (list string)) (options : BulkInsertOptions)
  (w : World) :
  Node.missing keyColumns = false ->
  let rows := first :: rest in
  let out := Node.bulkUpsert self tableName rows keyColumns options w in
  (exists statement binds,
      calls (snd out)
      = calls w ++ [Execute statement (Some (ByPosition binds))
                      (Some (match opt_autoCommit options with
                             | Some false => false
                             | _ => true
                             end))]
      /\ len binds = len rows * len (keys first))
  /\ match driver w (List.length (calls w)) with
     | Done r =>
         exists duration,
           fst out = Ok (mkResult "UPSERT" (len rows)
                           (or_else (rowsAffected r) 0) 0 1 duration [])
     | Raise e =>
         fst out = Throw (Error ("Erro no bulk upsert: " ++ errorMessage e))
     end
  /\ (forall batchSize continueOnError whereColumns,
        Node.bulkUpsert self tableName rows keyColumns
          (mkBulkOptions batchSize continueOnError (opt_autoCommit options)
                         whereColumns) w
        = out).
Proof.
  intros Hkeys rows out. subst rows out.
  unfold Node.bulkUpsert, now, send. rewrite Hkeys.
  cbn [opt_autoCommit driver calls clock ticks].
  destruct (driver w (List.length (calls w))) as [r|e]; cbn [fst snd calls].
  - split; [|split; [eexists; reflexivity|reflexivity]].
    do 2 eexists. split; [reflexivity|].
    unfold len. rewrite (flat_map_rows_length _ (List.length (keys first))).
    + rewrite Nat2Z.inj_mul. reflexivity.
    + intros row. apply length_map.
  - split; [|split; reflexivity].
    do 2 eexists. split; [reflexivity|].
    unfold len. rewrite (flat_map_rows_length _ (List.length (keys first))).
    + rewrite Nat2Z.inj_mul. reflexivity.
    + intros row. apply length_map.
Qed.

Lemma bulkUpsert_single_statement_witness :
  count_calls is_Execute
    (calls (snd (Node.bulkUpsert (Node.new_BulkOperations None) "T"
                   three_rows (Some ["a"]) scenario_options (world_of []))))
  = 1
  /\ exists statement binds,
      calls (snd (Node.bulkUpsert (Node.new_BulkOperations None) "T"
                    three_rows (Some ["a"]) scenario_options (world_of [])))
      = [Execute statement (Some (ByPosition binds)) (Some true)]
      /\ len binds = 3.
Proof.
  destruct (bulkUpsert_single_statement (Node.new_BulkOperations None) "T"
              [("a", VNum 1)] [[("a", VNum 2)]; [("a", VNum 3)]]
              (Some ["a"]) scenario_options (world_of []) eq_refl)
    as ((statement & binds & Hcalls & Hlen) & _).
  change ([("a", VNum 1)] :: [[("a", VNum 2)]; [("a", VNum 3)]])
    with three_rows in *.
  split.
  - rewrite Hcalls. reflexivity.
  - exists statement, binds. split; [exact Hcalls|exact Hlen].
Defined.

(** ** The commits of part_003 *)

(** X24. A [bulkInsert] of part_003 on which nothing fails, with a
    positive batch size and a non-empty input, returns [success],
    [successfulRows = totalRows], no failed row and no error entry, and
    has sent one [executeMany] per batch.  Its commits number one per
    batch under [autoCommit] plus one more at the end whenever the
    [autoCommit] option is absent or [false]: with the option left out
    it commits once more than there are batches. *)
Theorem lib_all_succeeded_commits (fuel : nat) (self : Lib.BulkOperations)
  (tableName : string) (first : Row) (rest : list Row)
  (options : BulkInsertOptions) (w : World) :
  let rows := first :: rest in
  0 < or_else (opt_batchSize options) (Lib.defaultBatchSize self) ->
  (List.length rows <= fuel)%nat ->
  never_raises w -> no_row_errors w ->
  exists r w',
    Lib.bulkInsert fuel self tableName rows options w = Some (Ok r, w')
    /\ Lib.sr_success r = true
    /\ totalRows (Lib.sr_data r) = len rows
    /\ successfulRows (Lib.sr_data r) = len rows
    /\ failedRows (Lib.sr_data r) = 0
    /\ errors (Lib.sr_data r) = []
    /\ count_calls is_ExecuteMany (calls w')
       = count_calls is_ExecuteMany (calls w) + batchCount (Lib.sr_data r)
    /\ count_calls is_Commit (calls w')
       = count_calls is_Commit (calls w)
         + (if or_else (opt_autoCommit options) true
            then batchCount (Lib.sr_data r) else 0)
         + (if Lib.not_given_or_false (opt_autoCommit options)
            then 1 else 0).
Proof.
  intros rows Hb Hfuel Hnever Hquiet. subst rows.
  assert (Hn : 0 < len (first :: rest)) by (unfold len; simpl; lia).
  unfold Lib.bulkInsert, now.
  set (rows := first :: rest) in *.
  set (size := or_else (opt_batchSize options) (Lib.defaultBatchSize self))
    in *.
  set (continueOnError := or_else (opt_continueOnError options) false).
  set (autoCommit := or_else (opt_autoCommit options) true).
  match goal with
  | |- context [for_batches fuel (len rows) size ?b 0 ?f] =>
      set (body := b); set (fr0 := f)
  end.
  destruct (for_batches_total rows size body Hb fuel 0 fr0)
    as [[res fr] Hloop]; [lia|unfold len in *; lia|].
  rewrite Hloop.
  pose (I := fun (i : Z) (fr : Lib.Frame) =>
    driver (Lib.env fr) = driver w
    /\ Lib.failed fr = 0 /\ Lib.errs fr = []
    /\ Lib.successful fr = len (firstn (Z.to_nat i) rows)
    /\ count_calls is_ExecuteMany (calls (Lib.env fr))
       = count_calls is_ExecuteMany (calls w) + Lib.batches fr
    /\ count_calls is_Commit (calls (Lib.env fr))
       = count_calls is_Commit (calls w)
         + (if autoCommit then Lib.batches fr else 0)).
  apply (for_batches_rule (len rows) size body I (fun _ _ => False) Hb)
    in Hloop; [| |lia|].
  - destruct res as [[]|e]; [|contradiction].
    destruct Hloop as (j & Hj & Hd & He & Herrs & Hs & Hm & Hc).
    assert (Hall : Lib.successful fr = len rows).
    { rewrite Hs. rewrite firstn_all2; [reflexivity|unfold len in Hj; lia]. }
    unfold Lib.finish, send, now. rewrite Hall.
    replace (0 <? len rows) with true by (symmetry; apply Z.ltb_lt; lia).
    destruct (Lib.not_given_or_false (opt_autoCommit options)); simpl.
    + destruct (Hnever (List.length (calls (Lib.env fr)))) as [rc Hrc].
      rewrite Hd, Hrc.
      do 2 eexists. split; [reflexivity|]. simpl.
      rewrite He, Herrs, !count_calls_snoc, Hm, Hc. simpl.
      repeat split; lia.
    + do 2 eexists. split; [reflexivity|]. simpl.
      rewrite He, Herrs, Hm, Hc.
      repeat split; lia.
  - intros i fr1 Hi (Hd & He & Herrs & Hs & Hm & Hc). unfold body. lib_body.
    rewrite Hd.
    destruct (Hnever (List.length (calls (Lib.env fr1)))) as [r1 Hr1].
    rewrite Hr1.
    assert (Hb1 : batchErrors r1 = None \/ batchErrors r1 = Some [])
      by (eapply Hquiet; eauto).
    assert (Hstep : Lib.successful fr1 + len (slice rows i (i + size))
                    = len (firstn (Z.to_nat (i + size)) rows))
      by (rewrite Hs, len_firstn_step by lia; reflexivity).
    destruct Hb1 as [-> | ->]; simpl; destruct autoCommit; simpl;
      try (match goal with
           | |- context [driver w (List.length ?l)] =>
               destruct (Hnever (List.length l)) as [r2 Hr2];
               rewrite Hr2; simpl
           end);
      unfold I; simpl; rewrite ?count_calls_snoc, ?Hm, ?Hc; simpl;
      repeat split; try assumption; try lia.
  - unfold I, fr0. simpl. repeat split; try lia. destruct autoCommit; lia.
Qed.

Lemma lib_all_succeeded_commits_witness :
  exists r w',
    Lib.bulkInsert 3 (Lib.new_BulkOperations None) "T" three_rows
                   (mkBulkOptions (Some 2) None None None) (world_of [])
    = Some (Ok r, w')
    /\ successfulRows (Lib.sr_data r) = 3
    /\ count_calls is_Commit (calls w') = batchCount (Lib.sr_data r) + 1.
Proof.
  destruct (lib_all_succeeded_commits 3 (Lib.new_BulkOperations None) "T"
              [("a", VNum 1)] [[("a", VNum 2)]; [("a", VNum 3)]]
              (mkBulkOptions (Some 2) None None None) (world_of []))
    as (r & w' & E & _ & _ & Hs & _ & _ & _ & Hc).
  - reflexivity.
  - apply le_n.
  - intros k. unfold world_of, scripted. simpl.
    exists (mkDriverResult None None). destruct k as [|k]; reflexivity.
  - intros k r. unfold world_of, scripted. simpl.
    destruct k as [|k]; intros [= <-]; auto.
  - exists r, w'. split; [exact E|]. split; [exact Hs|exact Hc].
Defined.

(** ** What part_003 raises *)

Lemma Lib_sent_quiet (w : World) (a b : Lib.Frame) :
  Lib_quiet a b -> Lib_sent w a -> Lib_sent w b.
Proof.
  intros (Q & _) (added & Hc & Hd). exists added. rewrite Q. split; assumption.
Qed.

Lemma Lib_sent_send (w : World) (fr : Lib.Frame) (c : Call) (s f : Z)
  (errs : list BulkError) (b : Z) :
  Lib_sent w fr ->
  Lib_sent w (Lib.mkFrame (snd (send c (Lib.env fr))) s f errs b)
  /\ forall e,
       fst (send c (Lib.env fr)) = Raise e ->
       raised_by_last_call w (snd (send c (Lib.env fr))) e.
Proof.
  intros (added & Hc & Hd). unfold send. cbn [fst snd]. split.
  - exists (added ++ [c]). simpl. rewrite Hc, app_assoc. split; [reflexivity|].
    exact Hd.
  - intros e He. exists (added ++ [c]). cbn [calls].
    split; [rewrite Hc, app_assoc; reflexivity|].
    split; [intros H; apply app_eq_nil in H; destruct H; discriminate|].
    rewrite length_app. simpl. rewrite Nat.add_1_r. simpl.
    rewrite <- Hd. exact He.
Qed.

Ltac lib_env_known :=
  repeat match goal with
    | Q : Lib.env ?f = _ |- context [Lib.env ?f] => rewrite Q
    end;
  cbn [Lib.env driver calls clock ticks].

Ltac lib_sent_done Hc Hd :=
  lib_env_known; unfold Lib_sent; cbn [Lib.env driver calls clock ticks];
  lib_env_known; rewrite ?Hc, <- ?app_assoc;
  eexists; split; [reflexivity|exact Hd].

Ltac lib_raised_done Hc Hd :=
  lib_env_known; unfold raised_by_last_call;
  cbn [Lib.env driver calls clock ticks]; lib_env_known;
  rewrite ?Hc, <- ?app_assoc;
  eexists; split; [reflexivity|];
  split; [intros H; apply app_eq_nil in H; destruct H; discriminate|];
  rewrite <- Hd;
  match goal with
  | H : driver _ ?n = Raise ?t |- _ = Raise ?t =>
      rewrite <- H; f_equal; rewrite ?Hc, ?length_app; simpl; lia
  end.

(** Each way through the body of the loop either goes on, or raises
    what the driver raised for the last call, or, under
    [continueOnError], what reading the [message] of that raised. *)
Lemma Lib_batch_body_raises (w : World) (rows : list Row) (batchSize : Z)
  (continueOnError autoCommit : bool) (statement : string)
  (columns : list string) (i : Z) (fr : Lib.Frame) :
  Lib_sent w fr ->
  match Lib.batch_body rows batchSize continueOnError autoCommit statement
                       columns i fr with
  | (Ok _, fr') => Lib_sent w fr'
  | (Throw e, fr') =>
      raised_by_last_call w (Lib.env fr') e
      \/ (continueOnError = true
          /\ raised_reading_message w (Lib.env fr') e)
  end.
Proof.
  intros (added & Hc & Hd). lib_body.
  destruct (driver (Lib.env fr) (List.length (calls (Lib.env fr))))
    as [res|cause] eqn:Hreply.
  - destruct (batchErrors res) as [[|first more]|].
    2: { match goal with |- context [Lib.record_row_errors ?k ?l ?x] =>
           destruct (Lib_record_row_errors k l x) as (f1 & E & Q1 & _);
           rewrite E end.
         cbn [Lib.env] in Q1.
         destruct autoCommit; simpl; [|lib_sent_done Hc Hd].
         rewrite Q1. cbn [driver calls].
         destruct (driver (Lib.env fr) (List.length (_ ++ _))) as [rc|t]
           eqn:Hcommit; simpl;
           [lib_sent_done Hc Hd|].
         destruct continueOnError; simpl; [|left; lib_raised_done Hc Hd].
         match goal with |- context [Lib.record_batch_failure ?b ?k ?e ?x] =>
           destruct (Lib_record_batch_failure b k e x)
             as ([[]|t2] & f2 & E2 & (Q2 & _) & L2 & _);
           rewrite E2 end;
           cbn [Lib.env] in Q2; [lib_sent_done Hc Hd|].
         right. split; [reflexivity|]. exists t.
         split; [lib_raised_done Hc Hd|apply L2]. }
    all: destruct autoCommit; simpl; [|lib_sent_done Hc Hd];
      destruct (driver (Lib.env fr) (List.length (_ ++ _))) as [rc|t]
           eqn:Hcommit; simpl;
      [lib_sent_done Hc Hd|];
      destruct continueOnError; simpl; [|left; lib_raised_done Hc Hd];
      match goal with |- context [Lib.record_batch_failure ?b ?k ?e ?x] =>
        destruct (Lib_record_batch_failure b k e x)
          as ([[]|t2] & f2 & E2 & (Q2 & _) & L2 & _);
        rewrite E2 end;
      cbn [Lib.env] in Q2; [lib_sent_done Hc Hd|];
      right; (split; [reflexivity|]); exists t;
      (split; [lib_raised_done Hc Hd|apply L2]).
  - simpl. destruct continueOnError; simpl; [|left; lib_raised_done Hc Hd].
    match goal with |- context [Lib.record_batch_failure ?b ?k ?e ?x] =>
      destruct (Lib_record_batch_failure b k e x)
        as ([[]|t2] & f2 & E2 & (Q2 & _) & L2 & _);
      rewrite E2 end;
      cbn [Lib.env] in Q2; [lib_sent_done Hc Hd|].
    right. split; [reflexivity|]. exists cause.
    split; [lib_raised_done Hc Hd|apply L2].
Qed.

(** X25. Whenever [bulkInsert] of part_003 raises, the call that failed
    is the last one the method sent ([executeMany] or [commit]):
    nothing follows it.  The error raised is the very value the driver
    raised for that call, neither wrapped nor converted; or, under
    [continueOnError] only, when that value is [null] or [undefined],
    the [TypeError] of reading its [message].  (OracleDatabase.node.ts
    wraps the same batch failures into ["Erro no lote k: ..."].) *)
Theorem lib_raises_driver_error (fuel : nat) (self : Lib.BulkOperations)
  (tableName : string) (rows : list Row) (options : BulkInsertOptions)
  (w w' : World) (e : Thrown) :
  Lib.bulkInsert fuel self tableName rows options w = Some (Throw e, w') ->
  raised_by_last_call w w' e
  \/ (or_else (opt_continueOnError options) false = true
      /\ raised_reading_message w w' e).
Proof.
  unfold Lib.bulkInsert, now.
  destruct (for_batches _ _ _ _ _ _) as [[res fr]|] eqn:Hloop;
    [|discriminate].
  apply (for_batches_invariant _ _ _ (Lib_sent w)
           (fun e fr =>
              raised_by_last_call w (Lib.env fr) e
              \/ (or_else (opt_continueOnError options) false = true
                  /\ raised_reading_message w (Lib.env fr) e))) in Hloop.
  - destruct res as [[]|e1].
    + destruct Hloop as (added & Hc & Hd). unfold Lib.finish.
      destruct (_ && _).
      * unfold send.
        destruct (driver (Lib.env fr) _) as [rc|cause] eqn:Hcommit;
          [destruct (now _); discriminate|].
        intros H; inversion H; subst; clear H. left.
        exists (added ++ [Commit]). simpl.
        split; [rewrite Hc, app_assoc; reflexivity|].
        split; [intros H; apply app_eq_nil in H; destruct H; discriminate|].
        rewrite <- Hd, <- Hcommit. f_equal. rewrite length_app. simpl. lia.
      * destruct (now _); discriminate.
    + intros H; inversion H; subst; clear H. exact Hloop.
  - intros i s. apply Lib_batch_body_raises.
  - exists []. simpl. rewrite app_nil_r. split; reflexivity.
Qed.

Lemma lib_raises_driver_error_witness :
  (exists w',
      Lib.bulkInsert 3 (Lib.new_BulkOperations None) "T" three_rows
                     (mkBulkOptions (Some 2) None None None)
                     (world_of [fine; fine; Raise deadlock])
      = Some (Throw deadlock, w')
      /\ raised_by_last_call (world_of [fine; fine; Raise deadlock]) w'
           deadlock)
  /\ (exists e w',
        Lib.bulkInsert 3 (Lib.new_BulkOperations None) "T" three_rows
                       scenario_options
                       (world_of [Raise (NonError Null)])
        = Some (Throw e, w')
        /\ raised_reading_message (world_of [Raise (NonError Null)]) w' e).
Proof.
  split.
  - remember (Lib.bulkInsert 3 (Lib.new_BulkOperations None) "T" three_rows
                (mkBulkOptions (Some 2) None None None)
                (world_of [fine; fine; Raise deadlock])) as out eqn:E.
    pose proof E as E'. vm_compute in E'.
    match type of E' with
    | out = Some (Throw _, ?w1) => exists w1; split; [exact E'|]
    end.
    destruct (lib_raises_driver_error 3 (Lib.new_BulkOperations None) "T"
                three_rows (mkBulkOptions (Some 2) None None None)
                (world_of [fine; fine; Raise deadlock]) _ _
                (eq_trans (eq_sym E) E')) as [H|[H _]];
      [exact H|discriminate H].
  - remember (Lib.bulkInsert 3 (Lib.new_BulkOperations None) "T" three_rows
                scenario_options (world_of [Raise (NonError Null)]))
      as out eqn:E.
    pose proof E as E'. vm_compute in E'.
    match type of E' with
    | out = Some (Throw ?e1, ?w1) => exists e1, w1; split; [exact E'|]
    end.
    destruct (lib_raises_driver_error 3 (Lib.new_BulkOperations None) "T"
                three_rows scenario_options
                (world_of [Raise (NonError Null)]) _ _
                (eq_trans (eq_sym E) E')) as [(added & _ & _ & H)|[_ H]];
      [vm_compute in H; discriminate H|exact H].
Defined.

(** ** Batching *)

(** Against a driver that never raises, the body of the loop goes on. *)
Lemma Node_batch_body_answered (rows : list Row) (batchSize : Z)
  (continueOnError autoCommit : bool) (statement : string)
  (bind_row : Row -> Binds) (i : Z) (fr : Node.Frame) :
  never_raises (Node.env fr) ->
  exists fr',
    Node.batch_body rows batchSize continueOnError autoCommit statement
                    bind_row i fr = (Ok tt, fr')
    /\ driver (Node.env fr') = driver (Node.env fr).
Proof.
  intros Hnever. node_body.
  destruct (Hnever (List.length (calls (Node.env fr)))) as [r1 Hr1].
  rewrite Hr1.
  destruct (batchErrors r1) as [[|first more]|].
  2: { match goal with |- context [Node.record_row_errors ?b ?k ?l ?x] =>
         destruct (Node_record_row_errors b k l x) as (f1 & E & Q1 & _);
         rewrite E end.
       cbn [Node.env] in Q1.
       destruct autoCommit; simpl;
         [|eexists; split; [reflexivity|rewrite Q1; reflexivity]].
       rewrite Q1. cbn [driver calls].
       match goal with |- context [driver _ (List.length ?l)] =>
         destruct (Hnever (List.length l)) as [r2 Hr2]; rewrite Hr2 end.
       eexists. split; reflexivity. }
  all: destruct autoCommit; simpl; [|eexists; split; reflexivity];
    match goal with |- context [driver _ (List.length ?l)] =>
      destruct (Hnever (List.length l)) as [r2 Hr2]; rewrite Hr2 end;
    eexists; split; reflexivity.
Qed.

(** The batch loop gets to its end, and a result is returned, when no
    batch can end the call: under [continueOnError] with per-batch
    commits, or against a driver that never raises. *)
Lemma Node_run_batches_returns (fuel : nat) (kind : string)
  (rows : list Row) (batchSize : Z) (continueOnError autoCommit : bool)
  (statement : string) (bind_row : Row -> Binds) (startTime : Z) (w : World) :
  0 < batchSize -> (List.length rows <= fuel)%nat ->
  (continueOnError = true /\ autoCommit = true) \/ never_raises w ->
  exists r w',
    Node.run_batches fuel kind rows batchSize continueOnError autoCommit
                     statement bind_row startTime w = Some (Ok r, w').
Proof.
  intros Hb Hfuel Hcase. unfold Node.run_batches.
  set (body := Node.batch_body rows batchSize continueOnError autoCommit
                               statement bind_row).
  set (fr0 := Node.mkFrame w 0 0 [] 0).
  destruct (for_batches_total rows batchSize body Hb fuel 0 fr0)
    as [[res fr] Hloop]; [lia|unfold len; lia|].
  rewrite Hloop.
  destruct Hcase as [[-> ->]|Hnever].
  - apply (for_batches_rule (len rows) batchSize body (fun _ _ => True)
             (fun _ _ => False) Hb) in Hloop; [| |lia|exact I].
    + destruct res as [[]|e]; [|contradiction].
      unfold Node.finish. simpl. do 2 eexists. reflexivity.
    + intros i s _ _. unfold body.
      destruct (Node_batch_body_continue rows batchSize true statement
                  bind_row i s) as (fr' & E).
      rewrite E. exact I.
  - apply (for_batches_rule (len rows) batchSize body
             (fun _ fr => driver (Node.env fr) = driver w)
             (fun _ _ => False) Hb) in Hloop; [| |lia|reflexivity].
    + destruct res as [[]|e]; [|contradiction].
      destruct Hloop as (j & _ & Hd).
      unfold Node.finish, send.
      destruct (negb autoCommit && (0 <? Node.totalSuccess fr)).
      * destruct (Hnever (List.length (calls (Node.env fr)))) as [rc Hrc].
        rewrite Hd, Hrc. do 2 eexists. reflexivity.
      * do 2 eexists. reflexivity.
    + intros i s _ Hd. unfold body.
      destruct (Node_batch_body_answered rows batchSize continueOnError
                  autoCommit statement bind_row i s) as (fr' & E & Hd').
      * intros k. rewrite Hd. apply Hnever.
      * rewrite E. rewrite Hd'. exact Hd.
Qed.

(** C7. With a positive batch size and a non-empty [rows], given fuel
    for [rows.length] iterations, [bulkInsert] ends.  When no batch can
    end the call (rows that carry the columns of the first, and either
    [continueOnError] with per-batch commits or a driver that never
    raises) it returns a result.  Whenever it returns a result, the
    [executeMany] calls it sent carry, in order, the bind rows of
    consecutive slices of [rows] whose concatenation is [rows]: there
    are [ceil(N/B)] of them, none is empty or longer than the batch
    size, all but the last have exactly the batch size, and
    [batchCount] is their number. *)
Theorem bulkInsert_partitions (fuel : nat) (self : Node.BulkOperations)
  (tableName : string) (rows : list Row) (options : BulkInsertOptions)
  (w : World) :
  let batchSize :=
    or_else (opt_batchSize options) (Node.defaultBatchSize self) in
  0 < batchSize -> 0 < len rows -> (List.length rows <= fuel)%nat ->
  exists out,
    Node.bulkInsert fuel self tableName rows options w = Some out
    /\ (rectangular rows (keys (hd [] rows)) ->
        (or_else (opt_continueOnError options) false = true
         /\ or_else (opt_autoCommit options) true = true)
        \/ never_raises w ->
        exists r w', out = (Ok r, w'))
    /\ forall r w', out = (Ok r, w') ->
         exists slices,
           Partition batchSize rows slices
           /\ len slices = ceil_div (len rows) batchSize
           /\ batchCount r = len slices
           /\ many_binds (calls w')
              = many_binds (calls w)
                ++ map (map (fun row =>
                               ByPosition (map (get row) (keys (hd [] rows)))))
                       slices.
Proof.
  intros batchSize Hb Hn Hfuel. unfold Node.bulkInsert, now.
  destruct rows as [|first rest]; [discriminate Hn|].
  destruct (Node.validateDataStructure _ _) as [e|] eqn:Hvalid.
  - eexists. split; [reflexivity|]. split; [|discriminate].
    intros Hrect _. exfalso.
    apply (proj2 (validate_from_None _ _ 0)) in Hrect.
    unfold Node.validateDataStructure in Hvalid. simpl hd in Hrect.
    rewrite Hrect in Hvalid. discriminate Hvalid.
  - match goal with
    | |- context [Node.run_batches ?f ?k ?r ?b ?c ?a ?s ?br ?st ?w0] =>
        destruct (Node_run_batches_partition f k r b c a s br st w0 Hb Hn Hfuel)
          as (out & E & H);
        pose proof (Node_run_batches_returns f k r b c a s br st w0 Hb Hfuel)
          as Hret
    end.
    exists out. split; [exact E|]. split; [|exact H].
    intros _ Hcase. rewrite E in Hret.
    destruct (Hret Hcase) as (r & w' & Hout).
    exists r, w'. congruence.
Qed.

Lemma bulkInsert_partitions_witness :
  exists r w' slices,
    Node.bulkInsert 3 (Node.new_BulkOperations None) "T" three_rows
                    scenario_options (world_of [row_errors [1]])
    = Some (Ok r, w')
    /\ Partition 2 three_rows slices
    /\ len slices = 2
    /\ batchCount r = 2
    /\ many_binds (calls w')
       = map (map (fun row => ByPosition (map (get row) ["a"]))) slices.
Proof.
  destruct (bulkInsert_partitions 3 (Node.new_BulkOperations None) "T"
              three_rows scenario_options (world_of [row_errors [1]]))
    as (out & E & Hret & Hpart).
  - reflexivity.
  - reflexivity.
  - apply le_n.
  - destruct Hret as (r & w' & ->).
    + intros row Hrow col Hcol. simpl in Hrow, Hcol.
      destruct Hcol as [<-|[]].
      destruct Hrow as [<-|[<-|[<-|[]]]]; reflexivity.
    + left. split; reflexivity.
    + destruct (Hpart r w' eq_refl) as (slices & P & Hlen & Hcount & Hsent).
      exists r, w', slices. split; [exact E|]. split; [exact P|].
      split; [exact Hlen|]. split; [rewrite Hcount; exact Hlen|exact Hsent].
Defined.
